(** * ipcRemoteCom: the RPC correlation manager and its multiplexer

    A shallow embedding of
    [src/vs/workbench/services/extensions/node/ipcRemoteCom.ts]:
    the wire templates of [MessageFactory], the batching [RPCMultiplexer]
    and the correlating [RPCManager], together with the collaborators the
    file imports (the value serializer, the deferred result, the promise
    returned by a handler and the [process.nextTick] queue). *)

From Stdlib Require Import ZArith Lia Ascii String Decimal DecimalString DecimalN.
From stdpp Require Import base option list sorting gmap strings.

Local Open Scope Z_scope.

Set Warnings "-register-all".

#[local] Arguments String.append !s1 s2 : simpl nomatch.

(** ** Text *)

Module Text.

(** The double quote and the backslash, written by code so that no string
    literal of this file has to contain them. *)
Definition dq : ascii := "034"%char.
Definition bs : ascii := "092"%char.

(** [`"${s}"`]: the text [s] between two double quotes, nothing escaped. *)
Definition quoted (s : string) : string := String dq (s +:+ String dq "").

Definition code (c : ascii) : N := N_of_ascii c.

(** A character that JSON lets stand for itself inside a string literal. *)
Definition plain_char (c : ascii) : bool :=
  negb (Ascii.eqb c dq) && negb (Ascii.eqb c bs) && (32 <=? code c)%N.

Fixpoint plain (s : string) : bool :=
  match s with
  | "" => true
  | String c r => plain_char c && plain r
  end.

Definition is_digit (c : ascii) : bool := (48 <=? code c)%N && (code c <=? 57)%N.

Definition is_ws (c : ascii) : bool :=
  Ascii.eqb c " " || Ascii.eqb c "009" || Ascii.eqb c "010" || Ascii.eqb c "013".

Definition starts_with_digit (s : string) : bool :=
  match s with
  | String c _ => is_digit c
  | "" => false
  end.

Fixpoint join (sep : string) (l : list string) : string :=
  match l with
  | [] => ""
  | [x] => x
  | x :: r => x +:+ sep +:+ join sep r
  end.

(** Decimal digits of a natural number, no leading zero, [0] as one digit. *)
Definition dec (n : N) : string := NilEmpty.string_of_uint (N.to_uint n).

(** [String(n)] and the number case of [JSON.stringify], on integers. *)
Definition Number_toString (z : Z) : string :=
  if z <? 0 then String "-" (dec (Z.to_N (- z))) else dec (Z.to_N z).

End Text.
Import Text.

(** ** Values on the wire *)

(** The data that crosses the channel. Numbers are the integers (a
    fraction or an exponent is outside the model); an object is the list of
    its members in enumeration order. *)
Inductive json : Type :=
  | JNull
  | JBool (b : bool)
  | JNum (z : Z)
  | JStr (s : string)
  | JArr (l : list json)
  | JObj (members : list (string * json)).

(** A value the program handles: [undefined] is [None]. *)
Abbreviation jsval := (option json).

Section JsonInd.
Variable P : json -> Prop.
Hypothesis Hnull : P JNull.
Hypothesis Hbool : forall b, P (JBool b).
Hypothesis Hnum : forall z, P (JNum z).
Hypothesis Hstr : forall s, P (JStr s).
Hypothesis Harr : forall l, Forall P l -> P (JArr l).
Hypothesis Hobj : forall m, Forall (fun kv => P (snd kv)) m -> P (JObj m).

Fixpoint json_rect_nested (v : json) : P v :=
  match v with
  | JNull => Hnull
  | JBool b => Hbool b
  | JNum z => Hnum z
  | JStr s => Hstr s
  | JArr l =>
      Harr l ((fix go (l : list json) : Forall P l :=
                 match l with
                 | [] => @List.Forall_nil _ _
                 | x :: r => @List.Forall_cons _ _ x r (json_rect_nested x) (go r)
                 end) l)
  | JObj m =>
      Hobj m ((fix go (m : list (string * json)) : Forall (fun kv => P (snd kv)) m :=
                 match m with
                 | [] => @List.Forall_nil _ _
                 | kv :: r => @List.Forall_cons _ _ kv r (json_rect_nested (snd kv)) (go r)
                 end) m)
  end.
End JsonInd.

(** ** marshalling: the value serializer *)

Module marshalling.

Definition hex_digit (n : N) : ascii :=
  if (n <? 10)%N then ascii_of_N (48 + n) else ascii_of_N (87 + n).

(** How [JSON.stringify] writes one character of a string. *)
Definition escape_char (c : ascii) : string :=
  if Ascii.eqb c dq then String bs (String dq "")
  else if Ascii.eqb c bs then String bs (String bs "")
  else if Ascii.eqb c "008" then String bs "b"
  else if Ascii.eqb c "012" then String bs "f"
  else if Ascii.eqb c "010" then String bs "n"
  else if Ascii.eqb c "013" then String bs "r"
  else if Ascii.eqb c "009" then String bs "t"
  else if (code c <? 32)%N then
    String bs (String "u" (String "0" (String "0"
      (String (hex_digit (code c / 16)) (String (hex_digit (code c mod 16)) "")))))
  else String c "".

Fixpoint escape (s : string) : string :=
  match s with
  | "" => ""
  | String c r => escape_char c +:+ escape r
  end.

Definition quote (s : string) : string := String dq (escape s +:+ String dq "").

(** Modelled from the spec: the value serializer [serialize(value) -> text]
    of vs/base/common/marshalling, which is not part of the sources at
    hand; it is JSON text without white space. *)
Fixpoint stringify (v : json) : string :=
  match v with
  | JNull => "null"
  | JBool true => "true"
  | JBool false => "false"
  | JNum z => Number_toString z
  | JStr s => quote s
  | JArr l => String "[" (join "," (map stringify l) +:+ "]")
  | JObj m =>
      String "{" (join "," (map (fun kv => quote (fst kv) +:+ String ":" (stringify (snd kv))) m)
                  +:+ "}")
  end.

Fixpoint skip_ws (s : string) : string :=
  match s with
  | String c r => if is_ws c then skip_ws r else s
  | "" => ""
  end.

Definition hex_value (c : ascii) : option N :=
  let n := code c in
  if (48 <=? n)%N && (n <=? 57)%N then Some (n - 48)%N
  else if (97 <=? n)%N && (n <=? 102)%N then Some (n - 87)%N
  else if (65 <=? n)%N && (n <=? 70)%N then Some (n - 55)%N
  else None.

Definition hex4 (a b c d : ascii) : option N :=
  match hex_value a, hex_value b, hex_value c, hex_value d with
  | Some x, Some y, Some z, Some w => Some (((x * 16 + y) * 16 + z) * 16 + w)%N
  | _, _, _, _ => None
  end.

Definition unescape (e : ascii) : option ascii :=
  if Ascii.eqb e dq then Some dq
  else if Ascii.eqb e bs then Some bs
  else if Ascii.eqb e "/" then Some "/"%char
  else if Ascii.eqb e "b" then Some "008"%char
  else if Ascii.eqb e "f" then Some "012"%char
  else if Ascii.eqb e "n" then Some "010"%char
  else if Ascii.eqb e "r" then Some "013"%char
  else if Ascii.eqb e "t" then Some "009"%char
  else None.

(** The characters of a string literal after its opening quote, up to and
    including the closing one. A [\u] escape above 00ff has no
    character in this model and is refused. *)
Fixpoint parse_string (s : string) : option (string * string) :=
  match s with
  | "" => None
  | String c r =>
      if Ascii.eqb c dq then Some ("", r)
      else if Ascii.eqb c bs then
        match r with
        | String e r1 =>
            if Ascii.eqb e "u" then
              match r1 with
              | String h1 (String h2 (String h3 (String h4 r2))) =>
                  match hex4 h1 h2 h3 h4 with
                  | Some n =>
                      if (n <? 256)%N then
                        match parse_string r2 with
                        | Some (str, rest) => Some (String (ascii_of_N n) str, rest)
                        | None => None
                        end
                      else None
                  | None => None
                  end
              | _ => None
              end
            else
              match unescape e with
              | Some c' =>
                  match parse_string r1 with
                  | Some (str, rest) => Some (String c' str, rest)
                  | None => None
                  end
              | None => None
              end
        | "" => None
        end
      else if (code c <? 32)%N then None
      else
        match parse_string r with
        | Some (str, rest) => Some (String c str, rest)
        | None => None
        end
  end.

Fixpoint read_digits (s : string) : string * string :=
  match s with
  | String c r =>
      if is_digit c then let '(d, r') := read_digits r in (String c d, r') else ("", s)
  | "" => ("", "")
  end.

(** [0] or a digit string that does not start with [0]. *)
Definition parse_nat (s : string) : option (N * string) :=
  let '(ds, r) := read_digits s in
  match NilEmpty.uint_of_string ds with
  | Some d => if uint_beq (unorm d) d then Some (N.of_uint d, r) else None
  | None => None
  end.

Fixpoint strip_prefix (lit s : string) : option string :=
  match lit with
  | "" => Some s
  | String a l =>
      match s with
      | String b r => if Ascii.eqb a b then strip_prefix l r else None
      | "" => None
      end
  end.

Definition expect (lit : string) (s : string) (v : json) : option (json * string) :=
  match strip_prefix lit s with
  | Some r => Some (v, r)
  | None => None
  end.

Fixpoint parse_value (fuel : nat) (s : string) {struct fuel} : option (json * string) :=
  match fuel with
  | O => None
  | S fuel =>
      match skip_ws s with
      | "" => None
      | String c r =>
          if Ascii.eqb c "n" then expect "ull" r JNull
          else if Ascii.eqb c "t" then expect "rue" r (JBool true)
          else if Ascii.eqb c "f" then expect "alse" r (JBool false)
          else if Ascii.eqb c dq then
            match parse_string r with
            | Some (str, rest) => Some (JStr str, rest)
            | None => None
            end
          else if Ascii.eqb c "-" then
            match parse_nat r with
            | Some (n, rest) => Some (JNum (- Z.of_N n), rest)
            | None => None
            end
          else if is_digit c then
            match parse_nat (String c r) with
            | Some (n, rest) => Some (JNum (Z.of_N n), rest)
            | None => None
            end
          else if Ascii.eqb c "[" then
            match skip_ws r with
            | "" => None
            | String c1 r1 =>
                if Ascii.eqb c1 "]" then Some (JArr [], r1)
                else
                  match parse_elements fuel r with
                  | Some (l, rest) => Some (JArr l, rest)
                  | None => None
                  end
            end
          else if Ascii.eqb c "{" then
            match skip_ws r with
            | "" => None
            | String c1 r1 =>
                if Ascii.eqb c1 "}" then Some (JObj [], r1)
                else
                  match parse_members fuel r with
                  | Some (m, rest) => Some (JObj m, rest)
                  | None => None
                  end
            end
          else None
      end
  end
with parse_elements (fuel : nat) (s : string) {struct fuel} : option (list json * string) :=
  match fuel with
  | O => None
  | S fuel =>
      match parse_value fuel s with
      | Some (v, r) =>
          match skip_ws r with
          | "" => None
          | String c r1 =>
              if Ascii.eqb c "," then
                match parse_elements fuel r1 with
                | Some (l, rest) => Some (v :: l, rest)
                | None => None
                end
              else if Ascii.eqb c "]" then Some ([v], r1)
              else None
          end
      | None => None
      end
  end
with parse_members (fuel : nat) (s : string) {struct fuel}
    : option (list (string * json) * string) :=
  match fuel with
  | O => None
  | S fuel =>
      match skip_ws s with
      | "" => None
      | String c r =>
          if Ascii.eqb c dq then
            match parse_string r with
            | Some (k, r1) =>
                match skip_ws r1 with
                | "" => None
                | String c2 r2 =>
                    if Ascii.eqb c2 ":" then
                      match parse_value fuel r2 with
                      | Some (v, r3) =>
                          match skip_ws r3 with
                          | "" => None
                          | String c4 r4 =>
                              if Ascii.eqb c4 "," then
                                match parse_members fuel r4 with
                                | Some (m, rest) => Some ((k, v) :: m, rest)
                                | None => None
                                end
                              else if Ascii.eqb c4 "}" then Some ([(k, v)], r4)
                              else None
                          end
                      | None => None
                      end
                    else None
                end
            | None => None
            end
          else None
      end
  end.

(** Modelled from the spec: the deserializer [deserialize(text) -> value] of
    vs/base/common/marshalling, not part of the sources at hand; [None] is
    the syntax error that [JSON.parse] throws. *)
Definition parse (text : string) : option json :=
  match parse_value (S (String.length text)) text with
  | Some (v, rest) => match skip_ws rest with "" => Some v | _ => None end
  | None => None
  end.

End marshalling.

(** ** Notions for the serializer's round trip *)

Module marshalling_measure.
Import marshalling.

(** The first character of a printed value. *)
Definition value_start (c : ascii) : bool :=
  Ascii.eqb c "n" || Ascii.eqb c "t" || Ascii.eqb c "f" || Ascii.eqb c dq
  || Ascii.eqb c "-" || is_digit c || Ascii.eqb c "[" || Ascii.eqb c "{".

(** The number of nodes of a value: the fuel its text needs. *)
Fixpoint size (v : json) : nat :=
  match v with
  | JArr l => S ((fix go (l : list json) : nat :=
                    match l with [] => O | x :: r => S (size x + go r) end) l)
  | JObj m => S ((fix go (m : list (string * json)) : nat :=
                    match m with [] => O | kv :: r => S (size (snd kv) + go r) end) m)
  | _ => 1
  end.

Definition sizes (l : list json) : nat :=
  (fix go (l : list json) : nat :=
     match l with [] => O | x :: r => S (size x + go r) end) l.

Definition msizes (m : list (string * json)) : nat :=
  (fix go (m : list (string * json)) : nat :=
     match m with [] => O | kv :: r => S (size (snd kv) + go r) end) m.

Definition member_text (kv : string * json) : string :=
  quote (fst kv) +:+ String ":" (stringify (snd kv)).

(** What round-trips: the text of [v], followed by anything that does not
    continue a number, parses back to [v] and leaves what followed. *)
Definition reads_back (v : json) : Prop :=
  forall fuel rest, (size v <= fuel)%nat -> starts_with_digit rest = false ->
    parse_value fuel (stringify v +:+ rest) = Some (v, rest).

End marshalling_measure.


(** ** JavaScript values and coercions *)

(** Truthiness, as [if (x)] tests it. *)
Definition truthy (v : jsval) : bool :=
  match v with
  | None => false
  | Some JNull => false
  | Some (JBool b) => b
  | Some (JNum z) => negb (z =? 0)
  | Some (JStr s) => negb (String.eqb s "")
  | Some (JArr _) => true
  | Some (JObj _) => true
  end.

(** [msg.k] on a parsed value that is not [null]: the last member named [k]
    of an object, [undefined] on anything else. *)
Definition get (msg : json) (k : string) : jsval :=
  match msg with
  | JObj m => foldl (fun acc kv => if String.eqb (fst kv) k then Some (snd kv) else acc) None m
  | _ => None
  end.

Definition get' (v : jsval) (k : string) : jsval :=
  match v with
  | Some j => get j k
  | None => None
  end.

(** [String(v)], which is also what a template literal and a property key
    make of [v]; [None] is the TypeError of an object whose own [toString]
    member hides the inherited method (a member read from JSON is never a
    function). An array joins its elements, [null] counting as empty. *)
Fixpoint ToString_json (v : json) : option string :=
  match v with
  | JNull => Some "null"
  | JBool true => Some "true"
  | JBool false => Some "false"
  | JNum z => Some (Number_toString z)
  | JStr s => Some s
  | JArr l =>
      option_map (join ",")
        ((fix go (l : list json) : option (list string) :=
            match l with
            | [] => Some []
            | x :: r =>
                match match x with JNull => Some EmptyString | _ => ToString_json x end, go r with
                | Some s, Some ss => Some (s :: ss)
                | _, _ => None
                end
            end) l)
  | JObj m =>
      match get (JObj m) "toString" with
      | Some _ => None
      | None => Some "[object Object]"
      end
  end.

Definition ToString (v : jsval) : option string :=
  match v with
  | None => Some "undefined"
  | Some j => ToString_json j
  end.

(** A value at run time: [undefined], plain data, or an [Error] object with
    its three fields. *)
Inductive value : Type :=
  | Undefined
  | Data (j : json)
  | ErrorObject (name message stack : jsval).

Definition value_of (v : jsval) : value :=
  match v with
  | None => Undefined
  | Some j => Data j
  end.

(** How a call ends. *)
Inductive outcome : Type :=
  | Ok (res : jsval)
  | Err (err : value).

(** What a handler does when called: return a value, throw, or return a
    promise it settles later. *)
Inductive HandlerOutcome : Type :=
  | Returns (v : jsval)
  | Throws (e : value)
  | ReturnsPromise (p : nat).

(** What the code around the manager may do to it while it runs on the
    manager's stack (inside a handler, or inside the continuation of a
    deferred result): the public interface [IRemoteCom], and [cancel] on a
    deferred result it holds. *)
Inductive reentry : Type :=
  | ReCallOnRemote (proxyId path : string) (args : list json)
      (k : list (outcome -> list reentry))
  | ReSetManyHandler
      (handler : option (jsval -> jsval -> jsval -> list reentry * HandlerOutcome))
  | ReCancel (l : nat).

Definition continuation : Type := outcome -> list reentry.

(** [IManyHandler.handle(rpcId, method, args)]. *)
Definition IManyHandler : Type := jsval -> jsval -> jsval -> list reentry * HandlerOutcome.

(** ** errors *)

Module errors.

(** Modelled from the spec: [transformErrorForWire(error)] of
    vs/base/common/errors, not part of the sources at hand: an error object
    becomes its name, message and stack under a marker flag, anything else
    passes as it is. *)
Definition transformErrorForSerialization (err : value) : json :=
  match err with
  | ErrorObject name message stack =>
      JObj (("$isError", JBool true)
            :: omap (fun kv => match snd kv with Some j => Some (fst kv, j) | None => None end)
                 [("name", name); ("message", message); ("stack", stack)])
  | Data j => j
  | Undefined => JNull
  end.

End errors.

(** ** MessageFactory *)

Module MessageFactory.

Definition cancel (req : string) : string :=
  "{" +:+ quoted "cancel" +:+ ":" +:+ quoted req +:+ "}".

Definition request (req rpcId method : string) (args : list json) : string :=
  "{" +:+ quoted "req" +:+ ":" +:+ quoted req
  +:+ "," +:+ quoted "rpcId" +:+ ":" +:+ quoted rpcId
  +:+ "," +:+ quoted "method" +:+ ":" +:+ quoted method
  +:+ "," +:+ quoted "args" +:+ ":" +:+ marshalling.stringify (JArr args) +:+ "}".

Definition replyOK (req : string) (res : jsval) : string :=
  match res with
  | None => "{" +:+ quoted "seq" +:+ ":" +:+ quoted req +:+ "}"
  | Some r =>
      "{" +:+ quoted "seq" +:+ ":" +:+ quoted req
      +:+ "," +:+ quoted "res" +:+ ":" +:+ marshalling.stringify r +:+ "}"
  end.

Definition replyErr (req : string) (err : value) : string :=
  match err with
  | Undefined =>
      "{" +:+ quoted "seq" +:+ ":" +:+ quoted req
      +:+ "," +:+ quoted "err" +:+ ":null}"
  | _ =>
      "{" +:+ quoted "seq" +:+ ":" +:+ quoted req
      +:+ "," +:+ quoted "err" +:+ ":"
      +:+ marshalling.stringify (errors.transformErrorForSerialization err) +:+ "}"
  end.

End MessageFactory.

(** ** The state of one manager and of the process around it *)

(** Modelled from the spec: the deferred result of
    vs/workbench/services/extensions/node/lazyPromise, not part of the
    sources at hand (spec 4.2): pending or terminal, a cancel-requested flag,
    the cancel action given at construction (here the correlation id its
    closure captured) and the continuations attached so far. *)
Inductive DState : Type :=
  | Pending
  | ResolvedOk (res : jsval)
  | ResolvedError (err : value).

Record LazyPromise : Type := mkLazyPromise {
  state : DState;
  cancelRequested : bool;
  onCancel : string;
  continuations : list continuation
}.

(** The promise kept in [_invokedHandlers]: what [TPromise.as] and
    [TPromise.wrapError] make of a handler's return value or exception, or
    the promise the handler returned. *)
Inductive TPromise : Type :=
  | CompletePromise (v : jsval)
  | ErrorPromise (e : value)
  | Returned (p : nat).

(** A promise returned by a handler: whether it has settled, the request
    ids captured by the completion callbacks attached to it, and how often
    its cancel capability was invoked. *)
Record HandlerPromise : Type := mkHandlerPromise {
  settled : option outcome;
  callbacks : list string;
  cancels : nat
}.

(** The two callbacks the multiplexer hands to [process.nextTick]. *)
Inductive task : Type :=
  | receiveOneMessageBound
  | sendAccumulatedBound.

Inductive exn : Type :=
  | SyntaxError
  | TypeError
  | Error (message : string).

(** What the program does, in the order it does it. *)
Inductive event : Type :=
  | EvTick (n : nat)
  | EvDispatch (n : nat) (rawmsg : option string)
  | EvUncaught (e : exn)
  | EvProtocolSend (batch : list string)
  | EvSend (msg : string)
  | EvWarn (text : string)
  | EvError (err : jsval)
  | EvForget (key : string)
  | EvResolve (l : nat) (o : outcome)
  | EvInvoke (rpcId method args : jsval)
  | EvRegister (key : string)
  | EvDeregister (key : string)
  | EvCancel (key : string).

Record World : Type := mkWorld {
  (* RPCManager *)
  _bigHandler : option IManyHandler;
  _lastMessageId : Z;
  _invokedHandlers : gmap string TPromise;
  _pendingRPCReplies : gmap string nat;
  (* RPCMultiplexer *)
  _messagesToSend : list string;
  _messagesToReceive : list string;
  (* the objects and the process around them *)
  heap : list LazyPromise;
  promises : gmap nat HandlerPromise;
  nextTickQueue : list task;
  ticks : nat;
  trace : list event
}.

Definition upd_bigHandler (f : option IManyHandler -> option IManyHandler) (w : World) : World :=
  mkWorld (f (_bigHandler w)) (_lastMessageId w) (_invokedHandlers w) (_pendingRPCReplies w) (_messagesToSend w) (_messagesToReceive w) (heap w) (promises w) (nextTickQueue w) (ticks w) (trace w).

Definition upd_lastMessageId (f : Z -> Z) (w : World) : World :=
  mkWorld (_bigHandler w) (f (_lastMessageId w)) (_invokedHandlers w) (_pendingRPCReplies w) (_messagesToSend w) (_messagesToReceive w) (heap w) (promises w) (nextTickQueue w) (ticks w) (trace w).

Definition upd_invokedHandlers (f : gmap string TPromise -> gmap string TPromise) (w : World) : World :=
  mkWorld (_bigHandler w) (_lastMessageId w) (f (_invokedHandlers w)) (_pendingRPCReplies w) (_messagesToSend w) (_messagesToReceive w) (heap w) (promises w) (nextTickQueue w) (ticks w) (trace w).

Definition upd_pendingRPCReplies (f : gmap string nat -> gmap string nat) (w : World) : World :=
  mkWorld (_bigHandler w) (_lastMessageId w) (_invokedHandlers w) (f (_pendingRPCReplies w)) (_messagesToSend w) (_messagesToReceive w) (heap w) (promises w) (nextTickQueue w) (ticks w) (trace w).

Definition upd_messagesToSend (f : list string -> list string) (w : World) : World :=
  mkWorld (_bigHandler w) (_lastMessageId w) (_invokedHandlers w) (_pendingRPCReplies w) (f (_messagesToSend w)) (_messagesToReceive w) (heap w) (promises w) (nextTickQueue w) (ticks w) (trace w).

Definition upd_messagesToReceive (f : list string -> list string) (w : World) : World :=
  mkWorld (_bigHandler w) (_lastMessageId w) (_invokedHandlers w) (_pendingRPCReplies w) (_messagesToSend w) (f (_messagesToReceive w)) (heap w) (promises w) (nextTickQueue w) (ticks w) (trace w).

Definition upd_heap (f : list LazyPromise -> list LazyPromise) (w : World) : World :=
  mkWorld (_bigHandler w) (_lastMessageId w) (_invokedHandlers w) (_pendingRPCReplies w) (_messagesToSend w) (_messagesToReceive w) (f (heap w)) (promises w) (nextTickQueue w) (ticks w) (trace w).

Definition upd_promises (f : gmap nat HandlerPromise -> gmap nat HandlerPromise) (w : World) : World :=
  mkWorld (_bigHandler w) (_lastMessageId w) (_invokedHandlers w) (_pendingRPCReplies w) (_messagesToSend w) (_messagesToReceive w) (heap w) (f (promises w)) (nextTickQueue w) (ticks w) (trace w).

Definition upd_nextTickQueue (f : list task -> list task) (w : World) : World :=
  mkWorld (_bigHandler w) (_lastMessageId w) (_invokedHandlers w) (_pendingRPCReplies w) (_messagesToSend w) (_messagesToReceive w) (heap w) (promises w) (f (nextTickQueue w)) (ticks w) (trace w).

Definition upd_ticks (f : nat -> nat) (w : World) : World :=
  mkWorld (_bigHandler w) (_lastMessageId w) (_invokedHandlers w) (_pendingRPCReplies w) (_messagesToSend w) (_messagesToReceive w) (heap w) (promises w) (nextTickQueue w) (f (ticks w)) (trace w).

Definition upd_trace (f : list event -> list event) (w : World) : World :=
  mkWorld (_bigHandler w) (_lastMessageId w) (_invokedHandlers w) (_pendingRPCReplies w) (_messagesToSend w) (_messagesToReceive w) (heap w) (promises w) (nextTickQueue w) (ticks w) (f (trace w)).

Definition log (e : event) : World -> World := upd_trace (fun t => t ++ [e]).

(** What a call of a function that may throw comes to, with the state it
    leaves. *)
Inductive completion : Type :=
  | Return (w : World)
  | Throw (e : exn) (w : World).

(** [process.nextTick(callback)]. *)
Definition nextTick (callback : task) : World -> World :=
  upd_nextTickQueue (fun q => q ++ [callback]).

(** ** RPCMultiplexer *)

Module RPCMultiplexer.

Definition send (msg : string) (w : World) : World :=
  let w := log (EvSend msg) w in
  let w := if Nat.eqb (length (_messagesToSend w)) 0
           then nextTick sendAccumulatedBound w else w in
  upd_messagesToSend (fun buffer => buffer ++ [msg]) w.

Definition _sendAccumulated (w : World) : World :=
  let tmp := _messagesToSend w in
  let w := upd_messagesToSend (fun _ => []) w in
  log (EvProtocolSend tmp) w.

(** The callback the constructor registers with [_protocol.onMessage]. *)
Definition onMessage (data : list string) (w : World) : World :=
  let w := if Nat.eqb (length (_messagesToReceive w)) 0
           then nextTick receiveOneMessageBound w else w in
  upd_messagesToReceive (fun queue => queue ++ data) w.

(** [_onMessage] is the callback given to the constructor; what it throws
    leaves the callback that [process.nextTick] runs and is recorded. *)
Definition _receiveOneMessage (_onMessage : option string -> World -> completion)
    (w : World) : World :=
  let rawmsg := head (_messagesToReceive w) in
  let w := upd_messagesToReceive (drop 1) w in
  let w := if Nat.ltb 0 (length (_messagesToReceive w))
           then nextTick receiveOneMessageBound w else w in
  let w := log (EvDispatch (ticks w) rawmsg) w in
  match _onMessage rawmsg w with
  | Return w' => w'
  | Throw e w' => log (EvUncaught e) w'
  end.

End RPCMultiplexer.

(** ** LazyPromise *)

Module lazyPromise.

(** Modelled from the spec: the constructor of the deferred result (spec
    4.2), which takes the cancel action. *)
Definition create (req : string) : LazyPromise :=
  mkLazyPromise Pending false req [].

(** Modelled from the spec: [cancel()] of the deferred result (spec 4.2):
    while pending and not yet cancel-requested it invokes the cancel action
    and sets the flag; it never makes the result terminal. The cancel
    action is the closure [callOnRemote] builds: it sends the Cancel
    message of the captured id. *)
Definition cancel (l : nat) (w : World) : World :=
  match heap w !! l with
  | Some d =>
      match state d with
      | Pending =>
          if cancelRequested d then w
          else
            let w := RPCMultiplexer.send (MessageFactory.cancel (onCancel d)) w in
            upd_heap (fun h => <[l := mkLazyPromise (state d) true (onCancel d) (continuations d)]> h) w
      | _ => w
      end
  | None => w
  end.

Section Resolve.
(** How the code of a continuation acts on the manager. *)
Variable reenter : list reentry -> World -> World.

(** Modelled from the spec: [resolveOk] and [resolveError] of the
    deferred result (spec 4.2): a pending result becomes terminal and is
    delivered to the continuations attached to it; a terminal one ignores
    the call. *)
Definition resolve (l : nat) (o : outcome) (w : World) : World :=
  match heap w !! l with
  | Some d =>
      match state d with
      | Pending =>
          let terminal := match o with Ok res => ResolvedOk res | Err err => ResolvedError err end in
          let w := upd_heap (fun h => <[l := mkLazyPromise terminal (cancelRequested d)
                                             (onCancel d) (continuations d)]> h) w in
          foldl (fun w k => reenter (k o) w) w (continuations d)
      | _ => w
      end
  | None => w
  end.

(** Modelled from the spec: attaching a continuation (spec 4.2): queued
    while the result is pending, delivered at once when it is terminal. *)
Definition then_ (l : nat) (k : continuation) (w : World) : World :=
  match heap w !! l with
  | Some d =>
      match state d with
      | Pending =>
          upd_heap (fun h => <[l := mkLazyPromise Pending (cancelRequested d) (onCancel d)
                                      (continuations d ++ [k])]> h) w
      | ResolvedOk res => reenter (k (Ok res)) w
      | ResolvedError err => reenter (k (Err err)) w
      end
  | None => w
  end.
End Resolve.

End lazyPromise.

(** ** RPCManager *)

Module RPCManager.

(** The state the constructor leaves. *)
Definition create : World :=
  mkWorld None 0 ∅ ∅ [] [] [] ∅ [] 0 [].

(** [++n] on a number that holds an integer from 0 to 2^53: exact below
    2^53, and at 2^53 the sum rounds back to 2^53. *)
Definition increment (n : Z) : Z := if n <? 2 ^ 53 then n + 1 else n.

Definition callOnRemote (proxyId path : string) (args : list json) (w : World)
    : World * nat :=
  let w := upd_lastMessageId increment w in
  let req := Number_toString (_lastMessageId w) in
  let result := length (heap w) in
  let w := upd_heap (fun h => h ++ [lazyPromise.create req]) w in
  let w := upd_pendingRPCReplies (fun m => <[req := result]> m) w in
  let w := RPCMultiplexer.send (MessageFactory.request req proxyId path args) w in
  (w, result).

Definition setManyHandler (handler : option IManyHandler) : World -> World :=
  upd_bigHandler (fun _ => handler).

(** The calls that code running on the manager's stack makes. A
    continuation given with a call is attached to the result the call
    returned, which is still pending then. *)
Definition reenter1 (w : World) (r : reentry) : World :=
  match r with
  | ReCallOnRemote proxyId path args ks =>
      let '(w, result) := callOnRemote proxyId path args w in
      foldl (fun w k => lazyPromise.then_ (fun _ w => w) result k w) w ks
  | ReSetManyHandler handler => setManyHandler handler w
  | ReCancel l => lazyPromise.cancel l w
  end.

Definition reenter (script : list reentry) (w : World) : World :=
  foldl reenter1 w script.

Definition resolveOk (reply : nat) (res : jsval) : World -> World :=
  lazyPromise.resolve reenter reply (Ok res).

Definition resolveErr (reply : nat) (err : value) : World -> World :=
  lazyPromise.resolve reenter reply (Err err).

(** The two callbacks that [_receiveOneMessage] attaches to the promise of
    an invoked handler; both captured [req], which is a text by then: the
    registration under [req] has made a property key of it. *)
Definition completed (req : string) (o : outcome) (w : World) : World :=
  let w := upd_invokedHandlers (delete req) w in
  let w := log (EvDeregister req) w in
  match o with
  | Ok r => RPCMultiplexer.send (MessageFactory.replyOK req r) w
  | Err err => RPCMultiplexer.send (MessageFactory.replyErr req err) w
  end.

Definition promise_of (w : World) (p : nat) : HandlerPromise :=
  default (mkHandlerPromise None [] 0) (promises w !! p).

(** Modelled from the spec: [then] of the promise of
    vs/base/common/winjs.base, not part of the sources at hand: on a
    settled promise the callback runs at once (as spec 4.2 has it for the
    deferred result), on a pending one it waits. *)
Definition then_ (promise : TPromise) (req : string) (w : World) : World :=
  match promise with
  | CompletePromise v => completed req (Ok v) w
  | ErrorPromise e => completed req (Err e) w
  | Returned p =>
      let hp := promise_of w p in
      match settled hp with
      | Some o => completed req o w
      | None =>
          upd_promises (fun m => <[p := mkHandlerPromise None (callbacks hp ++ [req]) (cancels hp)]> m) w
      end
  end.

(** Modelled from the spec: a handler's promise settles, once, and
    delivers to the callbacks attached to it. *)
Definition settle (p : nat) (o : outcome) (w : World) : World :=
  let hp := promise_of w p in
  match settled hp with
  | Some _ => w
  | None =>
      let w := upd_promises (fun m => <[p := mkHandlerPromise (Some o) (callbacks hp) (cancels hp)]> m) w in
      foldl (fun w req => completed req o w) w (callbacks hp)
  end.

(** Modelled from the spec: the error with which an owner that stops at
    once completes its promise, named as the promise of
    vs/base/common/winjs.base names it. *)
Definition canceled : value :=
  ErrorObject (Some (JStr "Canceled")) (Some (JStr "Canceled")) None.

(** Modelled from the spec: what the owner of a handler's promise does when
    the promise is asked to cancel (spec 3 and 5: the owner decides whether
    and when to stop, and still reports completion). The model has both
    kinds of owner, told apart by the name of the promise: the owner of a
    promise with an even name carries on and reports completion later; the
    owner of a promise with an odd name stops at once and completes the
    promise with the [Canceled] error, the way the promise of
    vs/base/common/winjs.base does. *)
Definition whenCancelled (p : nat) : option outcome :=
  if Nat.even p then None else Some (Err canceled).

(** Modelled from the spec: the cancel capability of a handler's promise
    (spec 5): the request is handed to the owner of the promise; when the
    owner completes the promise at once, the callbacks attached to it run
    inside this call. A promise that has settled ignores it, and so does a
    promise made of a value or of an exception. *)
Definition cancel (promise : TPromise) (w : World) : World :=
  match promise with
  | Returned p =>
      let hp := promise_of w p in
      let w := upd_promises
                 (fun m => <[p := mkHandlerPromise (settled hp) (callbacks hp) (S (cancels hp))]> m)
                 w in
      match whenCancelled p with
      | Some o => settle p o w
      | None => w
      end
  | _ => w
  end.

Definition _invokeHandler (handler : IManyHandler) (rpcId method args : jsval) (w : World)
    : World * TPromise :=
  let w := log (EvInvoke rpcId method args) w in
  let '(script, result) := handler rpcId method args in
  let w := reenter script w in
  match result with
  | Returns v => (w, CompletePromise v)
  | ReturnsPromise p => (w, Returned p)
  | Throws err => (w, ErrorPromise err)
  end.

(** The dispatch of one message. A value used as a property key is made a
    text first, which throws for the values [ToString] refuses; in
    [this._invokedHandlers[req] = ...] that happens when the property is
    stored, after the handler was invoked. *)
Definition _receiveOneMessage (rawmsg : option string) (w : World) : completion :=
  match marshalling.parse (default "undefined" rawmsg) with
  | None => Throw SyntaxError w
  | Some JNull => Throw TypeError w
  | Some msg =>
      if truthy (get msg "seq") then
        match ToString (get msg "seq") with
        | None => Throw TypeError w
        | Some seq =>
            match _pendingRPCReplies w !! seq with
            | None => Return (log (EvWarn "Got reply to unknown seq") w)
            | Some reply =>
                let w := upd_pendingRPCReplies (delete seq) w in
                let w := log (EvForget seq) w in
                if truthy (get msg "err") then
                  let err :=
                    if truthy (get' (get msg "err") "$isError")
                    then ErrorObject (get' (get msg "err") "name")
                                     (get' (get msg "err") "message")
                                     (get' (get msg "err") "stack")
                    else value_of (get msg "err") in
                  Return (resolveErr reply err (log (EvResolve reply (Err err)) w))
                else
                  Return (resolveOk reply (get msg "res")
                            (log (EvResolve reply (Ok (get msg "res"))) w))
            end
        end
      else if truthy (get msg "cancel") then
        match ToString (get msg "cancel") with
        | None => Throw TypeError w
        | Some key =>
            match _invokedHandlers w !! key with
            | Some promise => Return (cancel promise (log (EvCancel key) w))
            | None => Return w
            end
        end
      else if truthy (get msg "err") then
        Return (log (EvError (get msg "err")) w)
      else
        let rpcId := get msg "rpcId" in
        match _bigHandler w with
        | None => Throw (Error "got message before big handler attached!") w
        | Some handler =>
            let '(w, promise) :=
              _invokeHandler handler rpcId (get msg "method") (get msg "args") w in
            match ToString (get msg "req") with
            | None => Throw TypeError w
            | Some req =>
                let w := upd_invokedHandlers (fun m => <[req := promise]> m) w in
                let w := log (EvRegister req) w in
                Return (then_ promise req w)
            end
        end
  end.

End RPCManager.

(** ** The process: what happens to a manager *)

Inductive action : Type :=
  | Arrive (data : list string)
  | Tick
  | Do (r : reentry)
  | Then (l : nat) (k : continuation)
  | Settle (p : nat) (o : outcome).

Definition runTask (callback : task) (w : World) : World :=
  match callback with
  | receiveOneMessageBound =>
      RPCMultiplexer._receiveOneMessage RPCManager._receiveOneMessage w
  | sendAccumulatedBound => RPCMultiplexer._sendAccumulated w
  end.

(** One callback of the [process.nextTick] queue runs. *)
Definition tick (w : World) : World :=
  match nextTickQueue w with
  | [] => w
  | callback :: queue =>
      let w := upd_nextTickQueue (fun _ => queue) w in
      let w := upd_ticks S w in
      runTask callback (log (EvTick (ticks w)) w)
  end.

Definition step (w : World) (a : action) : World :=
  match a with
  | Arrive data => RPCMultiplexer.onMessage data w
  | Tick => tick w
  | Do r => RPCManager.reenter1 w r
  | Then l k => lazyPromise.then_ RPCManager.reenter l k w
  | Settle p o => RPCManager.settle p o w
  end.

Definition run (acts : list action) (w : World) : World := foldl step w acts.

Definition reachable (w : World) : Prop := exists acts, w = run acts RPCManager.create.

(** How the if-chain of [RPCManager._receiveOneMessage] sorts a parsed
    message; [null] has no properties to look at. *)
Inductive kind : Type := Reply | Cancel | BareError | Request.

Definition classify (msg : json) : option kind :=
  match msg with
  | JNull => None
  | _ =>
      Some (if truthy (get msg "seq") then Reply
            else if truthy (get msg "cancel") then Cancel
            else if truthy (get msg "err") then BareError
            else Request)
  end.

(** * Notions used in the statements *)

Import RPCManager.

Definition sends (msgs : list string) (w : World) : World :=
  foldl (fun w msg => RPCMultiplexer.send msg w) w msgs.

(** The texts of the scenario of the specification. *)
Definition scenario_request : string :=
  MessageFactory.request "1" "svc.foo" "bar" [JNum 1; JNum 2].
Definition scenario_reply_42 : string :=
  MessageFactory.replyOK "1" (Some (JNum 42)).
Definition scenario_reply_null_err : string :=
  MessageFactory.replyErr "1" Undefined.
Definition scenario_reply_seq7 : string :=
  MessageFactory.replyOK "7" (Some (JNum 42)).

(** The manager after [callOnRemote("svc.foo", "bar", [1,2])] on a new one. *)
Definition scenario_called : World :=
  fst (callOnRemote "svc.foo" "bar" [JNum 1; JNum 2] create).

(** From [w] to [w'] the log only grew, and every deferred result that
    existed is still there, in the state it had and with the cancel action
    it had. *)
Definition grows (w w' : World) : Prop :=
  (exists more, trace w' = trace w ++ more)
  /\ (forall l d, heap w !! l = Some d ->
        exists d', heap w' !! l = Some d' /\ state d' = state d /\ onCancel d' = onCancel d).

Definition terminal (o : outcome) : DState :=
  match o with
  | Ok res => ResolvedOk res
  | Err err => ResolvedError err
  end.

(** The outcome a reply message carries, as the reply branch of
    [_receiveOneMessage] reads it. *)
Definition reply_outcome (msg : json) : outcome :=
  if truthy (get msg "err") then
    Err (if truthy (get' (get msg "err") "$isError")
         then ErrorObject (get' (get msg "err") "name")
                          (get' (get msg "err") "message")
                          (get' (get msg "err") "stack")
         else value_of (get msg "err"))
  else Ok (get msg "res").

(** The text decodes to a message that the dispatch sorts as a request and
    whose four fields are the given ones. *)
Definition decodes_as_request (text req rpcId method : string) (args : list json) : Prop :=
  exists msg,
    marshalling.parse text = Some msg
    /\ classify msg = Some Request
    /\ get msg "req" = Some (JStr req)
    /\ get msg "rpcId" = Some (JStr rpcId)
    /\ get msg "method" = Some (JStr method)
    /\ get msg "args" = Some (JArr args).

(** Code running on the manager's stack reaches neither the registered
    invocations, nor the handlers' promises, nor the receive queue. *)
Definition untouched (w w' : World) : Prop :=
  _invokedHandlers w' = _invokedHandlers w /\ promises w' = promises w
  /\ _messagesToReceive w' = _messagesToReceive w /\ ticks w' = ticks w.

(** The reply that reports an outcome. *)
Definition reply_text (req : string) (o : outcome) : string :=
  match o with
  | Ok r => MessageFactory.replyOK req r
  | Err err => MessageFactory.replyErr req err
  end.

(** A handler that answers every call with the promise 0, which it settles
    later. *)
Definition deferring_handler : IManyHandler := fun _ _ _ => ([], ReturnsPromise 0).

Definition scenario_request_msg : json :=
  JObj [("req", JStr "1"); ("rpcId", JStr "svc.foo"); ("method", JStr "bar");
        ("args", JArr [JNum 1; JNum 2])].

(** The deferred results that the reply path has resolved, in order. *)
Definition resolved (t : list event) : list nat :=
  omap (fun e => match e with EvResolve l _ => Some l | _ => None end) t.

(** The messages handed to the manager's callback, with their ticks. *)
Definition dispatched (t : list event) : list (nat * option string) :=
  omap (fun e => match e with EvDispatch n rawmsg => Some (n, rawmsg) | _ => None end) t.

(** What the bookkeeping of outbound calls consists of: the counter, the
    pending calls, the id each deferred result was created for, and the
    deferred results resolved so far. *)
Definition core (w : World) : Z * gmap string nat * list string * list nat :=
  (_lastMessageId w, _pendingRPCReplies w, onCancel <$> heap w, resolved (trace w)).

Record Inv (w : World) : Prop := mkInv {
  inv_counter : 0 <= _lastMessageId w <= 2 ^ 53;
  inv_pending : forall k l, _pendingRPCReplies w !! k = Some l ->
      (exists n, 1 <= n <= _lastMessageId w /\ k = Number_toString n)
      /\ (onCancel <$> heap w) !! l = Some k
      /\ l ∉ resolved (trace w);
  inv_resolved : forall l, l ∈ resolved (trace w) -> (l < length (onCancel <$> heap w))%nat;
  inv_once : NoDup (resolved (trace w))
}.

(** The id that the next call gets. *)
Definition next_id (w : World) : string := Number_toString (increment (_lastMessageId w)).

Definition world_of (c : completion) : World :=
  match c with
  | Return w => w
  | Throw _ w => w
  end.

(** The ids that a row of calls is given, each with whether a pending
    call had that id when it was given out. The id of a call is the one
    the cancel action of the returned result captured. *)
Fixpoint issue (calls : list (string * string * list json)) (w : World)
    : list (string * bool) :=
  match calls with
  | [] => []
  | (proxyId, path, args) :: rest =>
      let '(w', result) := callOnRemote proxyId path args w in
      let id := default EmptyString (onCancel <$> heap w' !! result) in
      (id, bool_decide (is_Some (_pendingRPCReplies w !! id))) :: issue rest w'
  end.

(** The manager after [n] calls on a new one. *)
Definition after_calls (n : N) : World :=
  N.iter n (fun w => fst (callOnRemote "svc.foo" "bar" [] w)) create.

(** What the call that follows [n] calls is given. *)
Definition issued_after (n : N) : list (string * bool) :=
  issue [("svc.foo", "bar", [])] (after_calls n).

Definition limit_id : string := Eval vm_compute in Number_toString (2 ^ 53).

(** From [w] to [w'] the counter did not go back, and every pending call of
    [w'] was pending in [w] or has an id above the counter of [w] (or the
    counter stands at 2^53); the reply path resolved nothing in between
    and the log only grew. *)
Definition adds_ids (w w' : World) : Prop :=
  _lastMessageId w <= _lastMessageId w'
  /\ (forall k l, _pendingRPCReplies w' !! k = Some l ->
        _pendingRPCReplies w !! k = Some l
        \/ exists n, k = Number_toString n /\ n <= _lastMessageId w'
                     /\ (_lastMessageId w < n \/ 2 ^ 53 <= n))
  /\ exists more, trace w' = trace w ++ more /\ resolved more = [].

(** A continuation that calls the peer again. *)
Definition again : continuation := fun _ => [ReCallOnRemote "svc.foo" "bar" [] []].

Definition limit_reply : string := MessageFactory.replyOK limit_id (Some (JNum 42)).

Definition limit_reply_msg : json := JObj [("seq", JStr limit_id); ("res", JNum 42)].

(** The manager after 2^53 calls on a new one, the last of them with a
    continuation that calls again. *)
Definition saturated : World :=
  step (after_calls (2 ^ 53 - 1)) (Do (ReCallOnRemote "svc.foo" "bar" [] [again])).

(** How many deliveries are scheduled. *)
Fixpoint receives (q : list task) : nat :=
  match q with
  | [] => 0
  | receiveOneMessageBound :: q => S (receives q)
  | sendAccumulatedBound :: q => receives q
  end.

(** What the receiving side consists of: the queue, the tick count, the
    dispatches on record and the number of scheduled deliveries. *)
Definition muxcore (w : World) : list string * nat * list (nat * option string) * nat :=
  (_messagesToReceive w, ticks w, dispatched (trace w), receives (nextTickQueue w)).




(** ** Notions for the two directions of the channel *)

(** The messages handed to [RPCMultiplexer.send], in order. *)
Definition sent (t : list event) : list string :=
  omap (fun e => match e with EvSend msg => Some msg | _ => None end) t.

(** The batches handed to the transport's [send], in order. *)
Definition batches (t : list event) : list (list string) :=
  omap (fun e => match e with EvProtocolSend batch => Some batch | _ => None end) t.

(** The calls of the handler, with their arguments, in order. *)
Definition invocations (t : list event) : list (jsval * jsval * jsval) :=
  omap (fun e => match e with
                 | EvInvoke rpcId method args => Some (rpcId, method, args)
                 | _ => None
                 end) t.

(** How many flushes are scheduled. *)
Fixpoint flushes (q : list task) : nat :=
  match q with
  | [] => 0
  | sendAccumulatedBound :: q => S (flushes q)
  | receiveOneMessageBound :: q => flushes q
  end.

(** What the sending side consists of: the buffer, the number of scheduled
    flushes, the messages handed to [send] and the batches handed on. *)
Definition outcore (w : World) : list string * nat * list string * list (list string) :=
  (_messagesToSend w, flushes (nextTickQueue w), sent (trace w), batches (trace w)).

(** The sending side: a flush is scheduled exactly when the buffer is not
    empty; the batches handed on, followed by the buffer, are the messages
    handed to [send]; and no batch is empty. *)
Record Out (w : World) : Prop := mkOut {
  out_scheduled :
    flushes (nextTickQueue w)
    = match _messagesToSend w with [] => 0%nat | _ => 1%nat end;
  out_fifo : concat (batches (trace w)) ++ _messagesToSend w = sent (trace w);
  out_batches : Forall (fun batch => batch <> []) (batches (trace w))
}.


(** A bound on the ticks that are still to come. *)
Definition backlog (w : World) : nat :=
  (2 * length (_messagesToReceive w) + 2 * receives (nextTickQueue w)
   + flushes (nextTickQueue w))%nat.

(** From [w] to [w'] the log grew by messages handed to [send] and by
    nothing else. *)
Definition only_sends (w w' : World) : Prop :=
  exists msgs, trace w' = trace w ++ (EvSend <$> msgs).

(** The promise that [_invokeHandler] returns. *)
Definition promise_for (result : HandlerOutcome) : TPromise :=
  match result with
  | Returns v => CompletePromise v
  | ReturnsPromise p => Returned p
  | Throws err => ErrorPromise err
  end.

(** A row of calls made one after the other. *)
Definition call_all (calls : list (string * string * list json)) (w : World) : World :=
  foldl (fun w c => fst (callOnRemote c.1.1 c.1.2 c.2 w)) w calls.

(** The request texts of a row of calls made when the counter stands at
    [last]. *)
Fixpoint request_texts (last : Z) (calls : list (string * string * list json))
    : list string :=
  match calls with
  | [] => []
  | (proxyId, path, args) :: rest =>
      MessageFactory.request (Number_toString (increment last)) proxyId path args
      :: request_texts (increment last) rest
  end.

(** A handler that answers every call with 42. *)
Definition answering_handler : IManyHandler := fun _ _ _ => ([], Returns (Some (JNum 42))).

(** A handler that answers [bar] with the promise 0 and every other method
    with the promise 1. *)
Definition two_promises_handler : IManyHandler :=
  fun _ method _ =>
    match method with
    | Some (JStr "bar") => ([], ReturnsPromise 0)
    | _ => ([], ReturnsPromise 1)
    end.

(** The registered invocations are those that still await their promise:
    each one holds a promise that a handler returned and that has not
    settled, and the completion callback that deletes the registration is
    attached to that promise. *)
Definition Registered (w : World) : Prop :=
  forall req promise, _invokedHandlers w !! req = Some promise ->
    exists p, promise = Returned p /\ settled (promise_of w p) = None
              /\ req ∈ callbacks (promise_of w p).

(** ** Notions for what lasts over a run *)

(** From [w] to [w'] the log only grew, the deferred results that existed
    are still there under the ids they were created for, and the counter
    did not go back. *)
Definition follows (w w' : World) : Prop :=
  (exists more, trace w' = trace w ++ more)
  /\ (exists ids, onCancel <$> heap w' = (onCancel <$> heap w) ++ ids)
  /\ _lastMessageId w <= _lastMessageId w'.

(** Every deferred result was created for the decimal of a number up to the
    counter; and while the counter is below 2^53, a deferred result that
    the reply path has not resolved is still filed under its id. *)
Record Live (w : World) : Prop := mkLive {
  live_ids : forall l k, (onCancel <$> heap w) !! l = Some k ->
      exists n, 1 <= n <= _lastMessageId w /\ k = Number_toString n;
  live_filed : _lastMessageId w < 2 ^ 53 ->
      forall l k, (onCancel <$> heap w) !! l = Some k -> l ∉ resolved (trace w) ->
      _pendingRPCReplies w !! k = Some l
}.

(** A deferred result that the reply path has not resolved is pending. *)
Definition Fresh (w : World) : Prop :=
  forall l d, heap w !! l = Some d -> l ∉ resolved (trace w) -> state d = Pending.

(** ** Notions for the invocations in flight *)

(** What a promise that settles with [o] makes its completion callbacks
    log, one after the other: each deletes its registration and sends its
    reply. *)
Definition completions (o : outcome) (cbs : list string) : list event :=
  flat_map (fun req => [EvDeregister req; EvSend (reply_text req o)]) cbs.

(** The invocation of the request [req] that awaits the promise [p], seen
    from the log [base] of the state in which it was registered. As long as
    no request is registered under [req] again: no other promise in flight
    has a callback for [req]; while [p] has not settled, the invocation is
    registered, was not deregistered, and [p] has its callback, once; and
    when [p] has settled with [o], the invocation is not registered, it
    was deregistered once, and its reply was sent right then. *)
Definition Track (req : string) (p : nat) (base : list event) (w : World) : Prop :=
  exists more,
    trace w = base ++ more
    /\ (EvRegister req ∉ more ->
        (forall p', p' <> p -> settled (promise_of w p') = None ->
           req ∉ callbacks (promise_of w p'))
        /\ match settled (promise_of w p) with
           | None =>
               _invokedHandlers w !! req = Some (Returned p)
               /\ (EvDeregister req ∉ more)
               /\ exists l1 l2,
                    callbacks (promise_of w p) = l1 ++ req :: l2
                    /\ (req ∉ l1) /\ (req ∉ l2)
           | Some o =>
               _invokedHandlers w !! req = None
               /\ exists before after,
                    more = before ++ [EvDeregister req; EvSend (reply_text req o)] ++ after
                    /\ (EvDeregister req ∉ before) /\ (EvDeregister req ∉ after)
           end).

(** The text decodes to a message that the dispatch sorts as a reply, for
    the id [req], and that carries the outcome [o]: its result, or its
    error as the error transform has made it. *)
Definition decodes_as_reply (text req : string) (o : outcome) : Prop :=
  exists m,
    marshalling.parse text = Some m
    /\ classify m = Some Reply
    /\ get m "seq" = Some (JStr req)
    /\ match o with
       | Ok res => get m "res" = res /\ get m "err" = None
       | Err err => get m "err" = Some (errors.transformErrorForSerialization err)
       end.

(** * Properties *)

(** ** Facts about the serializer *)

Module marshalling_facts.
Import marshalling marshalling_measure.

Lemma append_assoc (a b c : string) : (a +:+ b) +:+ c = a +:+ (b +:+ c).
Proof. induction a as [|x a IH]; cbn; [reflexivity | congruence]. Qed.

Lemma append_nil_r (a : string) : a +:+ "" = a.
Proof. induction a as [|x a IH]; cbn; [reflexivity | congruence]. Qed.

Lemma length_append (a b : string) :
  String.length (a +:+ b) = (String.length a + String.length b)%nat.
Proof. induction a as [|x a IH]; cbn; [reflexivity | congruence]. Qed.

Lemma value_start_spec c :
  value_start c = true ->
  is_ws c = false /\ Ascii.eqb c "]" = false /\ Ascii.eqb c "}" = false.
Proof. destruct c as [[] [] [] [] [] [] [] []]; vm_compute; intuition congruence. Qed.

Lemma parse_string_escape_char c r :
  parse_string (escape_char c +:+ r) =
  match parse_string r with
  | Some (str, rest) => Some (String c str, rest)
  | None => None
  end.
Proof. destruct c as [[] [] [] [] [] [] [] []]; reflexivity. Qed.

Lemma parse_string_escape s rest :
  parse_string (escape s +:+ String dq rest) = Some (s, rest).
Proof.
  induction s as [|c s IH]; [reflexivity|].
  cbn [escape]. rewrite append_assoc, parse_string_escape_char, IH. reflexivity.
Qed.

Lemma parse_string_quote s rest :
  parse_string ((escape s +:+ String dq "") +:+ rest) = Some (s, rest).
Proof. rewrite append_assoc. apply parse_string_escape. Qed.

Lemma escape_plain_char c : plain_char c = true -> escape_char c = String c "".
Proof. destruct c as [[] [] [] [] [] [] [] []]; vm_compute; congruence. Qed.

Lemma escape_plain s : plain s = true -> escape s = s.
Proof.
  induction s as [|c s IH]; [reflexivity|].
  cbn [plain escape]. intros [Hc Hs]%andb_prop.
  rewrite (escape_plain_char c Hc), (IH Hs). reflexivity.
Qed.

Lemma quote_plain s : plain s = true -> quote s = quoted s.
Proof. intros H. unfold quote, quoted. now rewrite escape_plain. Qed.

Lemma uint_digits d : NilEmpty.string_of_uint d = "" \/
  exists c r, NilEmpty.string_of_uint d = String c r /\ is_digit c = true.
Proof. destruct d; cbn; eauto 6. Qed.

Lemma read_digits_uint d rest :
  starts_with_digit rest = false ->
  read_digits (NilEmpty.string_of_uint d +:+ rest) = (NilEmpty.string_of_uint d, rest).
Proof.
  intros Hrest.
  induction d as [|d IH|d IH|d IH|d IH|d IH|d IH|d IH|d IH|d IH|d IH];
    cbn [NilEmpty.string_of_uint append];
    try (cbn [read_digits]; change (is_digit _) with true; cbn iota; now rewrite IH).
  destruct rest as [|c r]; [reflexivity|].
  cbn in Hrest. cbn [read_digits]. now rewrite Hrest.
Qed.

Lemma to_uint_normal n : unorm (N.to_uint n) = N.to_uint n.
Proof.
  rewrite <- DecimalN.Unsigned.to_of. now rewrite DecimalN.Unsigned.of_to.
Qed.

Lemma uint_beq_refl d : uint_beq d d = true.
Proof. induction d; cbn; auto. Qed.

Lemma parse_nat_dec n rest :
  starts_with_digit rest = false -> parse_nat (dec n +:+ rest) = Some (n, rest).
Proof.
  intros Hrest. unfold parse_nat, dec.
  rewrite (read_digits_uint _ _ Hrest), NilEmpty.usu, to_uint_normal, uint_beq_refl.
  now rewrite DecimalN.Unsigned.of_to.
Qed.

Lemma dec_start n : exists c r, dec n = String c r /\ is_digit c = true.
Proof.
  unfold dec. destruct (uint_digits (N.to_uint n)) as [H|H]; [|exact H].
  exfalso. pose proof (to_uint_normal n) as Hn.
  destruct (N.to_uint n); cbn in H, Hn; congruence.
Qed.

Lemma digit_tests c :
  is_digit c = true ->
  is_ws c = false /\ Ascii.eqb c "n" = false /\ Ascii.eqb c "t" = false
  /\ Ascii.eqb c "f" = false /\ Ascii.eqb c dq = false /\ Ascii.eqb c "-" = false
  /\ value_start c = true.
Proof. destruct c as [[] [] [] [] [] [] [] []]; vm_compute; intuition congruence. Qed.

Lemma stringify_arr l : stringify (JArr l) = String "[" (join "," (map stringify l) +:+ "]").
Proof. reflexivity. Qed.

Lemma stringify_obj m : stringify (JObj m) = String "{" (join "," (map member_text m) +:+ "}").
Proof. reflexivity. Qed.

Lemma stringify_start v : exists c r, stringify v = String c r /\ value_start c = true.
Proof.
  destruct v as [|[]|z|s|l|m]; try (cbn; eauto; fail).
  cbn [stringify]. unfold Number_toString. destruct (z <? 0)%Z; [cbn; eauto|].
  destruct (dec_start (Z.to_N z)) as (c & r & -> & Hc).
  exists c, r. split; [reflexivity|]. now apply digit_tests.
Qed.

Lemma parse_elements_back l :
  Forall reads_back l -> l <> [] ->
  forall fuel rest, (sizes l <= fuel)%nat ->
    parse_elements fuel (join "," (map stringify l) +:+ String "]" rest) = Some (l, rest).
Proof.
  induction 1 as [|x l Hx Hl IH]; [congruence|]. intros _ fuel rest Hfuel.
  destruct fuel as [|fuel]; [cbn in Hfuel; lia|].
  change (sizes (x :: l)) with (S (size x + sizes l)) in Hfuel.
  destruct l as [|y l].
  - cbn [map join parse_elements].
    rewrite Hx by (reflexivity || lia). cbn. reflexivity.
  - change (join "," (map stringify (x :: y :: l)))
      with (stringify x +:+ "," +:+ join "," (map stringify (y :: l))).
    rewrite !append_assoc. cbn [parse_elements].
    rewrite Hx by (reflexivity || lia). cbn [append skip_ws is_ws]. cbn.
    rewrite IH by (congruence || lia). reflexivity.
Qed.

Lemma parse_members_back m :
  Forall (fun kv => reads_back (snd kv)) m -> m <> [] ->
  forall fuel rest, (msizes m <= fuel)%nat ->
    parse_members fuel (join "," (map member_text m) +:+ String "}" rest) = Some (m, rest).
Proof.
  induction 1 as [|[k x] m Hx Hm IH]; [congruence|]. intros _ fuel rest Hfuel.
  destruct fuel as [|fuel]; [cbn in Hfuel; lia|].
  change (msizes ((k, x) :: m)) with (S (size x + msizes m)) in Hfuel.
  cbn [snd] in Hx.
  destruct m as [|y m].
  - cbn [map join]. unfold member_text, quote. cbn [fst snd].
    rewrite !append_assoc. cbn [append parse_members skip_ws]. cbn.
    rewrite parse_string_quote. cbn.
    rewrite Hx by (reflexivity || lia). cbn. reflexivity.
  - change (join "," (map member_text ((k, x) :: y :: m)))
      with (member_text (k, x) +:+ "," +:+ join "," (map member_text (y :: m))).
    unfold member_text at 1, quote. cbn [fst snd].
    rewrite !append_assoc. cbn [append parse_members skip_ws]. cbn.
    rewrite parse_string_quote. cbn.
    rewrite Hx by (reflexivity || lia). cbn.
    rewrite IH by (congruence || lia). reflexivity.
Qed.

Lemma parse_value_arr fuel r :
  parse_value (S fuel) (String "[" r) =
  match skip_ws r with
  | "" => None
  | String c1 r1 =>
      if Ascii.eqb c1 "]" then Some (JArr [], r1)
      else match parse_elements fuel r with
           | Some (l, rest) => Some (JArr l, rest)
           | None => None
           end
  end.
Proof. reflexivity. Qed.

Lemma parse_value_obj fuel r :
  parse_value (S fuel) (String "{" r) =
  match skip_ws r with
  | "" => None
  | String c1 r1 =>
      if Ascii.eqb c1 "}" then Some (JObj [], r1)
      else match parse_members fuel r with
           | Some (m, rest) => Some (JObj m, rest)
           | None => None
           end
  end.
Proof. reflexivity. Qed.

Lemma peek_elements x l t :
  exists c r, skip_ws (join "," (map stringify (x :: l)) +:+ t) = String c r
              /\ Ascii.eqb c "]" = false.
Proof.
  destruct (stringify_start x) as (c & r & Hx & Hc).
  destruct (value_start_spec c Hc) as (Hws & Hclose & _).
  destruct l; cbn [map join]; rewrite Hx; cbn [append skip_ws]; rewrite Hws; eauto.
Qed.

Lemma peek_members kv m t :
  exists c r, skip_ws (join "," (map member_text (kv :: m)) +:+ t) = String c r
              /\ Ascii.eqb c "}" = false.
Proof.
  destruct m; cbn [map join]; unfold member_text at 1, quote; cbn; eauto.
Qed.

Lemma stringify_reads_back v : reads_back v.
Proof.
  induction v as [|b|z|s|l IH|m IH] using json_rect_nested; intros fuel rest Hfuel Hrest;
    (destruct fuel as [|fuel]; [cbn in Hfuel; lia|]).
  - reflexivity.
  - destruct b; reflexivity.
  - cbn [stringify]. unfold Number_toString. destruct (Z.ltb_spec z 0) as [Hz|Hz].
    + cbn. rewrite (parse_nat_dec _ _ Hrest). do 3 f_equal. lia.
    + destruct (dec_start (Z.to_N z)) as (c & r & Hdec & Hc).
      pose proof (parse_nat_dec (Z.to_N z) rest Hrest) as Hnat.
      rewrite Hdec in *. destruct (digit_tests c Hc) as (H1 & H2 & H3 & H4 & H5 & H6 & _).
      cbn [append parse_value skip_ws]. rewrite H1, H2, H3, H4, H5, H6, Hc.
      change (String c (r +:+ rest)) with (String c r +:+ rest).
      rewrite Hnat. do 3 f_equal. lia.
  - cbn [stringify]. unfold quote. cbn. rewrite parse_string_quote. reflexivity.
  - rewrite stringify_arr. cbn [append]. rewrite append_assoc. cbn [append].
    rewrite parse_value_arr.
    destruct l as [|x l]; [reflexivity|].
    destruct (peek_elements x l (String "]" rest)) as (c & r & -> & ->).
    rewrite parse_elements_back; [reflexivity | exact IH | congruence |].
    change (size (JArr (x :: l))) with (S (sizes (x :: l))) in Hfuel. lia.
  - rewrite stringify_obj. cbn [append]. rewrite append_assoc. cbn [append].
    rewrite parse_value_obj.
    destruct m as [|kv m]; [reflexivity|].
    destruct (peek_members kv m (String "}" rest)) as (c & r & -> & ->).
    rewrite parse_members_back; [reflexivity | exact IH | congruence |].
    change (size (JObj (kv :: m))) with (S (msizes (kv :: m))) in Hfuel. lia.
Qed.

Lemma join_length_elements l :
  Forall (fun v => (size v <= String.length (stringify v))%nat) l ->
  (sizes l <= S (String.length (join "," (map stringify l))))%nat.
Proof.
  induction 1 as [|x l Hx Hl IH]; [cbn; lia|].
  change (sizes (x :: l)) with (S (size x + sizes l)).
  destruct l as [|y l]; [cbn in *; lia|].
  change (join "," (map stringify (x :: y :: l)))
    with (stringify x +:+ "," +:+ join "," (map stringify (y :: l))).
  rewrite !length_append. cbn [String.length]. lia.
Qed.

Lemma join_length_members m :
  Forall (fun kv => (size (snd kv) <= String.length (stringify (snd kv)))%nat) m ->
  (msizes m <= S (String.length (join "," (map member_text m))))%nat.
Proof.
  induction 1 as [|[k x] m Hx Hm IH]; [cbn; lia|].
  change (msizes ((k, x) :: m)) with (S (size x + msizes m)).
  assert (Hk : (size x <= String.length (member_text (k, x)))%nat).
  { unfold member_text. rewrite length_append. cbn [fst snd String.length] in *. lia. }
  destruct m as [|y m]; [cbn [map join msizes] in *; lia|].
  change (join "," (map member_text ((k, x) :: y :: m)))
    with (member_text (k, x) +:+ "," +:+ join "," (map member_text (y :: m))).
  rewrite !length_append. cbn [String.length]. lia.
Qed.

Lemma size_le_length v : (size v <= String.length (stringify v))%nat.
Proof.
  induction v as [|b|z|s|l IH|m IH] using json_rect_nested.
  - cbn; lia.
  - destruct b; cbn; lia.
  - destruct (stringify_start (JNum z)) as (c & r & -> & _). cbn; lia.
  - cbn; lia.
  - rewrite stringify_arr. change (size (JArr l)) with (S (sizes l)).
    pose proof (join_length_elements l IH). cbn [String.length]. rewrite length_append. cbn [String.length]. lia.
  - rewrite stringify_obj. change (size (JObj m)) with (S (msizes m)).
    pose proof (join_length_members m IH). cbn [String.length]. rewrite length_append. cbn [String.length]. lia.
Qed.

(** [JSON.parse(JSON.stringify(v))] gives [v] back. *)
Lemma parse_stringify v : parse (stringify v) = Some v.
Proof.
  unfold parse. rewrite <- (append_nil_r (stringify v)) at 2.
  rewrite stringify_reads_back; [reflexivity | | reflexivity].
  pose proof (size_le_length v). lia.
Qed.

End marshalling_facts.

Import marshalling_measure marshalling_facts.

Ltac fields_in H :=
  cbn [_bigHandler _lastMessageId _invokedHandlers _pendingRPCReplies _messagesToSend
       _messagesToReceive heap promises nextTickQueue ticks trace
       upd_bigHandler upd_lastMessageId upd_invokedHandlers upd_pendingRPCReplies
       upd_messagesToSend upd_messagesToReceive upd_heap upd_promises upd_nextTickQueue
       upd_ticks upd_trace log nextTick] in H.

Ltac gfields :=
  cbn [_bigHandler _lastMessageId _invokedHandlers _pendingRPCReplies _messagesToSend
       _messagesToReceive heap promises nextTickQueue ticks trace
       upd_bigHandler upd_lastMessageId upd_invokedHandlers upd_pendingRPCReplies
       upd_messagesToSend upd_messagesToReceive upd_heap upd_promises upd_nextTickQueue
       upd_ticks upd_trace log nextTick].

Ltac fields :=
  cbn [_bigHandler _lastMessageId _invokedHandlers _pendingRPCReplies _messagesToSend
       _messagesToReceive heap promises nextTickQueue ticks trace
       upd_bigHandler upd_lastMessageId upd_invokedHandlers upd_pendingRPCReplies
       upd_messagesToSend upd_messagesToReceive upd_heap upd_promises upd_nextTickQueue
       upd_ticks upd_trace log nextTick] in *.

(** ** The multiplexer's send buffer *)

Lemma send_fields msg w :
  _messagesToSend (RPCMultiplexer.send msg w) = _messagesToSend w ++ [msg]
  /\ trace (RPCMultiplexer.send msg w) = trace w ++ [EvSend msg]
  /\ nextTickQueue (RPCMultiplexer.send msg w) =
       nextTickQueue w ++ (if Nat.eqb (length (_messagesToSend w)) 0
                           then [sendAccumulatedBound] else [])
  /\ _messagesToReceive (RPCMultiplexer.send msg w) = _messagesToReceive w
  /\ ticks (RPCMultiplexer.send msg w) = ticks w
  /\ heap (RPCMultiplexer.send msg w) = heap w
  /\ _pendingRPCReplies (RPCMultiplexer.send msg w) = _pendingRPCReplies w
  /\ _invokedHandlers (RPCMultiplexer.send msg w) = _invokedHandlers w
  /\ _bigHandler (RPCMultiplexer.send msg w) = _bigHandler w
  /\ _lastMessageId (RPCMultiplexer.send msg w) = _lastMessageId w
  /\ promises (RPCMultiplexer.send msg w) = promises w.
Proof.
  unfold RPCMultiplexer.send. fields.
  destruct (Nat.eqb (length (_messagesToSend w)) 0); fields;
    rewrite ?app_nil_r; repeat split; reflexivity.
Qed.

Lemma sends_nonempty_buffer msgs w :
  _messagesToSend w <> [] ->
  _messagesToSend (sends msgs w) = _messagesToSend w ++ msgs
  /\ nextTickQueue (sends msgs w) = nextTickQueue w
  /\ trace (sends msgs w) = trace w ++ map EvSend msgs.
Proof.
  revert w. induction msgs as [|m msgs IH]; intros w Hw; cbn [sends foldl map].
  - now rewrite !app_nil_r.
  - destruct (send_fields m w) as (Hb & Ht & Hq & _).
    destruct (IH (RPCMultiplexer.send m w)) as (Hb' & Hq' & Ht').
    { rewrite Hb. now destruct (_messagesToSend w). }
    unfold sends in *. rewrite Hb', Hq', Ht', Hb, Ht, Hq.
    destruct (_messagesToSend w); [congruence|]. cbn [length Nat.eqb].
    now rewrite app_nil_r, <- !app_assoc.
Qed.

(** ** Dispatch of one message *)

Lemma truthy_not_null msg k : truthy (get msg k) = true -> msg <> JNull.
Proof. intros H ->. discriminate. Qed.

Lemma receive_parsed_any rawmsg msg w :
  marshalling.parse (default "undefined" rawmsg) = Some msg -> msg <> JNull ->
  _receiveOneMessage rawmsg w =
  if truthy (get msg "seq") then
    match ToString (get msg "seq") with
    | None => Throw TypeError w
    | Some seq =>
        match _pendingRPCReplies w !! seq with
        | None => Return (log (EvWarn "Got reply to unknown seq") w)
        | Some reply =>
            let w := upd_pendingRPCReplies (delete seq) w in
            let w := log (EvForget seq) w in
            if truthy (get msg "err") then
              let err :=
                if truthy (get' (get msg "err") "$isError")
                then ErrorObject (get' (get msg "err") "name")
                                 (get' (get msg "err") "message")
                                 (get' (get msg "err") "stack")
                else value_of (get msg "err") in
              Return (resolveErr reply err (log (EvResolve reply (Err err)) w))
            else
              Return (resolveOk reply (get msg "res")
                        (log (EvResolve reply (Ok (get msg "res"))) w))
        end
    end
  else if truthy (get msg "cancel") then
    match ToString (get msg "cancel") with
    | None => Throw TypeError w
    | Some key =>
        match _invokedHandlers w !! key with
        | Some promise => Return (cancel promise (log (EvCancel key) w))
        | None => Return w
        end
    end
  else if truthy (get msg "err") then
    Return (log (EvError (get msg "err")) w)
  else
    match _bigHandler w with
    | None => Throw (Error "got message before big handler attached!") w
    | Some handler =>
        let '(w, promise) :=
          _invokeHandler handler (get msg "rpcId") (get msg "method") (get msg "args") w in
        match ToString (get msg "req") with
        | None => Throw TypeError w
        | Some req =>
            let w := upd_invokedHandlers (fun m => <[req := promise]> m) w in
            let w := log (EvRegister req) w in
            Return (then_ promise req w)
        end
    end.
Proof.
  intros Hparse Hnull. unfold _receiveOneMessage. rewrite Hparse.
  destruct msg; try congruence; reflexivity.
Qed.

Lemma receive_parsed raw msg w :
  marshalling.parse raw = Some msg -> msg <> JNull ->
  _receiveOneMessage (Some raw) w =
  if truthy (get msg "seq") then
    match ToString (get msg "seq") with
    | None => Throw TypeError w
    | Some seq =>
        match _pendingRPCReplies w !! seq with
        | None => Return (log (EvWarn "Got reply to unknown seq") w)
        | Some reply =>
            let w := upd_pendingRPCReplies (delete seq) w in
            let w := log (EvForget seq) w in
            if truthy (get msg "err") then
              let err :=
                if truthy (get' (get msg "err") "$isError")
                then ErrorObject (get' (get msg "err") "name")
                                 (get' (get msg "err") "message")
                                 (get' (get msg "err") "stack")
                else value_of (get msg "err") in
              Return (resolveErr reply err (log (EvResolve reply (Err err)) w))
            else
              Return (resolveOk reply (get msg "res")
                        (log (EvResolve reply (Ok (get msg "res"))) w))
        end
    end
  else if truthy (get msg "cancel") then
    match ToString (get msg "cancel") with
    | None => Throw TypeError w
    | Some key =>
        match _invokedHandlers w !! key with
        | Some promise => Return (cancel promise (log (EvCancel key) w))
        | None => Return w
        end
    end
  else if truthy (get msg "err") then
    Return (log (EvError (get msg "err")) w)
  else
    match _bigHandler w with
    | None => Throw (Error "got message before big handler attached!") w
    | Some handler =>
        let '(w, promise) :=
          _invokeHandler handler (get msg "rpcId") (get msg "method") (get msg "args") w in
        match ToString (get msg "req") with
        | None => Throw TypeError w
        | Some req =>
            let w := upd_invokedHandlers (fun m => <[req := promise]> m) w in
            let w := log (EvRegister req) w in
            Return (then_ promise req w)
        end
    end.
Proof. apply (receive_parsed_any (Some raw)). Qed.

Lemma classify_not_null msg k :
  classify msg = Some k ->
  msg <> JNull
  /\ k = (if truthy (get msg "seq") then Reply
          else if truthy (get msg "cancel") then Cancel
          else if truthy (get msg "err") then BareError else Request).
Proof.
  intros H. split; [intros ->; discriminate|].
  destruct msg; try discriminate; cbn [classify] in H; congruence.
Qed.

Lemma classify_request msg :
  classify msg = Some Request ->
  msg <> JNull /\ truthy (get msg "seq") = false
  /\ truthy (get msg "cancel") = false /\ truthy (get msg "err") = false.
Proof.
  intros [Hnull H]%classify_not_null. split; [exact Hnull|].
  destruct (truthy (get msg "seq")), (truthy (get msg "cancel")), (truthy (get msg "err"));
    try discriminate; auto.
Qed.

Lemma classify_cancel msg :
  classify msg = Some Cancel ->
  msg <> JNull /\ truthy (get msg "seq") = false /\ truthy (get msg "cancel") = true.
Proof.
  intros [Hnull H]%classify_not_null. split; [exact Hnull|].
  destruct (truthy (get msg "seq")), (truthy (get msg "cancel")), (truthy (get msg "err"));
    try discriminate; auto.
Qed.

(** C6. A reply whose [seq] names no pending call is dropped with a
    warning: the dispatch returns without throwing, and nothing changes but
    the log; in particular the pending calls and the deferred results stay
    as they were. *)
Theorem C6_reply_to_unknown_seq_is_dropped
    (w : World) (raw : string) (msg : json) (seq : string) :
  marshalling.parse raw = Some msg ->
  truthy (get msg "seq") = true ->
  ToString (get msg "seq") = Some seq ->
  _pendingRPCReplies w !! seq = None ->
  exists w',
    _receiveOneMessage (Some raw) w = Return w'
    /\ w' = log (EvWarn "Got reply to unknown seq") w
    /\ _pendingRPCReplies w' = _pendingRPCReplies w
    /\ heap w' = heap w
    /\ _messagesToSend w' = _messagesToSend w
    /\ _invokedHandlers w' = _invokedHandlers w.
Proof.
  intros Hparse Hseq Hkey Hunknown.
  rewrite (receive_parsed raw msg w Hparse (truthy_not_null _ _ Hseq)).
  rewrite Hseq, Hkey, Hunknown.
  eexists. split; [reflexivity|]. repeat split.
Qed.

Lemma C6_reply_to_unknown_seq_is_dropped_witness :
  let msg := JObj [("seq", JStr "7"); ("res", JNum 42)] in
  marshalling.parse scenario_reply_seq7 = Some msg
  /\ truthy (get msg "seq") = true
  /\ ToString (get msg "seq") = Some "7"
  /\ _pendingRPCReplies scenario_called !! "7" = None
  /\ exists w',
    _receiveOneMessage (Some scenario_reply_seq7) scenario_called = Return w'
    /\ w' = log (EvWarn "Got reply to unknown seq") scenario_called
    /\ _pendingRPCReplies w' = _pendingRPCReplies scenario_called
    /\ heap w' = heap scenario_called
    /\ _messagesToSend w' = _messagesToSend scenario_called
    /\ _invokedHandlers w' = _invokedHandlers scenario_called.
Proof.
  intros msg.
  split; [vm_compute; reflexivity|]. split; [reflexivity|]. split; [reflexivity|].
  split; [vm_compute; reflexivity|].
  apply (C6_reply_to_unknown_seq_is_dropped scenario_called scenario_reply_seq7 msg "7").
  - vm_compute; reflexivity.
  - reflexivity.
  - reflexivity.
  - vm_compute; reflexivity.
Defined.

(** C1. The reply text [{seq:1, err:null}] (with its quotes), which is what
    [MessageFactory.replyErr] writes for a failure without detail, is
    delivered to the call with correlation id 1: the test [if (msg.err)]
    takes [null] for no error, and the deferred result is resolved as a
    success with [undefined], not as a failure. *)
Theorem C1_null_error_reply_is_resolved_ok :
  _pendingRPCReplies scenario_called !! "1" = Some 0%nat
  /\ state <$> heap scenario_called !! 0%nat = Some Pending
  /\ exists w',
       _receiveOneMessage (Some scenario_reply_null_err) scenario_called = Return w'
       /\ state <$> heap w' !! 0%nat = Some (ResolvedOk None)
       /\ state <$> heap w' !! 0%nat <> Some (ResolvedError (Data JNull))
       /\ trace w' = trace scenario_called ++ [EvForget "1"; EvResolve 0 (Ok None)].
Proof.
  split; [vm_compute; reflexivity|]. split; [vm_compute; reflexivity|].
  eexists. split; [vm_compute; reflexivity|].
  split; [reflexivity|]. split; [discriminate | reflexivity].
Qed.

(** ** What code running on the manager's stack leaves alone *)

Lemma grows_refl w : grows w w.
Proof. split; [exists []; now rewrite app_nil_r | eauto]. Qed.

Lemma grows_trans w1 w2 w3 : grows w1 w2 -> grows w2 w3 -> grows w1 w3.
Proof.
  intros [[m1 H1] K1] [[m2 H2] K2]. split.
  - exists (m1 ++ m2). now rewrite H2, H1, app_assoc.
  - intros l d Hd. destruct (K1 l d Hd) as (d' & Hd' & Hs & Hc).
    destruct (K2 l d' Hd') as (d'' & Hd'' & Hs' & Hc').
    exists d''. repeat split; congruence.
Qed.

Lemma grows_send msg w : grows w (RPCMultiplexer.send msg w).
Proof.
  destruct (send_fields msg w) as (_ & Ht & _ & _ & _ & Hh & _). split.
  - eauto.
  - rewrite Hh. eauto.
Qed.

Lemma grows_heap_insert w l d d' :
  heap w !! l = Some d -> state d' = state d -> onCancel d' = onCancel d ->
  grows w (upd_heap (fun h => <[l := d']> h) w).
Proof.
  intros Hd Hs Hc. split; [exists []; fields; now rewrite app_nil_r|].
  intros l0 d0 Hd0. fields. destruct (decide (l0 = l)) as [->|Hne].
  - exists d'. rewrite list_lookup_insert_eq by (eapply lookup_lt_Some; eauto).
    repeat split; congruence.
  - exists d0. rewrite list_lookup_insert_ne by congruence. auto.
Qed.

Lemma grows_cancel l w : grows w (lazyPromise.cancel l w).
Proof.
  unfold lazyPromise.cancel.
  destruct (heap w !! l) as [d|] eqn:Hd; [|apply grows_refl].
  destruct (state d) eqn:Hs; try apply grows_refl.
  destruct (cancelRequested d); [apply grows_refl|].
  eapply grows_trans; [apply grows_send|].
  apply grows_heap_insert with (d := d); [|cbn; congruence..].
  destruct (send_fields (MessageFactory.cancel (onCancel d)) w) as (_ & _ & _ & _ & _ & -> & _).
  exact Hd.
Qed.

Lemma grows_attach l k w : grows w (lazyPromise.then_ (fun _ w => w) l k w).
Proof.
  unfold lazyPromise.then_.
  destruct (heap w !! l) as [d|] eqn:Hd; [|apply grows_refl].
  destruct (state d) eqn:Hs; try apply grows_refl.
  apply grows_heap_insert with (d := d); [exact Hd | now rewrite Hs | reflexivity].
Qed.

Lemma grows_callOnRemote proxyId path args w :
  grows w (fst (callOnRemote proxyId path args w)).
Proof.
  unfold callOnRemote. cbn [fst].
  eapply grows_trans; [|apply grows_send].
  split; [exists []; fields; now rewrite app_nil_r|].
  intros l d Hd. fields. exists d. rewrite lookup_app_l by (eapply lookup_lt_Some; eauto). auto.
Qed.

Lemma grows_foldl {A} (f : World -> A -> World) (l : list A) w :
  (forall w a, grows w (f w a)) -> grows w (foldl f w l).
Proof.
  intros Hf. revert w. induction l as [|a l IH]; intros w; [apply grows_refl|].
  cbn [foldl]. eapply grows_trans; [apply Hf | apply IH].
Qed.

Lemma grows_reenter1 w r : grows w (reenter1 w r).
Proof.
  destruct r as [proxyId path args ks|handler|l]; cbn [reenter1].
  - pose proof (grows_callOnRemote proxyId path args w) as H.
    destruct (callOnRemote proxyId path args w) as [w1 result]. cbn [fst] in H.
    eapply grows_trans; [exact H|].
    apply grows_foldl. intros; apply grows_attach.
  - unfold setManyHandler. split; [exists []; fields; now rewrite app_nil_r | fields; eauto].
  - apply grows_cancel.
Qed.

Lemma grows_reenter script w : grows w (reenter script w).
Proof. unfold reenter. apply grows_foldl, grows_reenter1. Qed.

(** A pending deferred result, once resolved, is in the terminal state of
    the outcome, whatever its continuations do. *)
Lemma resolve_pending l o w d :
  heap w !! l = Some d -> state d = Pending ->
  (exists more, trace (lazyPromise.resolve reenter l o w) = trace w ++ more)
  /\ state <$> heap (lazyPromise.resolve reenter l o w) !! l = Some (terminal o).
Proof.
  intros Hd Hs. unfold lazyPromise.resolve. rewrite Hd, Hs.
  set (d' := mkLazyPromise _ _ _ _).
  set (w1 := upd_heap _ w).
  assert (H1 : heap w1 !! l = Some d').
  { subst w1. fields. apply list_lookup_insert_eq. eapply lookup_lt_Some; eauto. }
  assert (G : grows w1 (foldl (fun w k => reenter (k o) w) w1 (continuations d))).
  { apply grows_foldl. intros; apply grows_reenter. }
  destruct G as [[more Hmore] G]. split.
  - exists more. rewrite Hmore. reflexivity.
  - destruct (G l d' H1) as (d'' & -> & Hs'' & _).
    cbn. rewrite Hs''. subst d'. cbn. now destruct o.
Qed.

(** A reply for a pending call: the entry is deleted, then the deferred
    result is resolved with the outcome the message carries. *)
Lemma receive_reply raw msg w seq reply :
  marshalling.parse raw = Some msg ->
  truthy (get msg "seq") = true ->
  ToString (get msg "seq") = Some seq ->
  _pendingRPCReplies w !! seq = Some reply ->
  _receiveOneMessage (Some raw) w =
  Return (lazyPromise.resolve reenter reply (reply_outcome msg)
            (log (EvResolve reply (reply_outcome msg))
               (log (EvForget seq) (upd_pendingRPCReplies (delete seq) w)))).
Proof.
  intros Hparse Hseq Hkey Hreply.
  rewrite (receive_parsed raw msg w Hparse (truthy_not_null _ _ Hseq)).
  rewrite Hseq, Hkey, Hreply. cbn zeta. unfold reply_outcome, resolveErr, resolveOk.
  destruct (truthy (get msg "err")); reflexivity.
Qed.

(** ** The request codec *)

Lemma request_is_stringify req rpcId method args :
  plain req = true -> plain rpcId = true -> plain method = true ->
  MessageFactory.request req rpcId method args =
  marshalling.stringify
    (JObj [("req", JStr req); ("rpcId", JStr rpcId); ("method", JStr method);
           ("args", JArr args)]).
Proof.
  intros Hreq Hrpc Hmethod.
  rewrite stringify_obj. unfold MessageFactory.request.
  cbn [map join]. unfold member_text. cbn [fst snd marshalling.stringify].
  rewrite (quote_plain req Hreq), (quote_plain rpcId Hrpc), (quote_plain method Hmethod).
  rewrite (quote_plain "req" eq_refl), (quote_plain "rpcId" eq_refl),
    (quote_plain "method" eq_refl), (quote_plain "args" eq_refl).
  repeat (rewrite ?append_assoc; cbn [String.append]).
  reflexivity.
Qed.

Lemma request_round_trip_plain req rpcId method args :
  plain req = true -> plain rpcId = true -> plain method = true ->
  decodes_as_request (MessageFactory.request req rpcId method args) req rpcId method args.
Proof.
  intros Hreq Hrpc Hmethod.
  rewrite (request_is_stringify _ _ _ _ Hreq Hrpc Hmethod).
  eexists. split; [apply parse_stringify|]. repeat split; reflexivity.
Qed.

Lemma plain_uint d : plain (NilEmpty.string_of_uint d) = true.
Proof. induction d; cbn; auto. Qed.

(** The ids that [callOnRemote] makes need no escaping. *)
Lemma Number_toString_plain z : plain (Number_toString z) = true.
Proof.
  unfold Number_toString, dec. destruct (z <? 0); [cbn [plain]|]; now rewrite plain_uint.
Qed.

(** C2, as the code has it. The request template writes the id, the
    capability id and the method name between quotes as they are. For the
    id of any call (a number in decimal), every capability id and every
    method name that contain no double quote, no backslash and no
    character below the space, and every argument list, the text decodes to
    a message that is sorted as a request and has the same four fields. *)
Theorem C2_request_round_trip (n : Z) (rpcId method : string) (args : list json) :
  plain rpcId = true -> plain method = true ->
  decodes_as_request (MessageFactory.request (Number_toString n) rpcId method args)
    (Number_toString n) rpcId method args.
Proof.
  intros Hrpc Hmethod.
  apply request_round_trip_plain; [apply Number_toString_plain | assumption..].
Qed.

Lemma C2_request_round_trip_witness :
  plain "svc.foo" = true /\ plain "bar" = true
  /\ decodes_as_request scenario_request "1" "svc.foo" "bar" [JNum 1; JNum 2].
Proof.
  repeat (split; [reflexivity|]).
  apply (C2_request_round_trip 1 "svc.foo" "bar" [JNum 1; JNum 2]); reflexivity.
Defined.

(** C2 as stated fails: a method name that is one double quote gives a text
    that does not parse at all. *)
Lemma C2_quote_in_method_does_not_round_trip :
  ~ decodes_as_request
      (MessageFactory.request "1" "svc.foo" (String dq EmptyString) [])
      "1" "svc.foo" (String dq EmptyString) [].
Proof.
  intros (msg & Hparse & _). vm_compute in Hparse. discriminate.
Qed.

(** ** Inbound invocations *)

Lemma untouched_refl w : untouched w w.
Proof. repeat split. Qed.

Lemma untouched_trans w1 w2 w3 : untouched w1 w2 -> untouched w2 w3 -> untouched w1 w3.
Proof. unfold untouched. intuition congruence. Qed.

Lemma untouched_send msg w : untouched w (RPCMultiplexer.send msg w).
Proof.
  destruct (send_fields msg w) as (_ & _ & _ & H1 & H2 & _ & _ & H3 & _ & _ & H4).
  repeat split; assumption.
Qed.

Lemma untouched_cancel l w : untouched w (lazyPromise.cancel l w).
Proof.
  unfold lazyPromise.cancel.
  destruct (heap w !! l) as [d|]; [|apply untouched_refl].
  destruct (state d); try apply untouched_refl.
  destruct (cancelRequested d); [apply untouched_refl|].
  eapply untouched_trans; [apply untouched_send | repeat split].
Qed.

Lemma untouched_attach l k w : untouched w (lazyPromise.then_ (fun _ w => w) l k w).
Proof.
  unfold lazyPromise.then_.
  destruct (heap w !! l) as [d|]; [|apply untouched_refl].
  destruct (state d); try apply untouched_refl. repeat split.
Qed.

Lemma untouched_callOnRemote proxyId path args w :
  untouched w (fst (callOnRemote proxyId path args w)).
Proof.
  unfold callOnRemote. cbn [fst].
  eapply untouched_trans; [|apply untouched_send]. repeat split.
Qed.

Lemma untouched_foldl {A} (f : World -> A -> World) (l : list A) w :
  (forall w a, untouched w (f w a)) -> untouched w (foldl f w l).
Proof.
  intros Hf. revert w. induction l as [|a l IH]; intros w; [apply untouched_refl|].
  cbn [foldl]. eapply untouched_trans; [apply Hf | apply IH].
Qed.

Lemma untouched_reenter1 w r : untouched w (reenter1 w r).
Proof.
  destruct r as [proxyId path args ks|handler|l]; cbn [reenter1].
  - pose proof (untouched_callOnRemote proxyId path args w) as H.
    destruct (callOnRemote proxyId path args w) as [w1 result]. cbn [fst] in H.
    eapply untouched_trans; [exact H|].
    apply untouched_foldl. intros; apply untouched_attach.
  - repeat split.
  - apply untouched_cancel.
Qed.

Lemma untouched_reenter script w : untouched w (reenter script w).
Proof. unfold reenter. apply untouched_foldl, untouched_reenter1. Qed.

Lemma completed_fields req o w :
  trace (completed req o w)
    = trace w ++ [EvDeregister req; EvSend (reply_text req o)]
  /\ _invokedHandlers (completed req o w) = delete req (_invokedHandlers w)
  /\ promises (completed req o w) = promises w.
Proof.
  unfold completed.
  destruct o as [r|err]; cbn zeta;
    match goal with |- context [RPCMultiplexer.send ?m ?w0] =>
      destruct (send_fields m w0) as (_ & -> & _ & _ & _ & _ & _ & -> & _ & _ & ->)
    end; fields; rewrite <- app_assoc; repeat split.
Qed.

Lemma promise_of_insert p hp w :
  promise_of (upd_promises (fun m => <[p := hp]> m) w) p = hp.
Proof. unfold promise_of. fields. now rewrite lookup_insert_eq. Qed.

(** ** Correlation ids *)

Lemma Inv_core w w' : core w' = core w -> Inv w -> Inv w'.
Proof.
  unfold core. intros [= H1 H2 H3 H4] [I1 I2 I3 I4].
  split; rewrite ?H1, ?H2, ?H3, ?H4; assumption.
Qed.

Lemma Inv_create : Inv create.
Proof.
  split; cbn.
  - lia.
  - intros k l H. now rewrite lookup_empty in H.
  - intros l H. inversion H.
  - constructor.
Qed.

Lemma resolved_snoc t e :
  resolved (t ++ [e]) = resolved t ++ match e with EvResolve l _ => [l] | _ => [] end.
Proof. unfold resolved. rewrite omap_app. cbn. now destruct e. Qed.

Lemma dispatched_snoc t e :
  dispatched (t ++ [e])
  = dispatched t ++ match e with EvDispatch n rawmsg => [(n, rawmsg)] | _ => [] end.
Proof. unfold dispatched. rewrite omap_app. cbn. now destruct e. Qed.

Lemma core_send msg w : core (RPCMultiplexer.send msg w) = core w.
Proof.
  unfold core. destruct (send_fields msg w) as (_ & -> & _ & _ & _ & -> & -> & _ & _ & -> & _).
  now rewrite resolved_snoc, app_nil_r.
Qed.

Lemma core_heap_insert w l d d' :
  heap w !! l = Some d -> onCancel d' = onCancel d ->
  core (upd_heap (fun h => <[l := d']> h) w) = core w.
Proof.
  intros Hd Hc. unfold core. fields. rewrite list_fmap_insert, Hc.
  rewrite list_insert_id; [reflexivity|]. now rewrite list_lookup_fmap, Hd.
Qed.

Lemma core_cancel l w : core (lazyPromise.cancel l w) = core w.
Proof.
  unfold lazyPromise.cancel.
  destruct (heap w !! l) as [d|] eqn:Hd; [|reflexivity].
  destruct (state d); try reflexivity.
  destruct (cancelRequested d); [reflexivity|].
  rewrite <- (core_send (MessageFactory.cancel (onCancel d)) w).
  apply core_heap_insert with (d := d); [|reflexivity].
  now destruct (send_fields (MessageFactory.cancel (onCancel d)) w)
    as (_ & _ & _ & _ & _ & -> & _).
Qed.

Lemma core_attach l k w : core (lazyPromise.then_ (fun _ w => w) l k w) = core w.
Proof.
  unfold lazyPromise.then_.
  destruct (heap w !! l) as [d|] eqn:Hd; [|reflexivity].
  destruct (state d); try reflexivity.
  now apply core_heap_insert with (d := d).
Qed.

Lemma core_foldl {A} (f : World -> A -> World) (l : list A) w :
  (forall w a, core (f w a) = core w) -> core (foldl f w l) = core w.
Proof.
  intros Hf. revert w. induction l as [|a l IH]; intros w; [reflexivity|].
  cbn [foldl]. now rewrite IH, Hf.
Qed.

Lemma core_callOnRemote proxyId path args w :
  _lastMessageId (fst (callOnRemote proxyId path args w)) = increment (_lastMessageId w)
  /\ _pendingRPCReplies (fst (callOnRemote proxyId path args w))
     = <[next_id w := length (heap w)]> (_pendingRPCReplies w)
  /\ heap (fst (callOnRemote proxyId path args w))
     = heap w ++ [lazyPromise.create (next_id w)]
  /\ resolved (trace (fst (callOnRemote proxyId path args w))) = resolved (trace w)
  /\ snd (callOnRemote proxyId path args w) = length (heap w).
Proof.
  unfold callOnRemote. cbn [fst snd].
  match goal with |- context [RPCMultiplexer.send ?m ?w0] =>
    destruct (send_fields m w0) as (_ & -> & _ & _ & _ & -> & -> & _ & _ & -> & _) end.
  fields. rewrite resolved_snoc, app_nil_r. repeat split.
Qed.

Lemma increment_range n : 0 <= n <= 2 ^ 53 -> 1 <= increment n <= 2 ^ 53 /\ n <= increment n.
Proof. unfold increment. destruct (Z.ltb_spec n (2 ^ 53)); lia. Qed.

Lemma Inv_callOnRemote proxyId path args w :
  Inv w -> Inv (fst (callOnRemote proxyId path args w)).
Proof.
  intros [I1 I2 I3 I4].
  destruct (core_callOnRemote proxyId path args w) as (H1 & H2 & H3 & H4 & _).
  destruct (increment_range _ I1) as [Hr Hle].
  split; rewrite ?H1, ?H2, ?H3, ?H4, ?fmap_app; cbn [fmap list_fmap onCancel lazyPromise.create].
  - lia.
  - intros k l Hk. destruct (decide (k = next_id w)) as [->|Hne].
    + rewrite lookup_insert_eq in Hk. injection Hk as <-. split; [|split].
      * exists (increment (_lastMessageId w)). split; [lia | reflexivity].
      * rewrite lookup_app_r by (rewrite length_fmap; lia).
        now rewrite length_fmap, Nat.sub_diag.
      * intros Hin. apply I3 in Hin. rewrite length_fmap in Hin. lia.
    + rewrite lookup_insert_ne in Hk by congruence.
      destruct (I2 k l Hk) as ((n & Hn & ->) & Hl & Hres). split; [|split].
      * exists n. split; [lia | reflexivity].
      * rewrite lookup_app_l; [exact Hl | eapply lookup_lt_Some; eauto].
      * exact Hres.
  - intros l Hl. apply I3 in Hl. rewrite length_app. lia.
  - exact I4.
Qed.

Lemma Inv_reenter1 w r : Inv w -> Inv (reenter1 w r).
Proof.
  intros HI. destruct r as [proxyId path args ks|handler|l]; cbn [reenter1].
  - pose proof (Inv_callOnRemote proxyId path args w HI) as H.
    destruct (callOnRemote proxyId path args w) as [w1 result]. cbn [fst] in H.
    eapply Inv_core; [|exact H]. apply core_foldl. intros; apply core_attach.
  - eapply Inv_core; [|exact HI]. reflexivity.
  - eapply Inv_core; [|exact HI]. apply core_cancel.
Qed.

Lemma Inv_foldl {A} (f : World -> A -> World) (l : list A) w :
  (forall w a, Inv w -> Inv (f w a)) -> Inv w -> Inv (foldl f w l).
Proof.
  intros Hf. revert w. induction l as [|a l IH]; intros w HI; [exact HI|].
  cbn [foldl]. apply IH, Hf, HI.
Qed.

Lemma Inv_reenter script w : Inv w -> Inv (reenter script w).
Proof. unfold reenter. apply Inv_foldl. intros; now apply Inv_reenter1. Qed.

Lemma Inv_resolve l o w : Inv w -> Inv (lazyPromise.resolve reenter l o w).
Proof.
  intros HI. unfold lazyPromise.resolve.
  destruct (heap w !! l) as [d|] eqn:Hd; [|exact HI].
  destruct (state d); try exact HI.
  apply Inv_foldl; [intros; now apply Inv_reenter|].
  eapply Inv_core; [|exact HI]. now apply core_heap_insert with (d := d).
Qed.

Lemma Inv_then l k w : Inv w -> Inv (lazyPromise.then_ reenter l k w).
Proof.
  intros HI. unfold lazyPromise.then_.
  destruct (heap w !! l) as [d|] eqn:Hd; [|exact HI].
  destruct (state d); try (now apply Inv_reenter).
  eapply Inv_core; [|exact HI]. now apply core_heap_insert with (d := d).
Qed.

Lemma core_completed req o w : core (completed req o w) = core w.
Proof.
  unfold completed. destruct o; cbn zeta; rewrite core_send; unfold core; fields;
    now rewrite resolved_snoc, app_nil_r.
Qed.

Lemma core_settle p o w : core (settle p o w) = core w.
Proof.
  unfold settle. destruct (settled (promise_of w p)); [reflexivity|].
  rewrite core_foldl by (intros; apply core_completed). reflexivity.
Qed.

Lemma core_promise_then promise req w : core (then_ promise req w) = core w.
Proof.
  destruct promise as [v|e|p]; cbn [then_]; try apply core_completed.
  destruct (settled (promise_of w p)); [apply core_completed | reflexivity].
Qed.

Lemma core_promise_cancel promise w : core (cancel promise w) = core w.
Proof.
  destruct promise as [v|e|p]; try reflexivity. cbn [cancel].
  destruct (whenCancelled p); [rewrite core_settle|]; reflexivity.
Qed.

Lemma Inv_log e w :
  (forall l o, e <> EvResolve l o) -> Inv w -> Inv (log e w).
Proof.
  intros He. apply Inv_core. unfold core. fields. rewrite resolved_snoc.
  destruct e; try (now rewrite app_nil_r). now destruct (He l o).
Qed.

(** The state in which the reply path resolves: the entry is gone and the
    resolution is on record. *)
Lemma Inv_forget w seq reply o :
  Inv w -> _pendingRPCReplies w !! seq = Some reply ->
  Inv (log (EvResolve reply o) (log (EvForget seq) (upd_pendingRPCReplies (delete seq) w))).
Proof.
  intros [I1 I2 I3 I4] Hreply. destruct (I2 seq reply Hreply) as (_ & Hid & Hfresh).
  split; fields; rewrite ?resolved_snoc, ?app_nil_r.
  - exact I1.
  - intros k l Hk. apply lookup_delete_Some in Hk as [Hne Hk].
    destruct (I2 k l Hk) as (Hn & Hl & Hres). split; [exact Hn|]. split; [exact Hl|].
    rewrite elem_of_app, list_elem_of_singleton. intros [Hin| ->]; [contradiction|].
    congruence.
  - intros l [Hin| ->%list_elem_of_singleton]%elem_of_app; [now apply I3|].
    eapply lookup_lt_Some; eauto.
  - apply NoDup_app. split; [exact I4|]. split; [|apply NoDup_singleton].
    intros l Hin ->%list_elem_of_singleton. contradiction.
Qed.

Lemma Inv_receiveOneMessage rawmsg w :
  Inv w -> Inv (world_of (_receiveOneMessage rawmsg w)).
Proof.
  intros HI.
  destruct (marshalling.parse (default "undefined" rawmsg)) as [msg|] eqn:Hparse;
    [|unfold _receiveOneMessage; now rewrite Hparse].
  assert (Hcases : msg = JNull \/ msg <> JNull) by (destruct msg; auto; right; discriminate).
  destruct Hcases as [->|Hnull]; [unfold _receiveOneMessage; now rewrite Hparse|].
  rewrite (receive_parsed_any rawmsg msg w Hparse Hnull).
  destruct (truthy (get msg "seq")).
  { destruct (ToString (get msg "seq")) as [seq|]; [|exact HI].
    destruct (_pendingRPCReplies w !! seq) as [reply|] eqn:Hreply.
    - cbn zeta. destruct (truthy (get msg "err")); cbn [world_of];
        apply Inv_resolve; now apply Inv_forget.
    - cbn [world_of]. now apply Inv_log. }
  destruct (truthy (get msg "cancel")).
  { destruct (ToString (get msg "cancel")) as [key|]; [|exact HI].
    destruct (_invokedHandlers w !! key); cbn [world_of]; [|exact HI].
    eapply Inv_core; [apply core_promise_cancel|]. now apply Inv_log. }
  destruct (truthy (get msg "err")); [cbn [world_of]; now apply Inv_log|].
  destruct (_bigHandler w) as [handler|]; [|exact HI].
  unfold _invokeHandler.
  destruct (handler _ _ _) as [script result]. cbn zeta.
  assert (HI1 : Inv (reenter script
                 (log (EvInvoke (get msg "rpcId") (get msg "method") (get msg "args")) w)))
    by (apply Inv_reenter; now apply Inv_log).
  destruct result; (destruct (ToString (get msg "req")) as [req|]; [|exact HI1]);
    cbn [world_of];
    (eapply Inv_core; [apply core_promise_then|]); apply Inv_log; try discriminate;
    (eapply Inv_core; [|exact HI1]); reflexivity.
Qed.

Lemma Inv_tick w : Inv w -> Inv (tick w).
Proof.
  intros HI. unfold tick. destruct (nextTickQueue w) as [|callback queue]; [exact HI|].
  cbn zeta.
  set (w1 := log _ _).
  assert (HI1 : Inv w1).
  { subst w1. apply Inv_log; [discriminate|]. eapply Inv_core; [|exact HI]. reflexivity. }
  destruct callback; cbn [runTask].
  - unfold RPCMultiplexer._receiveOneMessage. cbn zeta.
    set (w2 := log _ _).
    assert (HI2 : Inv w2).
    { subst w2. apply Inv_log; [discriminate|].
      match goal with |- Inv (if ?b then _ else _) => destruct b end;
        (eapply Inv_core; [|exact HI1]); reflexivity. }
    pose proof (Inv_receiveOneMessage
                  (head (_messagesToReceive w1)) w2 HI2) as H.
    destruct (_receiveOneMessage _ w2); cbn [world_of] in H; [exact H|].
    now apply Inv_log.
  - unfold RPCMultiplexer._sendAccumulated. cbn zeta. apply Inv_log; [discriminate|].
    eapply Inv_core; [|exact HI1]. reflexivity.
Qed.

Lemma Inv_step w a : Inv w -> Inv (step w a).
Proof.
  intros HI. destruct a as [data| |r|l k|p o]; cbn [step].
  - unfold RPCMultiplexer.onMessage.
    match goal with |- context [if ?b then _ else _] => destruct b end;
      (eapply Inv_core; [|exact HI]); reflexivity.
  - now apply Inv_tick.
  - now apply Inv_reenter1.
  - now apply Inv_then.
  - eapply Inv_core; [apply core_settle | exact HI].
Qed.

Lemma Inv_run acts w : Inv w -> Inv (run acts w).
Proof. unfold run. apply Inv_foldl. intros; now apply Inv_step. Qed.

Lemma Inv_reachable w : reachable w -> Inv w.
Proof. intros [acts ->]. apply Inv_run, Inv_create. Qed.

Lemma dec_inj a b : dec a = dec b -> a = b.
Proof.
  unfold dec. intros H. apply DecimalN.Unsigned.to_uint_inj.
  apply (f_equal NilEmpty.uint_of_string) in H. rewrite !NilEmpty.usu in H. congruence.
Qed.

Lemma Number_toString_inj a b :
  0 <= a -> 0 <= b -> Number_toString a = Number_toString b -> a = b.
Proof.
  intros Ha Hb. unfold Number_toString.
  destruct (Z.ltb_spec a 0), (Z.ltb_spec b 0); try lia.
  intros Heq%dec_inj. lia.
Qed.

(** A call in a state that satisfies the invariant gets an id that no
    pending call has, unless the counter stands at 2^53. *)
Lemma next_id_fresh w :
  Inv w -> _lastMessageId w < 2 ^ 53 -> _pendingRPCReplies w !! next_id w = None.
Proof.
  intros [I1 I2 _ _] Hlt.
  destruct (_pendingRPCReplies w !! next_id w) as [l|] eqn:Hl; [|reflexivity].
  destruct (I2 _ _ Hl) as ((n & Hn & Heq) & _). unfold next_id, increment in Heq.
  destruct (Z.ltb_spec (_lastMessageId w) (2 ^ 53)); [|lia].
  apply Number_toString_inj in Heq; lia.
Qed.

Lemma issue_cons proxyId path args rest w :
  issue ((proxyId, path, args) :: rest) w
  = (next_id w, bool_decide (is_Some (_pendingRPCReplies w !! next_id w)))
    :: issue rest (fst (callOnRemote proxyId path args w)).
Proof.
  cbn [issue].
  destruct (core_callOnRemote proxyId path args w) as (_ & _ & Hheap & _ & Hres).
  destruct (callOnRemote proxyId path args w) as [w' result]. cbn [fst snd] in *.
  rewrite Hheap, Hres, list_lookup_middle by reflexivity. reflexivity.
Qed.

Lemma issue_below_limit calls w :
  Inv w ->
  _lastMessageId w + Z.of_nat (length calls) <= 2 ^ 53 ->
  issue calls w
  = (fun n => (Number_toString n, false))
      <$> seqZ (_lastMessageId w + 1) (Z.of_nat (length calls)).
Proof.
  revert w. induction calls as [|[[proxyId path] args] rest IH]; intros w HI Hlimit;
    [reflexivity|].
  rewrite issue_cons. cbn [length] in Hlimit.
  pose proof (inv_counter w HI) as Hc.
  rewrite seqZ_cons by (cbn [length]; lia). cbn [fmap list_fmap].
  assert (Hnext : next_id w = Number_toString (_lastMessageId w + 1)).
  { unfold next_id, increment. destruct (Z.ltb_spec (_lastMessageId w) (2 ^ 53)); [reflexivity|lia]. }
  rewrite next_id_fresh by (assumption || lia). rewrite Hnext.
  rewrite bool_decide_eq_false_2 by (intros [? ?]; discriminate).
  f_equal.
  destruct (core_callOnRemote proxyId path args w) as (Hlast & _).
  rewrite IH.
  - rewrite Hlast. unfold increment.
    destruct (Z.ltb_spec (_lastMessageId w) (2 ^ 53)); [|lia].
    f_equal. f_equal; cbn [length]; lia.
  - now apply Inv_callOnRemote.
  - rewrite Hlast. unfold increment.
    destruct (Z.ltb_spec (_lastMessageId w) (2 ^ 53)); lia.
Qed.

(** C3, as the code has it. The counter is a number: up to 2^53 each
    increment is exact. On every manager that can arise, a row of N calls
    that ends with the counter at 2^53 at most is given the ids last+1,
    last+2, ..., last+N in decimal: increasing as numbers, pairwise
    distinct as texts, and none of them the id of a call that is pending
    when it is given out. *)
Theorem C3_sequential_ids_increase (w : World) (calls : list (string * string * list json)) :
  reachable w ->
  _lastMessageId w + Z.of_nat (length calls) <= 2 ^ 53 ->
  (issue calls w).*1
    = Number_toString <$> seqZ (_lastMessageId w + 1) (Z.of_nat (length calls))
  /\ NoDup (issue calls w).*1
  /\ Forall (fun x => x.2 = false) (issue calls w).
Proof.
  intros HI%Inv_reachable Hlimit.
  pose proof (inv_counter w HI) as Hc.
  rewrite (issue_below_limit calls w HI Hlimit).
  rewrite <- list_fmap_compose.
  split; [reflexivity|]. split.
  - apply NoDup_fmap_2_strong; [|apply NoDup_seqZ].
    intros a b [Ha _]%elem_of_seqZ [Hb _]%elem_of_seqZ Heq. cbn in Heq.
    apply Number_toString_inj in Heq; lia.
  - apply Forall_fmap, Forall_forall. reflexivity.
Qed.

Lemma reachable_create : reachable create.
Proof. now exists []. Qed.

Lemma C3_sequential_ids_increase_witness :
  let calls := [("svc.foo", "bar", [JNum 1; JNum 2]); ("svc.foo", "baz", [])] in
  reachable create
  /\ _lastMessageId create + Z.of_nat (length calls) <= 2 ^ 53
  /\ (issue calls create).*1 = Number_toString <$> seqZ (_lastMessageId create + 1) 2
  /\ NoDup (issue calls create).*1
  /\ Forall (fun x => x.2 = false) (issue calls create).
Proof.
  intros calls.
  assert (Hlimit : _lastMessageId create + Z.of_nat (length calls) <= 2 ^ 53)
    by (vm_compute; discriminate).
  split; [exists []; reflexivity|]. split; [exact Hlimit|].
  apply (C3_sequential_ids_increase create calls); [exists []; reflexivity | exact Hlimit].
Defined.

Lemma after_calls_succ n :
  after_calls (N.succ n) = fst (callOnRemote "svc.foo" "bar" [] (after_calls n)).
Proof. unfold after_calls. apply N.iter_succ. Qed.

Lemma Inv_after_calls n : Inv (after_calls n).
Proof.
  induction n as [|n IH] using N.peano_ind; [apply Inv_create|].
  rewrite after_calls_succ. now apply Inv_callOnRemote.
Qed.

Lemma after_calls_counter n :
  _lastMessageId (after_calls n) = Z.min (Z.of_N n) (2 ^ 53).
Proof.
  induction n as [|n IH] using N.peano_ind; [reflexivity|].
  rewrite after_calls_succ.
  destruct (core_callOnRemote "svc.foo" "bar" [] (after_calls n)) as (-> & _).
  rewrite IH. unfold increment. destruct (Z.ltb_spec (Z.min (Z.of_N n) (2 ^ 53)) (2 ^ 53)); lia.
Qed.

(** The id of the latest call is pending. *)
Lemma after_calls_latest_pending n :
  is_Some (_pendingRPCReplies (after_calls (N.succ n))
             !! Number_toString (_lastMessageId (after_calls (N.succ n)))).
Proof.
  rewrite after_calls_succ.
  destruct (core_callOnRemote "svc.foo" "bar" [] (after_calls n)) as (-> & -> & _).
  unfold next_id. rewrite lookup_insert_eq. eauto.
Qed.

(** C3 as stated fails for N = 2^53 + 1: on a new manager the call after
    2^53 - 1 calls and the call after one more are given the same id, and
    the call that was given it first is still pending then. *)
Lemma C3_ids_repeat_at_the_limit :
  issued_after (2 ^ 53 - 1) = [(limit_id, false)]
  /\ issued_after (N.succ (2 ^ 53 - 1)) = [(limit_id, true)].
Proof.
  assert (Hfree : _pendingRPCReplies (after_calls (2 ^ 53 - 1)) !! limit_id = None).
  { destruct (_pendingRPCReplies (after_calls (2 ^ 53 - 1)) !! limit_id) as [l|] eqn:Hl;
      [exfalso|reflexivity].
    destruct (inv_pending _ (Inv_after_calls _) _ _ Hl) as ((n & Hn & Heq) & _).
    rewrite after_calls_counter in Hn.
    change (Z.min (Z.of_N (2 ^ 53 - 1)) (2 ^ 53)) with 9007199254740991 in Hn.
    change limit_id with (Number_toString 9007199254740992) in Heq.
    apply Number_toString_inj in Heq; lia. }
  assert (Htaken : is_Some (_pendingRPCReplies (after_calls (N.succ (2 ^ 53 - 1)))
                              !! limit_id)).
  { pose proof (after_calls_latest_pending (2 ^ 53 - 1)) as H.
    rewrite after_calls_counter in H.
    change (Number_toString (Z.min (Z.of_N (N.succ (2 ^ 53 - 1))) (2 ^ 53)))
      with limit_id in H.
    exact H. }
  split; unfold issued_after; rewrite issue_cons; cbn [issue]; unfold next_id;
    rewrite after_calls_counter.
  - change (Number_toString (increment (Z.min (Z.of_N (2 ^ 53 - 1)) (2 ^ 53))))
      with limit_id.
    rewrite Hfree. rewrite bool_decide_eq_false_2 by (intros [? ?]; discriminate).
    reflexivity.
  - change (Number_toString (increment (Z.min (Z.of_N (N.succ (2 ^ 53 - 1))) (2 ^ 53))))
      with limit_id.
    rewrite (bool_decide_eq_true_2 _ Htaken). reflexivity.
Qed.

(** ** Replies *)

Lemma adds_ids_refl w : adds_ids w w.
Proof.
  split; [lia|]. split; [auto|]. exists []. now rewrite app_nil_r.
Qed.

Lemma adds_ids_trans w1 w2 w3 : adds_ids w1 w2 -> adds_ids w2 w3 -> adds_ids w1 w3.
Proof.
  intros (H1 & K1 & m1 & T1 & R1) (H2 & K2 & m2 & T2 & R2). split; [lia|]. split.
  - intros k l Hk. destruct (K2 k l Hk) as [Hk2|(n & -> & Hn & Hnew)].
    + destruct (K1 k l Hk2) as [Hk1|(n & -> & Hn & Hnew)]; [now left|].
      right. exists n. split; [reflexivity|]. lia.
    + right. exists n. split; [reflexivity|]. lia.
  - exists (m1 ++ m2). rewrite T2, T1, app_assoc. split; [reflexivity|].
    unfold resolved in *. now rewrite omap_app, R1, R2.
Qed.

Lemma resolved_more t more : resolved (t ++ more) = resolved t -> resolved more = [].
Proof.
  unfold resolved. rewrite omap_app. intros H.
  eapply app_inv_head. rewrite H. now rewrite app_nil_r.
Qed.

Lemma adds_ids_core w w' :
  core w' = core w -> (exists more, trace w' = trace w ++ more) -> adds_ids w w'.
Proof.
  unfold core. intros [= H1 H2 _ H4] [more Hmore].
  split; [lia|]. split; [rewrite H2; auto|].
  exists more. split; [exact Hmore|]. rewrite Hmore in H4. now apply resolved_more in H4.
Qed.

Lemma adds_ids_callOnRemote proxyId path args w :
  adds_ids w (fst (callOnRemote proxyId path args w)).
Proof.
  destruct (core_callOnRemote proxyId path args w) as (H1 & H2 & _ & H4 & _).
  destruct (grows_callOnRemote proxyId path args w) as [[more Hmore] _].
  split; [|split].
  - rewrite H1. unfold increment. destruct (Z.ltb_spec (_lastMessageId w) (2 ^ 53)); lia.
  - intros k l. rewrite H1, H2. intros Hk.
    destruct (decide (k = next_id w)) as [->|Hne];
      [|left; now rewrite lookup_insert_ne in Hk by congruence].
    right. exists (increment (_lastMessageId w)). split; [reflexivity|].
    unfold increment. destruct (Z.ltb_spec (_lastMessageId w) (2 ^ 53)); lia.
  - exists more. split; [exact Hmore|]. rewrite Hmore in H4. now apply resolved_more in H4.
Qed.

Lemma adds_ids_foldl {A} (f : World -> A -> World) (l : list A) w :
  (forall w a, adds_ids w (f w a)) -> adds_ids w (foldl f w l).
Proof.
  intros Hf. revert w. induction l as [|a l IH]; intros w; [apply adds_ids_refl|].
  cbn [foldl]. eapply adds_ids_trans; [apply Hf | apply IH].
Qed.

Lemma adds_ids_reenter1 w r : adds_ids w (reenter1 w r).
Proof.
  destruct r as [proxyId path args ks|handler|l]; cbn [reenter1].
  - pose proof (adds_ids_callOnRemote proxyId path args w) as H.
    destruct (callOnRemote proxyId path args w) as [w1 result]. cbn [fst] in H.
    eapply adds_ids_trans; [exact H|].
    apply adds_ids_foldl. intros w0 k. apply adds_ids_core; [apply core_attach|].
    apply grows_attach.
  - apply adds_ids_core; [reflexivity|]. exists []. cbn. now rewrite app_nil_r.
  - apply adds_ids_core; [apply core_cancel | apply grows_cancel].
Qed.

Lemma adds_ids_reenter script w : adds_ids w (reenter script w).
Proof. unfold reenter. apply adds_ids_foldl, adds_ids_reenter1. Qed.

Lemma adds_ids_resolve l o w : adds_ids w (lazyPromise.resolve reenter l o w).
Proof.
  unfold lazyPromise.resolve.
  destruct (heap w !! l) as [d|] eqn:Hd; [|apply adds_ids_refl].
  destruct (state d); try apply adds_ids_refl.
  eapply adds_ids_trans; [|apply adds_ids_foldl; intros; apply adds_ids_reenter].
  apply adds_ids_core; [now apply core_heap_insert with (d := d)|].
  exists []. fields. now rewrite app_nil_r.
Qed.

(** C10, as the code has it. On every manager that can arise, a reply for
    a pending call first deletes the entry and then resolves the deferred
    result: the resolution, with whatever its continuations do to the
    manager, runs in a state that no longer has the entry. That deferred
    result was not resolved through the reply path before and is not
    resolved again by the continuations, and no deferred result is on
    record twice. When the counter is still below 2^53 afterwards, the id
    is not pending any more and a second reply with the same [seq] is
    dropped as unknown. *)
Theorem C10_reply_deletes_then_resolves
    (w : World) (raw : string) (msg : json) (seq : string) (reply : nat) :
  reachable w ->
  marshalling.parse raw = Some msg ->
  truthy (get msg "seq") = true ->
  ToString (get msg "seq") = Some seq ->
  _pendingRPCReplies w !! seq = Some reply ->
  let o := reply_outcome msg in
  exists w' more,
    _receiveOneMessage (Some raw) w = Return w'
    /\ w' = lazyPromise.resolve reenter reply o
              (log (EvResolve reply o)
                 (log (EvForget seq) (upd_pendingRPCReplies (delete seq) w)))
    /\ trace w' = trace w ++ [EvForget seq; EvResolve reply o] ++ more
    /\ (reply ∉ resolved (trace w))
    /\ resolved more = []
    /\ NoDup (resolved (trace w'))
    /\ (_lastMessageId w' < 2 ^ 53 ->
        _pendingRPCReplies w' !! seq = None
        /\ _receiveOneMessage (Some raw) w'
           = Return (log (EvWarn "Got reply to unknown seq") w')).
Proof.
  intros HI%Inv_reachable Hparse Hseq Hkey Hreply. cbn zeta.
  set (o := reply_outcome msg).
  rewrite (receive_reply raw msg w seq reply Hparse Hseq Hkey Hreply). fold o.
  set (w1 := log (EvResolve reply o) _).
  pose proof (Inv_forget w seq reply o HI Hreply) as HI1. fold w1 in HI1.
  destruct (adds_ids_resolve reply o w1) as (Hlast & Hkeys & more & Hmore & Hres).
  destruct (inv_pending w HI seq reply Hreply) as ((n0 & Hn0 & Hid) & _ & Hfresh).
  exists (lazyPromise.resolve reenter reply o w1), more.
  split; [reflexivity|]. split; [reflexivity|].
  split; [rewrite Hmore; subst w1; fields; now rewrite <- !app_assoc|].
  split; [exact Hfresh|]. split; [exact Hres|].
  split; [apply inv_once, Inv_resolve, HI1|].
  intros Hbelow.
  assert (Hgone : _pendingRPCReplies (lazyPromise.resolve reenter reply o w1) !! seq = None).
  { destruct (_pendingRPCReplies (lazyPromise.resolve reenter reply o w1) !! seq)
      as [l|] eqn:Hl; [exfalso|reflexivity].
    destruct (Hkeys seq l Hl) as [Hold|(n & Heq & Hn & Hnew)].
    - subst w1. fields. now rewrite lookup_delete_eq in Hold.
    - assert (Hw1 : _lastMessageId w1 = _lastMessageId w) by reflexivity.
      rewrite Hid in Heq. apply Number_toString_inj in Heq; lia. }
  split; [exact Hgone|].
  rewrite (receive_parsed raw msg _ Hparse (truthy_not_null _ _ Hseq)), Hseq, Hkey.
  now rewrite Hgone.
Qed.

Lemma reachable_step w a : reachable w -> reachable (step w a).
Proof.
  intros [acts ->]. exists (acts ++ [a]). unfold run. now rewrite foldl_app.
Qed.

Lemma scenario_called_reachable : reachable scenario_called.
Proof.
  apply (reachable_step create (Do (ReCallOnRemote "svc.foo" "bar" [JNum 1; JNum 2] []))).
  apply reachable_create.
Qed.

Lemma C10_reply_deletes_then_resolves_witness :
  let msg := JObj [("seq", JStr "1"); ("res", JNum 42)] in
  reachable scenario_called
  /\ marshalling.parse scenario_reply_42 = Some msg
  /\ truthy (get msg "seq") = true
  /\ ToString (get msg "seq") = Some "1"
  /\ _pendingRPCReplies scenario_called !! "1" = Some 0%nat
  /\ exists w' more,
       _receiveOneMessage (Some scenario_reply_42) scenario_called = Return w'
       /\ trace w' = trace scenario_called
                     ++ [EvForget "1"; EvResolve 0 (Ok (Some (JNum 42)))] ++ more
       /\ NoDup (resolved (trace w'))
       /\ _pendingRPCReplies w' !! "1" = None
       /\ _receiveOneMessage (Some scenario_reply_42) w'
          = Return (log (EvWarn "Got reply to unknown seq") w').
Proof.
  intros msg.
  assert (Hparse : marshalling.parse scenario_reply_42 = Some msg) by (vm_compute; reflexivity).
  assert (Hpending : _pendingRPCReplies scenario_called !! "1" = Some 0%nat)
    by (vm_compute; reflexivity).
  split; [exact scenario_called_reachable|]. split; [exact Hparse|].
  split; [reflexivity|]. split; [reflexivity|]. split; [exact Hpending|].
  destruct (C10_reply_deletes_then_resolves scenario_called scenario_reply_42 msg "1" 0%nat
              scenario_called_reachable Hparse eq_refl eq_refl Hpending)
    as (w' & more & Hret & Hw' & Htrace & _ & _ & Honce & Hsecond).
  destruct Hsecond as [Hgone Hdrop]; [rewrite Hw'; vm_compute; reflexivity|].
  exists w', more. repeat split; assumption.
Defined.

(** ** The counter at its limit *)

Lemma reachable_after_calls n : reachable (after_calls n).
Proof.
  induction n as [|n IH] using N.peano_ind; [apply reachable_create|].
  rewrite after_calls_succ.
  pose proof (reachable_step _ (Do (ReCallOnRemote "svc.foo" "bar" [] [])) IH) as H.
  cbn [step reenter1] in H.
  destruct (callOnRemote "svc.foo" "bar" [] (after_calls n)) as [w1 result]. exact H.
Qed.

(** When the counter stands one below 2^53, a call whose continuation
    calls again is given the id 2^53, and so is the call that the
    continuation makes when the reply arrives: the id is pending again
    after the reply was dispatched, and a second reply with the same [seq]
    is not dropped. *)
Lemma reply_replayed_at_the_limit b :
  Inv b -> _lastMessageId b = 2 ^ 53 - 1 ->
  exists w',
    _receiveOneMessage (Some limit_reply)
        (step b (Do (ReCallOnRemote "svc.foo" "bar" [] [again]))) = Return w'
    /\ is_Some (_pendingRPCReplies w' !! limit_id)
    /\ _receiveOneMessage (Some limit_reply) w'
       <> Return (log (EvWarn "Got reply to unknown seq") w').
Proof.
  intros HI Hlast.
  assert (Hparse : marshalling.parse limit_reply = Some limit_reply_msg)
    by (vm_compute; reflexivity).
  assert (Hnext : next_id b = limit_id) by (unfold next_id; rewrite Hlast; reflexivity).
  cbn [step reenter1].
  destruct (core_callOnRemote "svc.foo" "bar" [] b) as (H1 & H2 & H3 & _ & H5).
  destruct (callOnRemote "svc.foo" "bar" [] b) as [w0 l0]. cbn [fst snd foldl] in *.
  rewrite Hnext in H2, H3. rewrite Hlast in H1. subst l0.
  assert (Hd0 : heap w0 !! length (heap b) = Some (lazyPromise.create limit_id)).
  { rewrite H3. now apply list_lookup_middle. }
  unfold lazyPromise.then_. rewrite Hd0. cbn [state lazyPromise.create].
  set (d1 := mkLazyPromise Pending _ _ _).
  set (sat := upd_heap _ w0).
  assert (Hd1 : heap sat !! length (heap b) = Some d1).
  { unfold sat. gfields. apply list_lookup_insert_eq. eapply lookup_lt_Some; eauto. }
  assert (Hp1 : _pendingRPCReplies sat !! limit_id = Some (length (heap b))).
  { unfold sat. gfields. rewrite H2. apply lookup_insert_eq. }
  rewrite (receive_reply limit_reply limit_reply_msg sat limit_id _ Hparse eq_refl eq_refl Hp1).
  set (o := reply_outcome limit_reply_msg).
  set (w1 := log (EvResolve (length (heap b)) o) _).
  assert (Hresolve : lazyPromise.resolve reenter (length (heap b)) o w1
                     = reenter (again o)
                         (upd_heap (fun h => <[length (heap b) :=
                                                 mkLazyPromise (terminal o) false
                                                   limit_id [again]]> h) w1)).
  { unfold lazyPromise.resolve. unfold w1 at 1. gfields. rewrite Hd1. reflexivity. }
  rewrite Hresolve. set (w2 := upd_heap _ w1).
  assert (Hlast2 : _lastMessageId w2 = 2 ^ 53) by (unfold w2, w1, sat; gfields; exact H1).
  assert (Hnext2 : next_id w2 = limit_id) by (unfold next_id; rewrite Hlast2; reflexivity).
  unfold again, reenter. cbn [foldl reenter1].
  destruct (core_callOnRemote "svc.foo" "bar" [] w2) as (_ & K2 & _).
  destruct (callOnRemote "svc.foo" "bar" [] w2) as [w3 l3]. cbn [fst snd foldl] in K2 |- *.
  rewrite Hnext2 in K2.
  assert (Hp3 : _pendingRPCReplies w3 !! limit_id = Some (length (heap w2))).
  { rewrite K2. apply lookup_insert_eq. }
  exists w3. split; [reflexivity|]. split; [rewrite K2, lookup_insert_eq; eauto|].
  rewrite (receive_reply limit_reply limit_reply_msg w3 limit_id _ Hparse eq_refl eq_refl Hp3).
  intros [= Heq]. apply (f_equal trace) in Heq.
  match type of Heq with trace (lazyPromise.resolve reenter ?l ?o' ?w4) = _ =>
    destruct (adds_ids_resolve l o' w4) as (_ & _ & more & Hmore & _) end.
  rewrite Hmore in Heq. fields_in Heq. rewrite <- !app_assoc in Heq.
  clear -Heq. apply app_inv_head in Heq. cbn in Heq. congruence.
Qed.

(** C10 as stated fails on that manager: the reply for the id 2^53 is
    dispatched, its continuation calls again, and the second reply with the
    same [seq] finds a pending call instead of being dropped. *)
Lemma C10_second_reply_not_dropped_at_the_limit :
  reachable saturated
  /\ exists w',
       _receiveOneMessage (Some limit_reply) saturated = Return w'
       /\ is_Some (_pendingRPCReplies w' !! limit_id)
       /\ _receiveOneMessage (Some limit_reply) w'
          <> Return (log (EvWarn "Got reply to unknown seq") w').
Proof.
  unfold saturated. split.
  - apply reachable_step, reachable_after_calls.
  - apply reply_replayed_at_the_limit; [apply Inv_after_calls|].
    rewrite after_calls_counter. reflexivity.
Qed.

(** ** The multiplexer's receive queue *)

Lemma receives_app q1 q2 : receives (q1 ++ q2) = (receives q1 + receives q2)%nat.
Proof. induction q1 as [|[] q1 IH]; cbn; lia. Qed.

Lemma muxcore_log e w :
  (forall n rawmsg, e <> EvDispatch n rawmsg) -> muxcore (log e w) = muxcore w.
Proof.
  intros He. unfold muxcore. gfields. rewrite dispatched_snoc.
  destruct e; try (now rewrite app_nil_r). now destruct (He n rawmsg).
Qed.

Lemma muxcore_send msg w : muxcore (RPCMultiplexer.send msg w) = muxcore w.
Proof.
  unfold muxcore. destruct (send_fields msg w) as (_ & -> & -> & -> & -> & _).
  rewrite dispatched_snoc, app_nil_r, receives_app.
  destruct (Nat.eqb _ 0); cbn [receives]; now rewrite Nat.add_0_r.
Qed.

Lemma muxcore_cancel l w : muxcore (lazyPromise.cancel l w) = muxcore w.
Proof.
  unfold lazyPromise.cancel.
  destruct (heap w !! l) as [d|]; [|reflexivity].
  destruct (state d); try reflexivity.
  destruct (cancelRequested d); [reflexivity|].
  rewrite <- (muxcore_send (MessageFactory.cancel (onCancel d)) w). reflexivity.
Qed.

Lemma muxcore_attach l k w : muxcore (lazyPromise.then_ (fun _ w => w) l k w) = muxcore w.
Proof.
  unfold lazyPromise.then_.
  destruct (heap w !! l) as [d|]; [|reflexivity]. now destruct (state d).
Qed.

Lemma muxcore_foldl {A} (f : World -> A -> World) (l : list A) w :
  (forall w a, muxcore (f w a) = muxcore w) -> muxcore (foldl f w l) = muxcore w.
Proof.
  intros Hf. revert w. induction l as [|a l IH]; intros w; [reflexivity|].
  cbn [foldl]. now rewrite IH, Hf.
Qed.

Lemma muxcore_callOnRemote proxyId path args w :
  muxcore (fst (callOnRemote proxyId path args w)) = muxcore w.
Proof. unfold callOnRemote. cbn [fst]. now rewrite muxcore_send. Qed.

Lemma muxcore_reenter1 w r : muxcore (reenter1 w r) = muxcore w.
Proof.
  destruct r as [proxyId path args ks|handler|l]; cbn [reenter1].
  - pose proof (muxcore_callOnRemote proxyId path args w) as H.
    destruct (callOnRemote proxyId path args w) as [w1 result]. cbn [fst] in H.
    rewrite <- H. apply muxcore_foldl. intros; apply muxcore_attach.
  - reflexivity.
  - apply muxcore_cancel.
Qed.

Lemma muxcore_reenter script w : muxcore (reenter script w) = muxcore w.
Proof. unfold reenter. apply muxcore_foldl, muxcore_reenter1. Qed.

Lemma muxcore_resolve l o w : muxcore (lazyPromise.resolve reenter l o w) = muxcore w.
Proof.
  unfold lazyPromise.resolve.
  destruct (heap w !! l) as [d|]; [|reflexivity].
  destruct (state d); try reflexivity.
  rewrite muxcore_foldl by (intros; apply muxcore_reenter). reflexivity.
Qed.


Lemma muxcore_completed req o w : muxcore (completed req o w) = muxcore w.
Proof.
  unfold completed. destruct o; cbn zeta; rewrite muxcore_send;
    (rewrite muxcore_log by discriminate); reflexivity.
Qed.

Lemma muxcore_settle p o w : muxcore (settle p o w) = muxcore w.
Proof.
  unfold settle. destruct (settled (promise_of w p)); [reflexivity|].
  rewrite muxcore_foldl by (intros; apply muxcore_completed). reflexivity.
Qed.

Lemma muxcore_promise_then promise req w : muxcore (then_ promise req w) = muxcore w.
Proof.
  destruct promise as [v|e|p]; cbn [then_]; try apply muxcore_completed.
  destruct (settled (promise_of w p)); [apply muxcore_completed | reflexivity].
Qed.

Lemma muxcore_promise_cancel promise w : muxcore (cancel promise w) = muxcore w.
Proof.
  destruct promise as [v|e|p]; try reflexivity. cbn [cancel].
  destruct (whenCancelled p); [rewrite muxcore_settle|]; reflexivity.
Qed.

(** The manager's callback leaves the receiving side as it is. *)
Lemma muxcore_receiveOneMessage rawmsg w :
  muxcore (world_of (_receiveOneMessage rawmsg w)) = muxcore w.
Proof.
  destruct (marshalling.parse (default "undefined" rawmsg)) as [msg|] eqn:Hparse;
    [|unfold _receiveOneMessage; now rewrite Hparse].
  assert (Hcases : msg = JNull \/ msg <> JNull) by (destruct msg; auto; right; discriminate).
  destruct Hcases as [->|Hnull]; [unfold _receiveOneMessage; now rewrite Hparse|].
  rewrite (receive_parsed_any rawmsg msg w Hparse Hnull).
  destruct (truthy (get msg "seq")).
  { destruct (ToString (get msg "seq")) as [seq|]; [|reflexivity].
    destruct (_pendingRPCReplies w !! seq) as [reply|].
    - cbn zeta. unfold resolveErr, resolveOk.
      destruct (truthy (get msg "err")); cbn [world_of]; rewrite muxcore_resolve;
        rewrite !muxcore_log by discriminate; reflexivity.
    - cbn [world_of]. now rewrite muxcore_log by discriminate. }
  destruct (truthy (get msg "cancel")).
  { destruct (ToString (get msg "cancel")) as [key|]; [|reflexivity].
    destruct (_invokedHandlers w !! key); cbn [world_of]; [|reflexivity].
    rewrite muxcore_promise_cancel. now rewrite muxcore_log by discriminate. }
  destruct (truthy (get msg "err")); [cbn [world_of]; now rewrite muxcore_log by discriminate|].
  destruct (_bigHandler w) as [handler|]; [|reflexivity].
  unfold _invokeHandler.
  destruct (handler _ _ _) as [script result]. cbn zeta.
  destruct result; (destruct (ToString (get msg "req")) as [req|]); cbn [world_of];
    rewrite ?muxcore_promise_then;
    rewrite ?muxcore_log by discriminate;
    try change (muxcore (upd_invokedHandlers ?f ?w0)) with (muxcore w0);
    rewrite muxcore_reenter; now rewrite muxcore_log by discriminate.
Qed.









Lemma tick_flush w queue :
  nextTickQueue w = sendAccumulatedBound :: queue ->
  nextTickQueue (tick w) = queue /\ _messagesToReceive (tick w) = _messagesToReceive w.
Proof. intros H. unfold tick. rewrite H. split; reflexivity. Qed.





(** * Further properties *)

(** ** The templates of cancellations and replies *)

Lemma cancel_is_stringify req :
  plain req = true ->
  MessageFactory.cancel req = marshalling.stringify (JObj [("cancel", JStr req)]).
Proof.
  intros Hreq. rewrite stringify_obj. unfold MessageFactory.cancel.
  cbn [map join]. unfold member_text. cbn [fst snd marshalling.stringify].
  rewrite (quote_plain req Hreq), (quote_plain "cancel" eq_refl).
  repeat (rewrite ?append_assoc; cbn [String.append]).
  reflexivity.
Qed.

Lemma replyOK_is_stringify req res :
  plain req = true ->
  MessageFactory.replyOK req res =
  marshalling.stringify
    (JObj (("seq", JStr req) :: match res with Some r => [("res", r)] | None => [] end)).
Proof.
  intros Hreq. rewrite stringify_obj. unfold MessageFactory.replyOK.
  destruct res as [r|]; cbn [map join]; unfold member_text; cbn [fst snd marshalling.stringify];
    rewrite (quote_plain req Hreq), (quote_plain "seq" eq_refl), ?(quote_plain "res" eq_refl);
    repeat (rewrite ?append_assoc; cbn [String.append]);
    reflexivity.
Qed.

Lemma replyErr_is_stringify req err :
  plain req = true ->
  MessageFactory.replyErr req err =
  marshalling.stringify
    (JObj [("seq", JStr req); ("err", errors.transformErrorForSerialization err)]).
Proof.
  intros Hreq. rewrite stringify_obj. unfold MessageFactory.replyErr.
  destruct err as [|j|name message stack]; cbn [map join]; unfold member_text;
    cbn [fst snd]; cbn [marshalling.stringify errors.transformErrorForSerialization];
    rewrite (quote_plain req Hreq), (quote_plain "seq" eq_refl), (quote_plain "err" eq_refl);
    repeat (rewrite ?append_assoc; cbn [String.append]);
    reflexivity.
Qed.

Lemma truthy_text s : s <> "" -> truthy (Some (JStr s)) = true.
Proof. intros Hs. cbn. now apply negb_true_iff, String.eqb_neq. Qed.

(** What the receiving side makes of an error that [replyErr] has written. *)
Lemma revived_error name message stack :
  let err := Some (errors.transformErrorForSerialization (ErrorObject name message stack)) in
  truthy err = true /\ truthy (get' err "$isError") = true
  /\ get' err "name" = name /\ get' err "message" = message /\ get' err "stack" = stack.
Proof. destruct name, message, stack; repeat split. Qed.

(** ** Cancellations and replies at the receiving manager *)

Lemma receive_cancel_text req w :
  plain req = true -> req <> "" ->
  _receiveOneMessage (Some (MessageFactory.cancel req)) w
  = Return (match _invokedHandlers w !! req with
            | Some promise => cancel promise (log (EvCancel req) w)
            | None => w
            end).
Proof.
  intros Hplain Hne. rewrite (cancel_is_stringify req Hplain).
  rewrite (receive_parsed _ _ w (parse_stringify _)) by discriminate.
  change (get (JObj [("cancel", JStr req)]) "seq") with (@None json).
  change (get (JObj [("cancel", JStr req)]) "cancel") with (Some (JStr req)).
  rewrite (truthy_text req Hne). cbn [truthy ToString ToString_json].
  now destruct (_invokedHandlers w !! req).
Qed.

Lemma receive_replyOK_text seq res reply w :
  plain seq = true -> seq <> "" ->
  _pendingRPCReplies w !! seq = Some reply ->
  _receiveOneMessage (Some (MessageFactory.replyOK seq res)) w
  = Return (resolveOk reply res
              (log (EvResolve reply (Ok res))
                 (log (EvForget seq) (upd_pendingRPCReplies (delete seq) w)))).
Proof.
  intros Hplain Hne Hreply. rewrite (replyOK_is_stringify seq res Hplain).
  rewrite (receive_reply _ _ w seq reply (parse_stringify _)); try assumption.
  - now destruct res.
  - destruct res; now apply truthy_text.
  - now destruct res.
Qed.

Lemma receive_replyErr_text seq err reply w :
  plain seq = true -> seq <> "" ->
  _pendingRPCReplies w !! seq = Some reply ->
  _receiveOneMessage (Some (MessageFactory.replyErr seq err)) w
  = let o := reply_outcome
               (JObj [("seq", JStr seq); ("err", errors.transformErrorForSerialization err)]) in
    Return (lazyPromise.resolve reenter reply o
              (log (EvResolve reply o)
                 (log (EvForget seq) (upd_pendingRPCReplies (delete seq) w)))).
Proof.
  intros Hplain Hne Hreply. rewrite (replyErr_is_stringify seq err Hplain).
  now rewrite (receive_reply _ (JObj [("seq", JStr seq);
                                       ("err", errors.transformErrorForSerialization err)])
                 w seq reply (parse_stringify _) (truthy_text seq Hne) eq_refl Hreply).
Qed.

(** X2. The reply that [MessageFactory.replyOK] writes for a result, at the
    manager where the id is pending: the dispatch deletes the entry and
    calls [resolveOk] on the deferred result with that result, also when it
    is [undefined] (the text has no [res] then), [null], [false], [0] or
    the empty text. *)
Theorem replyOK_resolves_with_the_result
    (w : World) (seq : string) (res : jsval) (reply : nat) :
  plain seq = true -> seq <> "" ->
  _pendingRPCReplies w !! seq = Some reply ->
  exists w' more,
    _receiveOneMessage (Some (MessageFactory.replyOK seq res)) w = Return w'
    /\ w' = resolveOk reply res
              (log (EvResolve reply (Ok res))
                 (log (EvForget seq) (upd_pendingRPCReplies (delete seq) w)))
    /\ trace w' = trace w ++ [EvForget seq; EvResolve reply (Ok res)] ++ more
    /\ resolved more = [].
Proof.
  intros Hplain Hne Hreply.
  rewrite (receive_replyOK_text seq res reply w Hplain Hne Hreply).
  unfold resolveOk.
  destruct (adds_ids_resolve reply (Ok res)
              (log (EvResolve reply (Ok res))
                 (log (EvForget seq) (upd_pendingRPCReplies (delete seq) w))))
    as (_ & _ & more & Hmore & Hres).
  eexists _, more. split; [reflexivity|]. split; [reflexivity|].
  split; [rewrite Hmore; gfields; now rewrite <- !app_assoc | exact Hres].
Qed.

Lemma replyOK_resolves_with_the_result_witness :
  plain "1" = true /\ "1" <> ""
  /\ _pendingRPCReplies scenario_called !! "1" = Some 0%nat
  /\ exists w' more,
       _receiveOneMessage (Some (MessageFactory.replyOK "1" None)) scenario_called = Return w'
       /\ trace w' = trace scenario_called ++ [EvForget "1"; EvResolve 0 (Ok None)] ++ more.
Proof.
  assert (Hpending : _pendingRPCReplies scenario_called !! "1" = Some 0%nat)
    by (vm_compute; reflexivity).
  split; [reflexivity|]. split; [discriminate|]. split; [exact Hpending|].
  destruct (replyOK_resolves_with_the_result scenario_called "1" None 0 eq_refl)
    as (w' & more & Hret & _ & Htrace & _); [discriminate | exact Hpending |].
  exists w', more. split; assumption.
Defined.

(** X3. The reply that [MessageFactory.replyErr] writes for an [Error] object,
    at the manager where the id is pending: the dispatch deletes the entry
    and calls [resolveErr] with an [Error] that has the name, the message
    and the stack of the one that was sent. *)
Theorem replyErr_revives_the_error
    (w : World) (seq : string) (name message stack : jsval) (reply : nat) :
  plain seq = true -> seq <> "" ->
  _pendingRPCReplies w !! seq = Some reply ->
  _receiveOneMessage
    (Some (MessageFactory.replyErr seq (ErrorObject name message stack))) w
  = Return (resolveErr reply (ErrorObject name message stack)
              (log (EvResolve reply (Err (ErrorObject name message stack)))
                 (log (EvForget seq) (upd_pendingRPCReplies (delete seq) w)))).
Proof.
  intros Hplain Hne Hreply.
  rewrite (receive_replyErr_text seq _ reply w Hplain Hne Hreply). cbn zeta.
  destruct (revived_error name message stack) as (H1 & H2 & H3 & H4 & H5).
  unfold reply_outcome.
  change (get (JObj [("seq", JStr seq);
                     ("err", errors.transformErrorForSerialization
                               (ErrorObject name message stack))]) "err")
    with (Some (errors.transformErrorForSerialization (ErrorObject name message stack))).
  cbn zeta in H1, H2, H3, H4, H5. rewrite H1, H2, H3, H4, H5. reflexivity.
Qed.

Lemma replyErr_revives_the_error_witness :
  plain "1" = true /\ "1" <> ""
  /\ _pendingRPCReplies scenario_called !! "1" = Some 0%nat
  /\ _receiveOneMessage
       (Some (MessageFactory.replyErr "1"
                (ErrorObject (Some (JStr "Error")) (Some (JStr "no such file")) None)))
       scenario_called
     = Return (resolveErr 0 (ErrorObject (Some (JStr "Error")) (Some (JStr "no such file")) None)
                 (log (EvResolve 0 (Err (ErrorObject (Some (JStr "Error"))
                                           (Some (JStr "no such file")) None)))
                    (log (EvForget "1")
                       (upd_pendingRPCReplies (delete "1") scenario_called)))).
Proof.
  assert (Hpending : _pendingRPCReplies scenario_called !! "1" = Some 0%nat)
    by (vm_compute; reflexivity).
  split; [reflexivity|]. split; [discriminate|]. split; [exact Hpending|].
  apply (replyErr_revives_the_error scenario_called "1"); [reflexivity | discriminate | exact Hpending].
Defined.

(** X4. The reply that [MessageFactory.replyErr] writes for an error that is
    plain data, at the manager where the id is pending: the call fails with
    that value when the value is truthy, and is resolved as a success with
    [undefined] when it is [undefined], [null], [false], [0] or the empty
    text, since the dispatch tests [msg.err] for truth. *)
Theorem replyErr_of_data_fails_only_when_truthy
    (w : World) (seq : string) (err : jsval) (reply : nat) :
  plain seq = true -> seq <> "" ->
  _pendingRPCReplies w !! seq = Some reply ->
  truthy (get' err "$isError") = false ->
  _receiveOneMessage (Some (MessageFactory.replyErr seq (value_of err))) w
  = Return (if truthy err
            then resolveErr reply (value_of err)
                   (log (EvResolve reply (Err (value_of err)))
                      (log (EvForget seq) (upd_pendingRPCReplies (delete seq) w)))
            else resolveOk reply None
                   (log (EvResolve reply (Ok None))
                      (log (EvForget seq) (upd_pendingRPCReplies (delete seq) w)))).
Proof.
  intros Hplain Hne Hreply Hdata.
  rewrite (receive_replyErr_text seq _ reply w Hplain Hne Hreply). cbn zeta.
  unfold reply_outcome.
  change (get (JObj [("seq", JStr seq);
                     ("err", errors.transformErrorForSerialization (value_of err))]) "err")
    with (Some (errors.transformErrorForSerialization (value_of err))).
  change (get (JObj [("seq", JStr seq);
                     ("err", errors.transformErrorForSerialization (value_of err))]) "res")
    with (@None json).
  destruct err as [j|]; [|reflexivity].
  cbn [value_of errors.transformErrorForSerialization]. cbn [get'] in Hdata.
  destruct (truthy (Some j)); [|reflexivity].
  cbn [get']. rewrite Hdata. reflexivity.
Qed.

Lemma replyErr_of_data_fails_only_when_truthy_witness :
  plain "1" = true /\ "1" <> ""
  /\ _pendingRPCReplies scenario_called !! "1" = Some 0%nat
  /\ truthy (get' (Some (JNum 0)) "$isError") = false
  /\ _receiveOneMessage (Some (MessageFactory.replyErr "1" (Data (JNum 0)))) scenario_called
     = Return (resolveOk 0 None
                 (log (EvResolve 0 (Ok None))
                    (log (EvForget "1")
                       (upd_pendingRPCReplies (delete "1") scenario_called)))).
Proof.
  assert (Hpending : _pendingRPCReplies scenario_called !! "1" = Some 0%nat)
    by (vm_compute; reflexivity).
  split; [reflexivity|]. split; [discriminate|]. split; [exact Hpending|].
  split; [reflexivity|].
  apply (replyErr_of_data_fails_only_when_truthy scenario_called "1" (Some (JNum 0)) 0);
    [reflexivity | discriminate | exact Hpending | reflexivity].
Defined.

(** ** What code running on the manager's stack adds to the log *)

Lemma only_sends_refl w : only_sends w w.
Proof. exists []. cbn. now rewrite app_nil_r. Qed.

Lemma only_sends_trans w1 w2 w3 : only_sends w1 w2 -> only_sends w2 w3 -> only_sends w1 w3.
Proof.
  intros [m1 H1] [m2 H2]. exists (m1 ++ m2). now rewrite H2, H1, fmap_app, app_assoc.
Qed.

Lemma only_sends_trace w w' : trace w' = trace w -> only_sends w w'.
Proof. intros H. exists []. cbn. now rewrite app_nil_r. Qed.

Lemma only_sends_send msg w : only_sends w (RPCMultiplexer.send msg w).
Proof. exists [msg]. now destruct (send_fields msg w) as (_ & -> & _). Qed.

Lemma only_sends_cancel l w : only_sends w (lazyPromise.cancel l w).
Proof.
  unfold lazyPromise.cancel.
  destruct (heap w !! l) as [d|]; [|apply only_sends_refl].
  destruct (state d); try apply only_sends_refl.
  destruct (cancelRequested d); [apply only_sends_refl|].
  eapply only_sends_trans; [apply only_sends_send | now apply only_sends_trace].
Qed.

Lemma only_sends_attach l k w : only_sends w (lazyPromise.then_ (fun _ w => w) l k w).
Proof.
  unfold lazyPromise.then_.
  destruct (heap w !! l) as [d|]; [|apply only_sends_refl].
  destruct (state d); try apply only_sends_refl. now apply only_sends_trace.
Qed.

Lemma callOnRemote_trace proxyId path args w :
  trace (fst (callOnRemote proxyId path args w))
  = trace w ++ [EvSend (MessageFactory.request (next_id w) proxyId path args)].
Proof.
  unfold callOnRemote. cbn [fst].
  match goal with |- context [RPCMultiplexer.send ?m ?w0] =>
    destruct (send_fields m w0) as (_ & -> & _) end.
  reflexivity.
Qed.

Lemma only_sends_callOnRemote proxyId path args w :
  only_sends w (fst (callOnRemote proxyId path args w)).
Proof. eexists [_]. apply callOnRemote_trace. Qed.

Lemma only_sends_foldl {A} (f : World -> A -> World) (l : list A) w :
  (forall w a, only_sends w (f w a)) -> only_sends w (foldl f w l).
Proof.
  intros Hf. revert w. induction l as [|a l IH]; intros w; [apply only_sends_refl|].
  cbn [foldl]. eapply only_sends_trans; [apply Hf | apply IH].
Qed.

Lemma only_sends_reenter1 w r : only_sends w (reenter1 w r).
Proof.
  destruct r as [proxyId path args ks|handler|l]; cbn [reenter1].
  - pose proof (only_sends_callOnRemote proxyId path args w) as H.
    destruct (callOnRemote proxyId path args w) as [w1 result]. cbn [fst] in H.
    eapply only_sends_trans; [exact H|].
    apply only_sends_foldl. intros; apply only_sends_attach.
  - now apply only_sends_trace.
  - apply only_sends_cancel.
Qed.

Lemma only_sends_reenter script w : only_sends w (reenter script w).
Proof. unfold reenter. apply only_sends_foldl, only_sends_reenter1. Qed.

Lemma only_sends_resolve l o w : only_sends w (lazyPromise.resolve reenter l o w).
Proof.
  unfold lazyPromise.resolve.
  destruct (heap w !! l) as [d|]; [|apply only_sends_refl].
  destruct (state d); try apply only_sends_refl.
  eapply only_sends_trans; [|apply only_sends_foldl; intros; apply only_sends_reenter].
  now apply only_sends_trace.
Qed.

Lemma invocations_snoc t e :
  invocations (t ++ [e])
  = invocations t ++ match e with
                     | EvInvoke rpcId method args => [(rpcId, method, args)]
                     | _ => []
                     end.
Proof. unfold invocations. rewrite omap_app. cbn. now destruct e. Qed.

Lemma invocations_only_sends w w' :
  only_sends w w' -> invocations (trace w') = invocations (trace w).
Proof.
  intros [msgs ->]. unfold invocations. rewrite omap_app.
  replace (omap _ (EvSend <$> msgs)) with (@nil (jsval * jsval * jsval));
    [apply app_nil_r|].
  induction msgs as [|m msgs IH]; [reflexivity | exact IH].
Qed.

Lemma sent_snoc t e :
  sent (t ++ [e]) = sent t ++ match e with EvSend msg => [msg] | _ => [] end.
Proof. unfold sent. rewrite omap_app. cbn. now destruct e. Qed.

Lemma batches_snoc t e :
  batches (t ++ [e]) = batches t ++ match e with EvProtocolSend batch => [batch] | _ => [] end.
Proof. unfold batches. rewrite omap_app. cbn. now destruct e. Qed.

Lemma invocations_completed req o w :
  invocations (trace (completed req o w)) = invocations (trace w).
Proof.
  destruct (completed_fields req o w) as (-> & _).
  change [EvDeregister req; EvSend (reply_text req o)]
    with ([EvDeregister req] ++ [EvSend (reply_text req o)]).
  now rewrite app_assoc, !invocations_snoc, !app_nil_r.
Qed.

Lemma invocations_promise_then promise req w :
  invocations (trace (then_ promise req w)) = invocations (trace w).
Proof.
  destruct promise as [v|e|p]; cbn [then_]; try apply invocations_completed.
  destruct (settled (promise_of w p)); [apply invocations_completed | reflexivity].
Qed.

Lemma invocations_settle p o w : invocations (trace (settle p o w)) = invocations (trace w).
Proof.
  unfold settle. destruct (settled (promise_of w p)); [reflexivity|].
  set (w1 := upd_promises _ w). change (trace w) with (trace w1).
  generalize (callbacks (promise_of w p)) w1. clear.
  intros cbs. induction cbs as [|r cbs IH]; intros w; [reflexivity|].
  cbn [foldl]. now rewrite IH, invocations_completed.
Qed.

Lemma invocations_promise_cancel promise w :
  invocations (trace (cancel promise w)) = invocations (trace w).
Proof.
  destruct promise as [v|e|p]; try reflexivity. cbn [cancel].
  destruct (whenCancelled p); [rewrite invocations_settle|]; reflexivity.
Qed.

(** A request at a manager that has a handler: the handler is invoked, the
    promise it gives is registered under the id, and the completion
    callbacks are attached to it. *)
Lemma receive_request raw msg w handler script result req :
  marshalling.parse raw = Some msg ->
  classify msg = Some Request ->
  _bigHandler w = Some handler ->
  handler (get msg "rpcId") (get msg "method") (get msg "args") = (script, result) ->
  ToString (get msg "req") = Some req ->
  _receiveOneMessage (Some raw) w
  = Return (then_ (promise_for result) req
              (log (EvRegister req)
                 (upd_invokedHandlers (fun m => <[req := promise_for result]> m)
                    (reenter script
                       (log (EvInvoke (get msg "rpcId") (get msg "method") (get msg "args"))
                          w))))).
Proof.
  intros Hparse Hclass Hhandler Hresult Hreq.
  destruct (classify_request msg Hclass) as (Hnull & Hseq & Hcancel & Herr).
  rewrite (receive_parsed raw msg w Hparse Hnull), Hseq, Hcancel, Herr, Hhandler.
  unfold _invokeHandler. rewrite Hresult. cbn zeta.
  destruct result; rewrite Hreq; reflexivity.
Qed.

(** X5. The handler is invoked once for a message that the dispatch sorts as a
    request, with the [rpcId], [method] and [args] of the message, and for
    no other message: not for a reply, a cancellation or a bare error,
    whatever else the message carries, nor by the continuations of a
    deferred result that a reply resolves. This holds also when the
    dispatch throws. *)
Theorem handler_is_invoked_for_requests_only (w : World) (raw : string) (msg : json) :
  marshalling.parse raw = Some msg ->
  invocations (trace (world_of (_receiveOneMessage (Some raw) w)))
  = invocations (trace w)
    ++ match classify msg, _bigHandler w with
       | Some Request, Some _ => [(get msg "rpcId", get msg "method", get msg "args")]
       | _, _ => []
       end.
Proof.
  intros Hparse.
  assert (Hcases : msg = JNull \/ msg <> JNull) by (destruct msg; auto; right; discriminate).
  destruct Hcases as [->|Hnull].
  { unfold _receiveOneMessage. change (default "undefined" (Some raw)) with raw.
    rewrite Hparse. cbn. now rewrite app_nil_r. }
  rewrite (receive_parsed raw msg w Hparse Hnull).
  assert (Hk : classify msg =
               Some (if truthy (get msg "seq") then Reply
                     else if truthy (get msg "cancel") then Cancel
                     else if truthy (get msg "err") then BareError else Request)).
  { destruct msg; try congruence; reflexivity. }
  rewrite Hk.
  destruct (truthy (get msg "seq")).
  { rewrite app_nil_r.
    destruct (ToString (get msg "seq")) as [seq|]; [|reflexivity].
    destruct (_pendingRPCReplies w !! seq) as [reply|].
    - cbn zeta. unfold resolveErr, resolveOk.
      destruct (truthy (get msg "err")); cbn [world_of];
        rewrite (invocations_only_sends _ _ (only_sends_resolve _ _ _));
        gfields; now rewrite !invocations_snoc, !app_nil_r.
    - cbn [world_of]. gfields. now rewrite invocations_snoc, app_nil_r. }
  destruct (truthy (get msg "cancel")).
  { rewrite app_nil_r.
    destruct (ToString (get msg "cancel")) as [key|]; [|reflexivity].
    destruct (_invokedHandlers w !! key) as [promise|]; cbn [world_of];
      [rewrite invocations_promise_cancel|]; gfields;
      rewrite ?invocations_snoc, ?app_nil_r; reflexivity. }
  destruct (truthy (get msg "err")).
  { rewrite app_nil_r. cbn [world_of]. gfields. now rewrite invocations_snoc, app_nil_r. }
  destruct (_bigHandler w) as [handler|]; [|cbn [world_of]; now rewrite app_nil_r].
  unfold _invokeHandler.
  destruct (handler _ _ _) as [script result]. cbn zeta.
  assert (H1 : invocations (trace (reenter script
                 (log (EvInvoke (get msg "rpcId") (get msg "method") (get msg "args")) w)))
               = invocations (trace w)
                 ++ [(get msg "rpcId", get msg "method", get msg "args")]).
  { rewrite (invocations_only_sends _ _ (only_sends_reenter _ _)). gfields.
    now rewrite invocations_snoc. }
  destruct result; (destruct (ToString (get msg "req")) as [req|]); cbn [world_of];
    rewrite ?invocations_promise_then; gfields;
    rewrite ?invocations_snoc, ?app_nil_r; exact H1.
Qed.

Lemma handler_is_invoked_for_requests_only_witness :
  marshalling.parse scenario_request = Some scenario_request_msg
  /\ invocations
       (trace (world_of (_receiveOneMessage (Some scenario_request)
                           (setManyHandler (Some answering_handler) create))))
     = [(Some (JStr "svc.foo"), Some (JStr "bar"), Some (JArr [JNum 1; JNum 2]))].
Proof.
  assert (Hparse : marshalling.parse scenario_request = Some scenario_request_msg)
    by (vm_compute; reflexivity).
  split; [exact Hparse|].
  exact (handler_is_invoked_for_requests_only
           (setManyHandler (Some answering_handler) create)
           scenario_request scenario_request_msg Hparse).
Defined.

(** ** A call and its answer *)

Lemma Number_toString_nonempty z : Number_toString z <> "".
Proof.
  unfold Number_toString. destruct (z <? 0); [discriminate|].
  destruct (dec_start (Z.to_N z)) as (c & r & -> & _). discriminate.
Qed.

Lemma promise_of_fresh w p :
  promises w !! p = None -> promise_of w p = mkHandlerPromise None [] 0.
Proof. intros H. unfold promise_of. now rewrite H. Qed.

Lemma sent_completion t req o :
  sent (t ++ [EvDeregister req; EvSend (reply_text req o)]) = sent t ++ [reply_text req o].
Proof.
  change [EvDeregister req; EvSend (reply_text req o)]
    with ([EvDeregister req] ++ [EvSend (reply_text req o)]).
  now rewrite app_assoc, !sent_snoc, app_nil_r.
Qed.

(** The request text of a call at a manager whose handler answers at
    once: the handler is invoked with the three fields of the call, nothing
    stays registered, and the reply is the last message handed to [send]. *)
Lemma request_answered_at_once b handler script result o id proxyId path args :
  plain id = true -> plain proxyId = true -> plain path = true ->
  handler (Some (JStr proxyId)) (Some (JStr path)) (Some (JArr args)) = (script, result) ->
  match result with
  | Returns v => o = Ok v
  | Throws e => o = Err e
  | ReturnsPromise _ => False
  end ->
  exists b1,
    _receiveOneMessage (Some (MessageFactory.request id proxyId path args))
      (setManyHandler (Some handler) b) = Return b1
    /\ invocations (trace b1)
       = invocations (trace b) ++ [(Some (JStr proxyId), Some (JStr path), Some (JArr args))]
    /\ last (sent (trace b1)) = Some (reply_text id o)
    /\ _invokedHandlers b1 = delete id (_invokedHandlers b).
Proof.
  intros Hplain Hproxy Hpath Hhandler Ho.
  set (msg := JObj [("req", JStr id); ("rpcId", JStr proxyId);
                    ("method", JStr path); ("args", JArr args)]).
  set (b0 := setManyHandler (Some handler) b).
  set (b1 := reenter script
               (log (EvInvoke (Some (JStr proxyId)) (Some (JStr path)) (Some (JArr args))) b0)).
  set (b2 := log (EvRegister id)
               (upd_invokedHandlers (fun m => <[id := promise_for result]> m) b1)).
  assert (Hb : _receiveOneMessage (Some (MessageFactory.request id proxyId path args)) b0
               = Return (completed id o b2)).
  { rewrite (request_is_stringify _ _ _ args Hplain Hproxy Hpath). fold msg.
    rewrite (receive_request _ msg b0 handler script result id
               (parse_stringify msg) eq_refl eq_refl Hhandler eq_refl).
    fold b1. fold b2. destruct result; try contradiction; now subst o. }
  destruct (completed_fields id o b2) as (Htrace & Hinvoked & _).
  exists (completed id o b2). split; [exact Hb|]. split.
  { rewrite invocations_completed. unfold b2. gfields. rewrite invocations_snoc, app_nil_r.
    unfold b1. rewrite (invocations_only_sends _ _ (only_sends_reenter _ _)).
    unfold b0. gfields. now rewrite invocations_snoc. }
  split; [rewrite Htrace, sent_completion; apply last_snoc|].
  rewrite Hinvoked. unfold b2. gfields.
  destruct (untouched_reenter script
              (log (EvInvoke (Some (JStr proxyId)) (Some (JStr path)) (Some (JArr args))) b0))
    as (Hsame & _).
  fold b1 in Hsame. rewrite Hsame. unfold b0. gfields. apply delete_insert_eq.
Qed.

(** A reply for the id of the call just made, at the caller: it resolves
    the deferred result that the call returned. *)
Lemma reply_resolves_the_new_call proxyId path args a raw msg :
  marshalling.parse raw = Some msg ->
  truthy (get msg "seq") = true ->
  ToString (get msg "seq") = Some (next_id a) ->
  exists a2 more,
    _receiveOneMessage (Some raw) (fst (callOnRemote proxyId path args a)) = Return a2
    /\ trace a2 = trace (fst (callOnRemote proxyId path args a))
                  ++ [EvForget (next_id a); EvResolve (length (heap a)) (reply_outcome msg)]
                  ++ more
    /\ state <$> heap a2 !! length (heap a) = Some (terminal (reply_outcome msg)).
Proof.
  intros Hparse Hseq Hid.
  destruct (core_callOnRemote proxyId path args a) as (_ & Hpending & Hheap & _).
  set (a1 := fst (callOnRemote proxyId path args a)) in *.
  set (a2 := log (EvResolve (length (heap a)) (reply_outcome msg))
               (log (EvForget (next_id a))
                  (upd_pendingRPCReplies (delete (next_id a)) a1))).
  assert (Hd : heap a2 !! length (heap a) = Some (lazyPromise.create (next_id a))).
  { unfold a2. gfields. rewrite Hheap. now apply list_lookup_middle. }
  destruct (resolve_pending _ (reply_outcome msg) a2 _ Hd eq_refl) as [[more Hmore] Hstate].
  exists (lazyPromise.resolve reenter (length (heap a)) (reply_outcome msg) a2), more.
  split.
  { apply receive_reply; try assumption. rewrite Hpending. apply lookup_insert_eq. }
  split; [|exact Hstate].
  rewrite Hmore. unfold a2. gfields. now rewrite <- !app_assoc.
Qed.

(** X6. A call and its answer, across the two managers of a channel. The
    caller's [callOnRemote] sends the request text of the new id; at the
    peer, where a handler was set that returns a value for these arguments,
    the dispatch of that text invokes the handler with the proxy id, the
    path and the arguments of the call, leaves nothing registered and sends
    the reply text of the id with the value; and the dispatch of that reply
    at the caller resolves the deferred result that [callOnRemote]
    returned, with the value the handler returned. *)
Theorem call_is_answered_with_the_result
    (a b : World) (proxyId path : string) (args : list json)
    (handler : IManyHandler) (script : list reentry) (res : jsval) :
  plain proxyId = true -> plain path = true ->
  handler (Some (JStr proxyId)) (Some (JStr path)) (Some (JArr args)) = (script, Returns res) ->
  let id := next_id a in
  let request := MessageFactory.request id proxyId path args in
  let reply := MessageFactory.replyOK id res in
  let a1 := fst (callOnRemote proxyId path args a) in
  let result := snd (callOnRemote proxyId path args a) in
  last (sent (trace a1)) = Some request
  /\ exists b1 a2 more,
       _receiveOneMessage (Some request) (setManyHandler (Some handler) b) = Return b1
       /\ invocations (trace b1)
          = invocations (trace b) ++ [(Some (JStr proxyId), Some (JStr path), Some (JArr args))]
       /\ last (sent (trace b1)) = Some reply
       /\ _invokedHandlers b1 = delete id (_invokedHandlers b)
       /\ _receiveOneMessage (Some reply) a1 = Return a2
       /\ trace a2 = trace a1 ++ [EvForget id; EvResolve result (Ok res)] ++ more
       /\ state <$> heap a2 !! result = Some (ResolvedOk res).
Proof.
  intros Hproxy Hpath Hhandler. cbn zeta.
  pose proof (Number_toString_plain (increment (_lastMessageId a))) as Hplain.
  pose proof (Number_toString_nonempty (increment (_lastMessageId a))) as Hne.
  fold (next_id a) in Hplain, Hne.
  destruct (core_callOnRemote proxyId path args a) as (_ & _ & _ & _ & ->).
  split; [rewrite callOnRemote_trace, sent_snoc; apply last_snoc|].
  destruct (request_answered_at_once b handler script (Returns res) (Ok res) (next_id a)
              proxyId path args Hplain Hproxy Hpath Hhandler eq_refl)
    as (b1 & Hb & Hinvoked & Hreply & Hregistered).
  set (msg := JObj (("seq", JStr (next_id a))
                    :: match res with Some r => [("res", r)] | None => [] end)).
  destruct (reply_resolves_the_new_call proxyId path args a
              (MessageFactory.replyOK (next_id a) res) msg)
    as (a2 & more & Ha & Htrace & Hstate).
  { rewrite (replyOK_is_stringify _ _ Hplain). apply parse_stringify. }
  { destruct res; now apply truthy_text. }
  { now destruct res. }
  assert (Ho : reply_outcome msg = Ok res) by now destruct res.
  rewrite Ho in Htrace, Hstate.
  exists b1, a2, more. repeat split; assumption.
Qed.

Lemma call_is_answered_with_the_result_witness :
  plain "svc.foo" = true /\ plain "bar" = true
  /\ exists b1 a2 more,
       _receiveOneMessage (Some scenario_request)
         (setManyHandler (Some answering_handler) create) = Return b1
       /\ last (sent (trace b1)) = Some scenario_reply_42
       /\ _receiveOneMessage (Some scenario_reply_42) scenario_called = Return a2
       /\ trace a2 = trace scenario_called
                     ++ [EvForget "1"; EvResolve 0 (Ok (Some (JNum 42)))] ++ more
       /\ state <$> heap a2 !! 0%nat = Some (ResolvedOk (Some (JNum 42))).
Proof.
  split; [reflexivity|]. split; [reflexivity|].
  destruct (call_is_answered_with_the_result create create "svc.foo" "bar" [JNum 1; JNum 2]
              answering_handler [] (Some (JNum 42)) eq_refl eq_refl eq_refl)
    as (_ & b1 & a2 & more & Hb & _ & Hreply & _ & Ha & Htrace & Hstate).
  exists b1, a2, more. repeat split; assumption.
Defined.

(** X7. A call whose handler throws, across the two managers of a channel:
    the exception does not leave the dispatch at the peer, which sends the
    error reply of the id; and the dispatch of that reply at the caller
    makes the deferred result that [callOnRemote] returned fail with an
    [Error] that has the name, the message and the stack of the one the
    handler threw. *)
Theorem call_fails_with_the_error_thrown
    (a b : World) (proxyId path : string) (args : list json)
    (handler : IManyHandler) (script : list reentry) (name message stack : jsval) :
  plain proxyId = true -> plain path = true ->
  handler (Some (JStr proxyId)) (Some (JStr path)) (Some (JArr args))
    = (script, Throws (ErrorObject name message stack)) ->
  let id := next_id a in
  let request := MessageFactory.request id proxyId path args in
  let reply := MessageFactory.replyErr id (ErrorObject name message stack) in
  let a1 := fst (callOnRemote proxyId path args a) in
  let result := snd (callOnRemote proxyId path args a) in
  exists b1 a2 more,
    _receiveOneMessage (Some request) (setManyHandler (Some handler) b) = Return b1
    /\ last (sent (trace b1)) = Some reply
    /\ _invokedHandlers b1 = delete id (_invokedHandlers b)
    /\ _receiveOneMessage (Some reply) a1 = Return a2
    /\ trace a2 = trace a1
                  ++ [EvForget id; EvResolve result (Err (ErrorObject name message stack))]
                  ++ more
    /\ state <$> heap a2 !! result = Some (ResolvedError (ErrorObject name message stack)).
Proof.
  intros Hproxy Hpath Hhandler. cbn zeta.
  pose proof (Number_toString_plain (increment (_lastMessageId a))) as Hplain.
  pose proof (Number_toString_nonempty (increment (_lastMessageId a))) as Hne.
  fold (next_id a) in Hplain, Hne.
  destruct (core_callOnRemote proxyId path args a) as (_ & _ & _ & _ & ->).
  destruct (request_answered_at_once b handler script (Throws (ErrorObject name message stack))
              (Err (ErrorObject name message stack)) (next_id a)
              proxyId path args Hplain Hproxy Hpath Hhandler eq_refl)
    as (b1 & Hb & _ & Hreply & Hregistered).
  set (msg := JObj [("seq", JStr (next_id a));
                    ("err", errors.transformErrorForSerialization
                              (ErrorObject name message stack))]).
  destruct (reply_resolves_the_new_call proxyId path args a
              (MessageFactory.replyErr (next_id a) (ErrorObject name message stack)) msg)
    as (a2 & more & Ha & Htrace & Hstate).
  { rewrite (replyErr_is_stringify _ _ Hplain). apply parse_stringify. }
  { now apply truthy_text. }
  { reflexivity. }
  assert (Ho : reply_outcome msg = Err (ErrorObject name message stack)).
  { destruct (revived_error name message stack) as (H1 & H2 & H3 & H4 & H5).
    unfold reply_outcome.
    change (get msg "err")
      with (Some (errors.transformErrorForSerialization (ErrorObject name message stack))).
    cbn zeta in H1, H2, H3, H4, H5. now rewrite H1, H2, H3, H4, H5. }
  rewrite Ho in Htrace, Hstate.
  exists b1, a2, more. repeat split; assumption.
Qed.

Lemma call_fails_with_the_error_thrown_witness :
  let e := ErrorObject (Some (JStr "Error")) (Some (JStr "no such file")) None in
  let failing : IManyHandler := fun _ _ _ => ([], Throws e) in
  plain "svc.foo" = true /\ plain "bar" = true
  /\ exists b1 a2 more,
       _receiveOneMessage (Some scenario_request) (setManyHandler (Some failing) create)
         = Return b1
       /\ last (sent (trace b1)) = Some (MessageFactory.replyErr "1" e)
       /\ _receiveOneMessage (Some (MessageFactory.replyErr "1" e)) scenario_called = Return a2
       /\ trace a2 = trace scenario_called ++ [EvForget "1"; EvResolve 0 (Err e)] ++ more
       /\ state <$> heap a2 !! 0%nat = Some (ResolvedError e).
Proof.
  intros e failing.
  split; [reflexivity|]. split; [reflexivity|].
  destruct (call_fails_with_the_error_thrown create create "svc.foo" "bar" [JNum 1; JNum 2]
              failing [] (Some (JStr "Error")) (Some (JStr "no such file")) None
              eq_refl eq_refl eq_refl)
    as (b1 & a2 & more & Hb & Hreply & _ & Ha & Htrace & Hstate).
  exists b1, a2, more. repeat split; assumption.
Defined.

Lemma cancel_pending_trace l d w :
  heap w !! l = Some d -> state d = Pending -> cancelRequested d = false ->
  trace (lazyPromise.cancel l w) = trace w ++ [EvSend (MessageFactory.cancel (onCancel d))].
Proof.
  intros Hd Hs Hc. unfold lazyPromise.cancel. rewrite Hd, Hs, Hc. gfields.
  now destruct (send_fields (MessageFactory.cancel (onCancel d)) w) as (_ & -> & _).
Qed.

(** ** The sending side over a whole run *)

Lemma foldl_preserves {A} (P : World -> Prop) (f : World -> A -> World) (l : list A) w :
  (forall w a, P w -> P (f w a)) -> P w -> P (foldl f w l).
Proof.
  intros Hf. revert w. induction l as [|a l IH]; intros w HP; [exact HP|].
  cbn [foldl]. apply IH, Hf, HP.
Qed.

Lemma flushes_app q1 q2 : flushes (q1 ++ q2) = (flushes q1 + flushes q2)%nat.
Proof. induction q1 as [|[] q1 IH]; cbn; lia. Qed.

Lemma Out_core w w' : outcore w' = outcore w -> Out w -> Out w'.
Proof.
  unfold outcore. intros [= H1 H2 H3 H4] [O1 O2 O3].
  split; rewrite ?H1, ?H2, ?H3, ?H4; assumption.
Qed.

Lemma Out_create : Out create.
Proof. split; cbn; [reflexivity | reflexivity | constructor]. Qed.

Lemma outcore_log e w :
  (forall msg, e <> EvSend msg) -> (forall batch, e <> EvProtocolSend batch) ->
  outcore (log e w) = outcore w.
Proof.
  intros Hs Hb. unfold outcore. gfields. rewrite sent_snoc, batches_snoc.
  destruct e; rewrite ?app_nil_r; try reflexivity;
    [now destruct (Hb batch) | now destruct (Hs msg)].
Qed.

Lemma Out_log e w :
  (forall msg, e <> EvSend msg) -> (forall batch, e <> EvProtocolSend batch) ->
  Out w -> Out (log e w).
Proof. intros Hs Hb. apply Out_core. now apply outcore_log. Qed.

Lemma Out_send msg w : Out w -> Out (RPCMultiplexer.send msg w).
Proof.
  intros [O1 O2 O3]. destruct (send_fields msg w) as (Hb & Ht & Hq & _).
  split; rewrite ?Hb, ?Ht, ?Hq, ?sent_snoc, ?batches_snoc, ?flushes_app, ?app_nil_r.
  - rewrite O1. now destruct (_messagesToSend w).
  - now rewrite app_assoc, O2.
  - exact O3.
Qed.

Lemma Out_cancel l w : Out w -> Out (lazyPromise.cancel l w).
Proof.
  intros HO. unfold lazyPromise.cancel.
  destruct (heap w !! l) as [d|]; [|exact HO].
  destruct (state d); try exact HO.
  destruct (cancelRequested d); [exact HO|].
  eapply Out_core; [|apply Out_send, HO]. reflexivity.
Qed.

Lemma Out_attach l k w : Out w -> Out (lazyPromise.then_ (fun _ w => w) l k w).
Proof.
  intros HO. unfold lazyPromise.then_.
  destruct (heap w !! l) as [d|]; [|exact HO].
  destruct (state d); try exact HO. eapply Out_core; [|exact HO]. reflexivity.
Qed.

Lemma Out_callOnRemote proxyId path args w :
  Out w -> Out (fst (callOnRemote proxyId path args w)).
Proof.
  intros HO. unfold callOnRemote. cbn [fst]. apply Out_send.
  eapply Out_core; [|exact HO]. reflexivity.
Qed.

Lemma Out_reenter1 w r : Out w -> Out (reenter1 w r).
Proof.
  intros HO. destruct r as [proxyId path args ks|handler|l]; cbn [reenter1].
  - pose proof (Out_callOnRemote proxyId path args w HO) as H.
    destruct (callOnRemote proxyId path args w) as [w1 result]. cbn [fst] in H.
    apply foldl_preserves; [|exact H]. intros; now apply Out_attach.
  - eapply Out_core; [|exact HO]. reflexivity.
  - now apply Out_cancel.
Qed.

Lemma Out_reenter script w : Out w -> Out (reenter script w).
Proof. unfold reenter. apply foldl_preserves. intros; now apply Out_reenter1. Qed.

Lemma Out_resolve l o w : Out w -> Out (lazyPromise.resolve reenter l o w).
Proof.
  intros HO. unfold lazyPromise.resolve.
  destruct (heap w !! l) as [d|]; [|exact HO].
  destruct (state d); try exact HO.
  apply foldl_preserves; [intros; now apply Out_reenter|].
  eapply Out_core; [|exact HO]. reflexivity.
Qed.

Lemma Out_then l k w : Out w -> Out (lazyPromise.then_ reenter l k w).
Proof.
  intros HO. unfold lazyPromise.then_.
  destruct (heap w !! l) as [d|]; [|exact HO].
  destruct (state d); try (now apply Out_reenter).
  eapply Out_core; [|exact HO]. reflexivity.
Qed.

Lemma Out_completed req o w : Out w -> Out (completed req o w).
Proof.
  intros HO. unfold completed. destruct o; cbn zeta; apply Out_send;
    (apply Out_log; [discriminate | discriminate |]);
    (eapply Out_core; [|exact HO]); reflexivity.
Qed.

Lemma Out_settle p o w : Out w -> Out (settle p o w).
Proof.
  intros HO. unfold settle. destruct (settled (promise_of w p)); [exact HO|].
  apply foldl_preserves; [intros; now apply Out_completed|].
  eapply Out_core; [|exact HO]. reflexivity.
Qed.

Lemma Out_promise_then promise req w : Out w -> Out (then_ promise req w).
Proof.
  intros HO. destruct promise as [v|e|p]; cbn [then_]; try (now apply Out_completed).
  destruct (settled (promise_of w p)); [now apply Out_completed|].
  eapply Out_core; [|exact HO]. reflexivity.
Qed.

Lemma Out_promise_cancel promise w : Out w -> Out (cancel promise w).
Proof.
  intros HO. destruct promise as [v|e|p]; try exact HO. cbn [cancel].
  destruct (whenCancelled p); [apply Out_settle|]; (eapply Out_core; [|exact HO]); reflexivity.
Qed.

Lemma Out_receiveOneMessage rawmsg w :
  Out w -> Out (world_of (_receiveOneMessage rawmsg w)).
Proof.
  intros HO.
  destruct (marshalling.parse (default "undefined" rawmsg)) as [msg|] eqn:Hparse;
    [|unfold _receiveOneMessage; now rewrite Hparse].
  assert (Hcases : msg = JNull \/ msg <> JNull) by (destruct msg; auto; right; discriminate).
  destruct Hcases as [->|Hnull]; [unfold _receiveOneMessage; now rewrite Hparse|].
  rewrite (receive_parsed_any rawmsg msg w Hparse Hnull).
  destruct (truthy (get msg "seq")).
  { destruct (ToString (get msg "seq")) as [seq|]; [|exact HO].
    destruct (_pendingRPCReplies w !! seq) as [reply|].
    - cbn zeta. unfold resolveErr, resolveOk.
      destruct (truthy (get msg "err")); cbn [world_of]; apply Out_resolve;
        (apply Out_log; [discriminate | discriminate |]);
        (apply Out_log; [discriminate | discriminate |]);
        (eapply Out_core; [|exact HO]); reflexivity.
    - cbn [world_of]. now apply Out_log. }
  destruct (truthy (get msg "cancel")).
  { destruct (ToString (get msg "cancel")) as [key|]; [|exact HO].
    destruct (_invokedHandlers w !! key); cbn [world_of]; [|exact HO].
    apply Out_promise_cancel. now apply Out_log. }
  destruct (truthy (get msg "err")); [cbn [world_of]; now apply Out_log|].
  destruct (_bigHandler w) as [handler|]; [|exact HO].
  unfold _invokeHandler.
  destruct (handler _ _ _) as [script result]. cbn zeta.
  assert (HO1 : Out (reenter script
                 (log (EvInvoke (get msg "rpcId") (get msg "method") (get msg "args")) w)))
    by (apply Out_reenter; now apply Out_log).
  destruct result; (destruct (ToString (get msg "req")) as [req|]; [|exact HO1]);
    cbn [world_of]; apply Out_promise_then;
    (apply Out_log; [discriminate | discriminate |]);
    (eapply Out_core; [|exact HO1]); reflexivity.
Qed.

Lemma Out_tick w : Out w -> Out (tick w).
Proof.
  intros HO. unfold tick. destruct (nextTickQueue w) as [|callback queue] eqn:Hqueue;
    [exact HO|].
  cbn zeta. destruct callback; cbn [runTask].
  - unfold RPCMultiplexer._receiveOneMessage. cbn zeta.
    match goal with |- Out (match _receiveOneMessage ?r ?w4 with _ => _ end) =>
      assert (H4 : Out w4); [|
        pose proof (Out_receiveOneMessage r w4 H4) as H;
        destruct (_receiveOneMessage r w4); cbn [world_of] in H;
        [exact H | now apply Out_log]] end.
    destruct HO as [O1 O2 O3]. rewrite Hqueue in O1. cbn [flushes] in O1.
    match goal with |- context [if ?b then _ else _] => destruct b end;
      split; gfields;
      rewrite ?sent_snoc, ?batches_snoc, ?flushes_app, ?app_nil_r; cbn [flushes];
      rewrite ?Nat.add_0_r; assumption.
  - destruct HO as [O1 O2 O3]. rewrite Hqueue in O1. cbn [flushes] in O1.
    unfold RPCMultiplexer._sendAccumulated. cbn zeta.
    destruct (_messagesToSend w) as [|m buffer] eqn:Hbuffer; [discriminate|].
    injection O1 as O1.
    split; gfields; rewrite ?Hbuffer, ?sent_snoc, ?batches_snoc, ?app_nil_r.
    + exact O1.
    + rewrite concat_app. cbn [concat]. now rewrite !app_nil_r.
    + apply Forall_app. split; [exact O3|]. repeat constructor. discriminate.
Qed.

Lemma Out_step w a : Out w -> Out (step w a).
Proof.
  intros HO. destruct a as [data| |r|l k|p o]; cbn [step].
  - unfold RPCMultiplexer.onMessage. destruct HO as [O1 O2 O3].
    match goal with |- context [if ?b then _ else _] => destruct b end;
      split; gfields; rewrite ?flushes_app, ?Nat.add_0_r; assumption.
  - now apply Out_tick.
  - now apply Out_reenter1.
  - now apply Out_then.
  - now apply Out_settle.
Qed.

Lemma Out_run acts w : Out w -> Out (run acts w).
Proof. unfold run. apply foldl_preserves. intros; now apply Out_step. Qed.

Lemma iter_tick_preserves (P : World -> Prop) n w :
  (forall w, P w -> P (tick w)) -> P w -> P (Nat.iter n tick w).
Proof. intros Hf HP. induction n as [|n IH]; [exact HP | now apply Hf]. Qed.

(** ** The ticks that are still to come *)

Lemma tick_flush_muxcore w queue :
  nextTickQueue w = sendAccumulatedBound :: queue ->
  muxcore (tick w)
  = (_messagesToReceive w, S (ticks w), dispatched (trace w), receives queue).
Proof.
  intros H. unfold tick. rewrite H. cbn [runTask].
  unfold RPCMultiplexer._sendAccumulated, muxcore. cbn zeta. gfields.
  now rewrite !dispatched_snoc, !app_nil_r.
Qed.

Lemma tick_receive_muxcore w queue :
  nextTickQueue w = receiveOneMessageBound :: queue ->
  muxcore (tick w)
  = (drop 1 (_messagesToReceive w), S (ticks w),
     dispatched (trace w) ++ [(S (ticks w), head (_messagesToReceive w))],
     (receives queue
      + if Nat.ltb 0 (length (drop 1 (_messagesToReceive w))) then 1 else 0)%nat).
Proof.
  intros H. unfold tick. rewrite H. cbn [runTask].
  unfold RPCMultiplexer._receiveOneMessage. cbn zeta.
  match goal with |- context [_receiveOneMessage ?r ?w4] =>
    pose proof (muxcore_receiveOneMessage r w4) as Hcore;
    assert (H4 : muxcore w4
                 = (drop 1 (_messagesToReceive w), S (ticks w),
                    dispatched (trace w) ++ [(S (ticks w), head (_messagesToReceive w))],
                    (receives queue
                     + if Nat.ltb 0 (length (drop 1 (_messagesToReceive w)))
                       then 1 else 0)%nat));
    [|destruct (_receiveOneMessage r w4) as [w'|e w']; cbn [world_of] in Hcore;
      [|rewrite muxcore_log by discriminate]; now rewrite Hcore]
  end.
  unfold muxcore. gfields.
  destruct (Nat.ltb 0 (length (drop 1 (_messagesToReceive w)))); gfields;
    rewrite !dispatched_snoc, ?receives_app, app_nil_r; cbn [receives];
    rewrite ?Nat.add_0_r; reflexivity.
Qed.

(** Each tick that finds a callback scheduled lowers the backlog, so enough
    ticks empty the [process.nextTick] queue. *)
Lemma queue_drains w : Out w -> exists n, nextTickQueue (Nat.iter n tick w) = [].
Proof.
  remember (backlog w) as k eqn:Hk. revert w Hk.
  induction k as [k IH] using lt_wf_ind. intros w -> HO.
  pose proof (Out_tick w HO) as HO'. pose proof (out_scheduled _ HO') as Hs.
  destruct (nextTickQueue w) as [|[] queue] eqn:Hqueue.
  - now exists 0%nat.
  - assert (Hless : (backlog (tick w) < backlog w)%nat).
    { pose proof (tick_receive_muxcore w queue Hqueue) as Hm. unfold muxcore in Hm.
      injection Hm as H1 _ _ H4. unfold backlog. rewrite H1, H4, Hs, Hqueue.
      cbn [receives flushes].
      destruct (_messagesToReceive w) as [|m [|m' rest]]; cbn [drop length Nat.ltb Nat.leb];
        destruct (_messagesToSend (tick w)); lia. }
    destruct (IH _ Hless (tick w) eq_refl HO') as [n Hn].
    exists (S n). now rewrite Nat.iter_succ_r.
  - assert (Hless : (backlog (tick w) < backlog w)%nat).
    { pose proof (tick_flush_muxcore w queue Hqueue) as Hm. unfold muxcore in Hm.
      injection Hm as H1 _ _ H4.
      destruct (tick_flush w queue Hqueue) as [Hq _].
      unfold backlog. rewrite H1, Hq, Hqueue. cbn [receives flushes]. lia. }
    destruct (IH _ Hless (tick w) eq_refl HO') as [n Hn].
    exists (S n). now rewrite Nat.iter_succ_r.
Qed.

(** X9. Over everything that can happen to a manager (batches arrive, ticks
    run, the program calls, cancels and attaches continuations, handlers'
    promises settle), the sending side loses, repeats and reorders nothing:
    the batches handed to the transport, one after the other and followed
    by the buffer, are the messages handed to [send] in order; the
    transport is never handed an empty batch; a flush is scheduled exactly
    when the buffer is not empty; and enough further ticks empty the
    [process.nextTick] queue and the buffer, every message handed to [send]
    having reached the transport by then. *)
Theorem sent_messages_reach_the_transport_in_order (acts : list action) :
  let w := run acts create in
  concat (batches (trace w)) ++ _messagesToSend w = sent (trace w)
  /\ Forall (fun batch => batch <> []) (batches (trace w))
  /\ flushes (nextTickQueue w) = (if decide (_messagesToSend w = []) then 0 else 1)%nat
  /\ exists n,
       let w' := Nat.iter n tick w in
       nextTickQueue w' = [] /\ _messagesToSend w' = []
       /\ concat (batches (trace w')) = sent (trace w')
       /\ Forall (fun batch => batch <> []) (batches (trace w')).
Proof.
  cbn zeta. pose proof (Out_run acts create Out_create) as HO.
  split; [apply (out_fifo _ HO)|]. split; [apply (out_batches _ HO)|]. split.
  { rewrite (out_scheduled _ HO). now destruct (_messagesToSend (run acts create)). }
  destruct (queue_drains _ HO) as [n Hn]. exists n.
  pose proof (iter_tick_preserves Out n _ Out_tick HO) as HO'.
  assert (Hbuffer : _messagesToSend (Nat.iter n tick (run acts create)) = []).
  { pose proof (out_scheduled _ HO') as Hs. rewrite Hn in Hs.
    now destruct (_messagesToSend (Nat.iter n tick (run acts create))). }
  split; [exact Hn|]. split; [exact Hbuffer|]. split; [|apply (out_batches _ HO')].
  pose proof (out_fifo _ HO') as Hfifo. now rewrite Hbuffer, app_nil_r in Hfifo.
Qed.

(** ** The receiving side when empty batches arrive *)








(** ** The bookkeeping of calls and of invocations *)

(** X11. On every manager that can arise, an id under which a call is pending
    is the decimal text of a number from 1 to the counter, which is at most
    2^53; the deferred result filed under it is the one whose cancel action
    sends the Cancel message of that same id; and the reply path has not
    resolved that deferred result. *)
Theorem pending_ids_were_issued (w : World) (k : string) (l : nat) :
  reachable w ->
  _pendingRPCReplies w !! k = Some l ->
  (exists n, 1 <= n <= _lastMessageId w /\ _lastMessageId w <= 2 ^ 53
             /\ k = Number_toString n)
  /\ onCancel <$> heap w !! l = Some k
  /\ l ∉ resolved (trace w).
Proof.
  intros HI%Inv_reachable Hk.
  destruct (inv_pending w HI k l Hk) as ((n & Hn & ->) & Hl & Hfresh).
  pose proof (inv_counter w HI) as Hc.
  split; [exists n; repeat split; lia|]. split; [|exact Hfresh].
  now rewrite list_lookup_fmap in Hl.
Qed.

Lemma pending_ids_were_issued_witness :
  reachable scenario_called
  /\ _pendingRPCReplies scenario_called !! "1" = Some 0%nat
  /\ onCancel <$> heap scenario_called !! 0%nat = Some "1"
  /\ 0%nat ∉ resolved (trace scenario_called).
Proof.
  assert (Hpending : _pendingRPCReplies scenario_called !! "1" = Some 0%nat)
    by (vm_compute; reflexivity).
  split; [exact scenario_called_reachable|]. split; [exact Hpending|].
  exact (proj2 (pending_ids_were_issued scenario_called "1" 0
                  scenario_called_reachable Hpending)).
Defined.

(** X12. Two requests in flight under one id. The registration of the second
    replaces the one of the first, and the completion callbacks delete by
    id: when the first invocation completes, its reply is sent and the
    registration of the second, which is still running, is gone, so that a
    Cancel message for the id no longer reaches it; and when the second
    completes, a second reply with the same [seq] is sent. *)
Theorem requests_that_share_an_id
    (w : World) (raw1 raw2 : string) (msg1 msg2 : json) (handler : IManyHandler)
    (req : string) (p1 p2 : nat) :
  marshalling.parse raw1 = Some msg1 -> classify msg1 = Some Request ->
  ToString (get msg1 "req") = Some req ->
  marshalling.parse raw2 = Some msg2 -> classify msg2 = Some Request ->
  ToString (get msg2 "req") = Some req ->
  _bigHandler w = Some handler ->
  handler (get msg1 "rpcId") (get msg1 "method") (get msg1 "args") = ([], ReturnsPromise p1) ->
  handler (get msg2 "rpcId") (get msg2 "method") (get msg2 "args") = ([], ReturnsPromise p2) ->
  p1 <> p2 -> promises w !! p1 = None -> promises w !! p2 = None ->
  exists w1 w2,
    _receiveOneMessage (Some raw1) w = Return w1
    /\ _receiveOneMessage (Some raw2) w1 = Return w2
    /\ _invokedHandlers w2 !! req = Some (Returned p2)
    /\ forall o,
         let w3 := settle p1 o w2 in
         sent (trace w3) = sent (trace w2) ++ [reply_text req o]
         /\ _invokedHandlers w3 !! req = None
         /\ settled (promise_of w3 p2) = None
         /\ (forall rawc msgc,
               marshalling.parse rawc = Some msgc ->
               classify msgc = Some Cancel ->
               ToString (get msgc "cancel") = Some req ->
               _receiveOneMessage (Some rawc) w3 = Return w3)
         /\ forall o', sent (trace (settle p2 o' w3)) = sent (trace w3) ++ [reply_text req o'].
Proof.
  intros Hparse1 Hclass1 Hreq1 Hparse2 Hclass2 Hreq2 Hhandler Hres1 Hres2 Hne Hp1 Hp2.
  rewrite (receive_request raw1 msg1 w handler [] (ReturnsPromise p1) req
             Hparse1 Hclass1 Hhandler Hres1 Hreq1).
  cbn [promise_for reenter foldl then_].
  set (v1 := log (EvRegister req) _).
  rewrite (promise_of_fresh v1 p1 Hp1). cbn [settled callbacks cancels app].
  set (w1 := upd_promises _ v1).
  assert (Hhandler1 : _bigHandler w1 = Some handler) by exact Hhandler.
  exists w1.
  rewrite (receive_request raw2 msg2 w1 handler [] (ReturnsPromise p2) req
             Hparse2 Hclass2 Hhandler1 Hres2 Hreq2).
  cbn [promise_for reenter foldl then_].
  set (v2 := log (EvRegister req) _).
  assert (Hp2' : promises v2 !! p2 = None).
  { unfold v2, w1. gfields. now rewrite lookup_insert_ne by congruence. }
  rewrite (promise_of_fresh v2 p2 Hp2'). cbn [settled callbacks cancels app].
  set (w2 := upd_promises _ v2).
  exists w2. split; [reflexivity|]. split; [reflexivity|].
  split; [unfold w2, v2; gfields; apply lookup_insert_eq|].
  intros o. cbn zeta.
  assert (Hpo1 : promise_of w2 p1 = mkHandlerPromise None [req] 0).
  { unfold promise_of, w2, v2, w1. gfields.
    rewrite lookup_insert_ne by congruence. now rewrite lookup_insert_eq. }
  set (u3 := upd_promises (fun m => <[p1 := mkHandlerPromise (Some o) [req] 0]> m) w2).
  assert (Hsettle : settle p1 o w2 = completed req o u3).
  { unfold settle. rewrite Hpo1. reflexivity. }
  rewrite Hsettle. destruct (completed_fields req o u3) as (Ht3 & Hi3 & Hpr3).
  assert (Hpo2 : promise_of (completed req o u3) p2 = mkHandlerPromise None [req] 0).
  { unfold promise_of. rewrite Hpr3. unfold u3, w2. gfields.
    rewrite lookup_insert_ne by congruence. now rewrite lookup_insert_eq. }
  assert (Hgone : _invokedHandlers (completed req o u3) !! req = None).
  { rewrite Hi3. apply lookup_delete_eq. }
  assert (Hsent : forall u q, sent (trace u ++ [EvDeregister req; EvSend (reply_text req q)])
                              = sent (trace u) ++ [reply_text req q]).
  { intros u q.
    change [EvDeregister req; EvSend (reply_text req q)]
      with ([EvDeregister req] ++ [EvSend (reply_text req q)]).
    now rewrite app_assoc, !sent_snoc, app_nil_r. }
  split; [rewrite Ht3, Hsent; reflexivity|]. split; [exact Hgone|].
  split; [now rewrite Hpo2|]. split.
  - intros rawc msgc Hparsec Hclassc Hkey.
    destruct (classify_cancel msgc Hclassc) as (Hnullc & Hseqc & Hcancelc).
    rewrite (receive_parsed rawc msgc _ Hparsec Hnullc), Hseqc, Hcancelc, Hkey.
    now rewrite Hgone.
  - intros o'. unfold settle. rewrite Hpo2. cbn [settled callbacks cancels foldl].
    match goal with |- context [completed req o' ?u] =>
      destruct (completed_fields req o' u) as (-> & _) end.
    rewrite Hsent. reflexivity.
Qed.


Lemma requests_that_share_an_id_witness :
  let w := setManyHandler (Some two_promises_handler) create in
  let raw2 := MessageFactory.request "1" "svc.foo" "baz" [] in
  let msg2 := JObj [("req", JStr "1"); ("rpcId", JStr "svc.foo"); ("method", JStr "baz");
                    ("args", JArr [])] in
  marshalling.parse scenario_request = Some scenario_request_msg
  /\ marshalling.parse raw2 = Some msg2
  /\ exists w1 w2,
       _receiveOneMessage (Some scenario_request) w = Return w1
       /\ _receiveOneMessage (Some raw2) w1 = Return w2
       /\ _invokedHandlers w2 !! "1" = Some (Returned 1)
       /\ _invokedHandlers (settle 0 (Ok None) w2) !! "1" = None
       /\ settled (promise_of (settle 0 (Ok None) w2) 1) = None.
Proof.
  intros w raw2 msg2.
  assert (Hparse1 : marshalling.parse scenario_request = Some scenario_request_msg)
    by (vm_compute; reflexivity).
  assert (Hparse2 : marshalling.parse raw2 = Some msg2) by (vm_compute; reflexivity).
  assert (Hne : 0%nat <> 1%nat) by discriminate.
  assert (Hp1 : promises w !! 0%nat = None) by (vm_compute; reflexivity).
  assert (Hp2 : promises w !! 1%nat = None) by (vm_compute; reflexivity).
  split; [exact Hparse1|]. split; [exact Hparse2|].
  destruct (requests_that_share_an_id w scenario_request raw2 scenario_request_msg msg2
              two_promises_handler "1" 0 1 Hparse1 eq_refl eq_refl Hparse2 eq_refl eq_refl
              eq_refl eq_refl eq_refl Hne Hp1 Hp2)
    as (w1 & w2 & H1 & H2 & H3 & H4).
  destruct (H4 (Ok None)) as (_ & Hgone & Hrunning & _).
  exists w1, w2. repeat split; assumption.
Defined.

(** ** Calls made in one stack *)

Lemma callOnRemote_fields proxyId path args w :
  _messagesToSend (fst (callOnRemote proxyId path args w))
  = _messagesToSend w ++ [MessageFactory.request (next_id w) proxyId path args]
  /\ nextTickQueue (fst (callOnRemote proxyId path args w))
     = nextTickQueue w ++ (if Nat.eqb (length (_messagesToSend w)) 0
                           then [sendAccumulatedBound] else [])
  /\ ticks (fst (callOnRemote proxyId path args w)) = ticks w.
Proof.
  unfold callOnRemote. cbn [fst].
  match goal with |- context [RPCMultiplexer.send ?m ?w0] =>
    destruct (send_fields m w0) as (-> & _ & -> & _ & -> & _) end.
  repeat split.
Qed.

Lemma call_all_cons proxyId path args rest w :
  call_all ((proxyId, path, args) :: rest) w
  = call_all rest (fst (callOnRemote proxyId path args w)).
Proof. reflexivity. Qed.

Lemma call_all_nonempty_buffer calls w :
  _messagesToSend w <> [] ->
  _messagesToSend (call_all calls w)
  = _messagesToSend w ++ request_texts (_lastMessageId w) calls
  /\ nextTickQueue (call_all calls w) = nextTickQueue w
  /\ ticks (call_all calls w) = ticks w
  /\ sent (trace (call_all calls w))
     = sent (trace w) ++ request_texts (_lastMessageId w) calls.
Proof.
  revert w. induction calls as [|[[proxyId path] args] rest IH]; intros w Hw.
  - cbn. now rewrite !app_nil_r.
  - rewrite call_all_cons. cbn [request_texts].
    destruct (callOnRemote_fields proxyId path args w) as (Hb & Hq & Ht).
    destruct (core_callOnRemote proxyId path args w) as (Hlast & _).
    pose proof (callOnRemote_trace proxyId path args w) as Htrace.
    destruct (IH (fst (callOnRemote proxyId path args w))) as (Hb' & Hq' & Ht' & Hs').
    { rewrite Hb. now destruct (_messagesToSend w). }
    rewrite Hb', Hq', Ht', Hs', Hb, Hq, Ht, Hlast, Htrace, sent_snoc.
    destruct (_messagesToSend w); [congruence|]. cbn [length Nat.eqb].
    unfold next_id. now rewrite app_nil_r, <- !app_assoc.
Qed.

(** X13. The calls that a program makes in one stack, on a manager whose send
    buffer and [process.nextTick] queue are empty: each call hands one
    request text to [send], with the ids that follow the counter, and
    together they schedule one flush; the next tick hands the transport one
    batch, the request texts of the calls in call order, and leaves the
    buffer and the queue empty. *)
Theorem calls_of_one_stack_leave_in_one_batch
    (w : World) (calls : list (string * string * list json)) :
  calls <> [] ->
  _messagesToSend w = [] ->
  nextTickQueue w = [] ->
  let w' := call_all calls w in
  sent (trace w') = sent (trace w) ++ request_texts (_lastMessageId w) calls
  /\ nextTickQueue w' = [sendAccumulatedBound]
  /\ batches (trace (tick w'))
     = batches (trace w) ++ [request_texts (_lastMessageId w) calls]
  /\ sent (trace (tick w')) = sent (trace w')
  /\ _messagesToSend (tick w') = []
  /\ nextTickQueue (tick w') = [].
Proof.
  intros Hcalls Hbuffer Hqueue. destruct calls as [|[[proxyId path] args] rest]; [congruence|].
  cbn zeta. rewrite call_all_cons. cbn [request_texts].
  destruct (callOnRemote_fields proxyId path args w) as (Hb & Hq & Ht).
  destruct (core_callOnRemote proxyId path args w) as (Hlast & _).
  pose proof (callOnRemote_trace proxyId path args w) as Htrace.
  rewrite Hbuffer in Hb, Hq. rewrite Hqueue in Hq. cbn [app length Nat.eqb] in Hb, Hq.
  destruct (call_all_nonempty_buffer rest (fst (callOnRemote proxyId path args w)))
    as (Hb' & Hq' & Ht' & Hs'); [now rewrite Hb|].
  rewrite Hb, Hlast in Hb'. rewrite Hq in Hq'. rewrite Ht in Ht'.
  rewrite Htrace, sent_snoc, Hlast, <- app_assoc in Hs'. cbn [app] in Hb', Hs'.
  fold (next_id w) in Hb', Hs' |- *.
  set (w' := call_all rest (fst (callOnRemote proxyId path args w))) in *.
  assert (Hbatches : batches (trace w') = batches (trace w)).
  { pose proof (only_sends_foldl
                  (fun w c => fst (callOnRemote c.1.1 c.1.2 c.2 w)) rest
                  (fst (callOnRemote proxyId path args w))
                  (fun w c => only_sends_callOnRemote _ _ _ w)) as [msgs Hmsgs].
    fold (call_all rest (fst (callOnRemote proxyId path args w))) in Hmsgs. fold w' in Hmsgs.
    rewrite Hmsgs, Htrace. unfold batches. rewrite !omap_app. cbn [omap].
    rewrite app_nil_r.
    replace (omap _ (EvSend <$> msgs)) with (@nil (list string)); [apply app_nil_r|].
    clear. induction msgs as [|m msgs IH]; [reflexivity | exact IH]. }
  split; [exact Hs'|]. split; [exact Hq'|].
  unfold tick. rewrite Hq'. cbn [runTask].
  unfold RPCMultiplexer._sendAccumulated. gfields.
  rewrite Hb', !batches_snoc, !sent_snoc, !app_nil_r, Hbatches.
  repeat split.
Qed.

Lemma calls_of_one_stack_leave_in_one_batch_witness :
  let calls := [("svc.foo", "bar", [JNum 1; JNum 2]); ("svc.foo", "baz", [])] in
  calls <> [] /\ _messagesToSend create = [] /\ nextTickQueue create = []
  /\ batches (trace (tick (call_all calls create)))
     = [[scenario_request; MessageFactory.request "2" "svc.foo" "baz" []]].
Proof.
  intros calls.
  assert (Hcalls : calls <> []) by discriminate.
  split; [exact Hcalls|]. split; [reflexivity|]. split; [reflexivity|].
  destruct (calls_of_one_stack_leave_in_one_batch create calls Hcalls eq_refl eq_refl)
    as (_ & _ & Hbatch & _).
  exact Hbatch.
Defined.


(** ** Registrations and the promises they await *)

Lemma promise_of_same w w' p :
  promises w' !! p = promises w !! p -> promise_of w' p = promise_of w p.
Proof. intros H. unfold promise_of. now rewrite H. Qed.

Lemma Registered_same w w' :
  _invokedHandlers w' = _invokedHandlers w -> promises w' = promises w ->
  Registered w -> Registered w'.
Proof.
  intros Hi Hp HR req promise. unfold promise_of. rewrite Hi, Hp. apply HR.
Qed.

Lemma Registered_untouched w w' : untouched w w' -> Registered w -> Registered w'.
Proof. intros (Hi & Hp & _). now apply Registered_same. Qed.

Lemma untouched_resolve l o w : untouched w (lazyPromise.resolve reenter l o w).
Proof.
  unfold lazyPromise.resolve.
  destruct (heap w !! l) as [d|]; [|apply untouched_refl].
  destruct (state d); try apply untouched_refl.
  eapply untouched_trans; [|apply untouched_foldl; intros; apply untouched_reenter].
  repeat split.
Qed.

Lemma untouched_then l k w : untouched w (lazyPromise.then_ reenter l k w).
Proof.
  unfold lazyPromise.then_.
  destruct (heap w !! l) as [d|]; [|apply untouched_refl].
  destruct (state d); try apply untouched_reenter. repeat split.
Qed.

Lemma completed_all o cbs w :
  promises (foldl (fun w req => completed req o w) w cbs) = promises w
  /\ forall req promise,
       _invokedHandlers (foldl (fun w req => completed req o w) w cbs) !! req = Some promise ->
       (req ∉ cbs) /\ _invokedHandlers w !! req = Some promise.
Proof.
  revert w. induction cbs as [|r cbs IH]; intros w; cbn [foldl].
  - split; [reflexivity|]. intros req promise H. split; [apply not_elem_of_nil | exact H].
  - destruct (IH (completed r o w)) as [Hp Hi].
    destruct (completed_fields r o w) as (_ & Hdel & Hsame).
    split; [now rewrite Hp|]. intros req promise H.
    destruct (Hi req promise H) as [Hnot Hlook]. rewrite Hdel in Hlook.
    apply lookup_delete_Some in Hlook as [Hne Hlook].
    split; [|exact Hlook]. rewrite not_elem_of_cons. split; [congruence | exact Hnot].
Qed.

Lemma Registered_settle p o w : Registered w -> Registered (settle p o w).
Proof.
  intros HR. unfold settle.
  destruct (settled (promise_of w p)) eqn:Hsettled; [exact HR|].
  set (w1 := upd_promises _ w).
  destruct (completed_all o (callbacks (promise_of w p)) w1) as [Hp Hi].
  intros req promise Hreq. destruct (Hi req promise Hreq) as [Hnot Hlook].
  destruct (HR req promise Hlook) as (p' & -> & Hpending & Hin).
  exists p'. split; [reflexivity|].
  assert (Hne : p' <> p) by (intros ->; contradiction).
  rewrite (promise_of_same w _ p'); [split; assumption|].
  rewrite Hp. unfold w1. gfields. now rewrite lookup_insert_ne by congruence.
Qed.

Lemma Registered_register promise req w :
  Registered w ->
  Registered (then_ promise req
                (log (EvRegister req)
                   (upd_invokedHandlers (fun m => <[req := promise]> m) w))).
Proof.
  intros HR.
  set (w2 := log (EvRegister req) (upd_invokedHandlers (fun m => <[req := promise]> m) w)).
  assert (Hdone : forall o, Registered (completed req o w2)).
  { intros o r pr. destruct (completed_fields req o w2) as (_ & Hdel & Hsame).
    unfold promise_of. rewrite Hdel, Hsame. unfold w2. gfields.
    rewrite delete_insert_eq. intros [_ Hlook]%lookup_delete_Some. now apply HR. }
  destruct promise as [v|e|p]; cbn [then_]; try apply Hdone.
  destruct (settled (promise_of w2 p)) eqn:Hsettled; [apply Hdone|].
  intros r pr. unfold promise_of, w2. gfields.
  destruct (decide (r = req)) as [->|Hne].
  - rewrite lookup_insert_eq. intros [= <-]. exists p. split; [reflexivity|].
    rewrite lookup_insert_eq. cbn. split; [reflexivity|].
    apply elem_of_app. right. apply list_elem_of_singleton. reflexivity.
  - rewrite lookup_insert_ne by congruence. intros Hlook.
    destruct (HR r pr Hlook) as (p' & -> & Hpending & Hin).
    exists p'. split; [reflexivity|].
    destruct (decide (p' = p)) as [->|Hp].
    + rewrite lookup_insert_eq. cbn. split; [reflexivity|].
      apply elem_of_app. left. exact Hin.
    + rewrite lookup_insert_ne by congruence. split; assumption.
Qed.

Lemma Registered_promise_cancel promise w : Registered w -> Registered (cancel promise w).
Proof.
  intros HR. destruct promise as [v|e|p]; try exact HR. cbn [cancel].
  set (w1 := upd_promises _ w).
  assert (HR1 : Registered w1).
  { intros r pr Hlook. destruct (HR r pr Hlook) as (p' & -> & Hpending & Hin).
    exists p'. split; [reflexivity|]. unfold promise_of, w1. gfields.
    destruct (decide (p' = p)) as [->|Hp].
    - rewrite lookup_insert_eq. cbn. split; assumption.
    - rewrite lookup_insert_ne by congruence. split; assumption. }
  destruct (whenCancelled p); [now apply Registered_settle | exact HR1].
Qed.

Lemma Registered_receiveOneMessage rawmsg w :
  Registered w -> Registered (world_of (_receiveOneMessage rawmsg w)).
Proof.
  intros HR.
  destruct (marshalling.parse (default "undefined" rawmsg)) as [msg|] eqn:Hparse;
    [|unfold _receiveOneMessage; now rewrite Hparse].
  assert (Hcases : msg = JNull \/ msg <> JNull) by (destruct msg; auto; right; discriminate).
  destruct Hcases as [->|Hnull]; [unfold _receiveOneMessage; now rewrite Hparse|].
  rewrite (receive_parsed_any rawmsg msg w Hparse Hnull).
  destruct (truthy (get msg "seq")).
  { destruct (ToString (get msg "seq")) as [seq|]; [|exact HR].
    destruct (_pendingRPCReplies w !! seq) as [reply|].
    - cbn zeta. unfold resolveErr, resolveOk.
      destruct (truthy (get msg "err")); cbn [world_of];
        (eapply Registered_untouched; [apply untouched_resolve|]);
        (eapply Registered_same; [| |exact HR]); reflexivity.
    - cbn [world_of]. eapply Registered_same; [| |exact HR]; reflexivity. }
  destruct (truthy (get msg "cancel")).
  { destruct (ToString (get msg "cancel")) as [key|]; [|exact HR].
    destruct (_invokedHandlers w !! key); cbn [world_of]; [|exact HR].
    apply Registered_promise_cancel. eapply Registered_same; [| |exact HR]; reflexivity. }
  destruct (truthy (get msg "err"));
    [cbn [world_of]; eapply Registered_same; [| |exact HR]; reflexivity|].
  destruct (_bigHandler w) as [handler|]; [|exact HR].
  unfold _invokeHandler.
  destruct (handler _ _ _) as [script result]. cbn zeta.
  assert (HR1 : Registered (reenter script
                 (log (EvInvoke (get msg "rpcId") (get msg "method") (get msg "args")) w))).
  { eapply Registered_untouched; [apply untouched_reenter|].
    eapply Registered_same; [| |exact HR]; reflexivity. }
  destruct result; (destruct (ToString (get msg "req")) as [req|]; [|exact HR1]);
    cbn [world_of]; now apply Registered_register.
Qed.

Lemma Registered_tick w : Registered w -> Registered (tick w).
Proof.
  intros HR. unfold tick. destruct (nextTickQueue w) as [|callback queue]; [exact HR|].
  cbn zeta. destruct callback; cbn [runTask].
  - unfold RPCMultiplexer._receiveOneMessage. cbn zeta.
    match goal with |- Registered (match _receiveOneMessage ?r ?w4 with _ => _ end) =>
      assert (H4 : Registered w4); [|
        pose proof (Registered_receiveOneMessage r w4 H4) as H;
        destruct (_receiveOneMessage r w4); cbn [world_of] in H;
        [exact H | eapply Registered_same; [| |exact H]; reflexivity]] end.
    match goal with |- context [if ?b then _ else _] => destruct b end;
      (eapply Registered_same; [| |exact HR]); reflexivity.
  - eapply Registered_same; [| |exact HR]; reflexivity.
Qed.

Lemma Registered_step w a : Registered w -> Registered (step w a).
Proof.
  intros HR. destruct a as [data| |r|l k|p o]; cbn [step].
  - unfold RPCMultiplexer.onMessage.
    match goal with |- context [if ?b then _ else _] => destruct b end;
      (eapply Registered_same; [| |exact HR]); reflexivity.
  - now apply Registered_tick.
  - eapply Registered_untouched; [apply untouched_reenter1 | exact HR].
  - eapply Registered_untouched; [apply untouched_then | exact HR].
  - now apply Registered_settle.
Qed.

(** X14. On every manager that can arise, no registration outlives its
    invocation: whatever is registered in [_invokedHandlers] is a promise
    that a handler returned and that has not settled yet, and the
    completion callback for the id is attached to it; an invocation that
    completed at once, by a value or by an exception, is not registered
    once its dispatch has returned. *)
Theorem registered_invocations_await_their_promise
    (w : World) (req : string) (promise : TPromise) :
  reachable w ->
  _invokedHandlers w !! req = Some promise ->
  exists p, promise = Returned p /\ settled (promise_of w p) = None
            /\ req ∈ callbacks (promise_of w p).
Proof.
  intros [acts ->]. revert req promise. change (Registered (run acts create)).
  unfold run. apply foldl_preserves; [intros; now apply Registered_step|].
  intros req promise H. cbn in H. now rewrite lookup_empty in H.
Qed.

Lemma registered_invocations_await_their_promise_witness :
  let w := run [Do (ReSetManyHandler (Some deferring_handler)); Arrive [scenario_request]; Tick]
             create in
  reachable w
  /\ _invokedHandlers w !! "1" = Some (Returned 0)
  /\ exists p, Returned 0 = Returned p /\ settled (promise_of w p) = None
               /\ "1" ∈ callbacks (promise_of w p).
Proof.
  intros w.
  assert (Hreach : reachable w) by (eexists; reflexivity).
  assert (Hlook : _invokedHandlers w !! "1" = Some (Returned 0)) by (vm_compute; reflexivity).
  split; [exact Hreach|]. split; [exact Hlook|].
  exact (registered_invocations_await_their_promise w "1" (Returned 0) Hreach Hlook).
Defined.


(** ** A request that arrives before the handler *)

(** X15. A request that arrives at an idle manager before a handler was set is
    lost: the tick that delivers it takes it from the receive queue, the
    dispatch throws, and the exception leaves the callback; no reply is
    sent, nothing is registered, and nothing is scheduled that would
    deliver the message again once a handler is set. *)
Theorem request_before_the_handler_is_lost (w : World) (raw : string) (msg : json) :
  marshalling.parse raw = Some msg ->
  classify msg = Some Request ->
  _bigHandler w = None ->
  _messagesToReceive w = [] ->
  nextTickQueue w = [] ->
  let w' := tick (RPCMultiplexer.onMessage [raw] w) in
  trace w' = trace w ++ [EvTick (S (ticks w)); EvDispatch (S (ticks w)) (Some raw);
                         EvUncaught (Error "got message before big handler attached!")]
  /\ _messagesToReceive w' = [] /\ nextTickQueue w' = []
  /\ _invokedHandlers w' = _invokedHandlers w
  /\ _messagesToSend w' = _messagesToSend w
  /\ forall handler,
       tick (setManyHandler (Some handler) w') = setManyHandler (Some handler) w'.
Proof.
  intros Hparse Hclass Hnone Hreceive Hqueue. cbn zeta.
  destruct (classify_request msg Hclass) as (Hnull & Hseq & Hcancel & Herr).
  destruct w as [handler0 last invoked pending buffer inbox objects settled0 queue now0 log0].
  cbn [_bigHandler _messagesToReceive nextTickQueue] in Hnone, Hreceive, Hqueue. subst.
  unfold RPCMultiplexer.onMessage, tick, runTask, RPCMultiplexer._receiveOneMessage.
  cbn -[_receiveOneMessage].
  rewrite (receive_parsed raw msg _ Hparse Hnull), Hseq, Hcancel, Herr.
  cbn. rewrite <- !app_assoc. repeat split.
Qed.

Lemma request_before_the_handler_is_lost_witness :
  marshalling.parse scenario_request = Some scenario_request_msg
  /\ classify scenario_request_msg = Some Request
  /\ trace (tick (RPCMultiplexer.onMessage [scenario_request] create))
     = [EvTick 1; EvDispatch 1 (Some scenario_request);
        EvUncaught (Error "got message before big handler attached!")]
  /\ nextTickQueue (tick (RPCMultiplexer.onMessage [scenario_request] create)) = [].
Proof.
  assert (Hparse : marshalling.parse scenario_request = Some scenario_request_msg)
    by (vm_compute; reflexivity).
  split; [exact Hparse|]. split; [reflexivity|].
  destruct (request_before_the_handler_is_lost create scenario_request scenario_request_msg
              Hparse eq_refl eq_refl eq_refl eq_refl) as (Htrace & _ & Hqueue & _).
  split; [exact Htrace | exact Hqueue].
Defined.

(** * Properties over whole runs *)

(** * What lasts over a run *)

Lemma follows_refl w : follows w w.
Proof. split; [|split]; [exists [] | exists [] | lia]; now rewrite app_nil_r. Qed.

Lemma follows_trans w1 w2 w3 : follows w1 w2 -> follows w2 w3 -> follows w1 w3.
Proof.
  intros ([m1 T1] & [i1 H1] & L1) ([m2 T2] & [i2 H2] & L2). split; [|split].
  - exists (m1 ++ m2). now rewrite T2, T1, app_assoc.
  - exists (i1 ++ i2). now rewrite H2, H1, app_assoc.
  - lia.
Qed.

Lemma follows_core w w' :
  core w' = core w -> (exists more, trace w' = trace w ++ more) -> follows w w'.
Proof.
  unfold core. intros [= H1 _ H3 _] Hmore. split; [exact Hmore|]. split; [|lia].
  exists []. now rewrite app_nil_r.
Qed.

Lemma follows_log e w : follows w (log e w).
Proof.
  split; [now exists [e]|]. split; [exists []; now rewrite app_nil_r | reflexivity].
Qed.

Lemma follows_send msg w : follows w (RPCMultiplexer.send msg w).
Proof. apply follows_core; [apply core_send | apply grows_send]. Qed.

Lemma follows_cancel l w : follows w (lazyPromise.cancel l w).
Proof. apply follows_core; [apply core_cancel | apply grows_cancel]. Qed.

Lemma follows_attach l k w : follows w (lazyPromise.then_ (fun _ w => w) l k w).
Proof. apply follows_core; [apply core_attach | apply grows_attach]. Qed.

Lemma follows_callOnRemote proxyId path args w :
  follows w (fst (callOnRemote proxyId path args w)).
Proof.
  destruct (core_callOnRemote proxyId path args w) as (H1 & _ & H3 & _).
  split; [rewrite callOnRemote_trace; eauto|].
  split.
  - rewrite H3, fmap_app. eauto.
  - rewrite H1. unfold increment. destruct (_lastMessageId w <? 2 ^ 53); lia.
Qed.

Lemma follows_foldl {A} (f : World -> A -> World) (l : list A) w :
  (forall w a, follows w (f w a)) -> follows w (foldl f w l).
Proof.
  intros Hf. revert w. induction l as [|a l IH]; intros w; [apply follows_refl|].
  cbn [foldl]. eapply follows_trans; [apply Hf | apply IH].
Qed.

Lemma follows_reenter1 w r : follows w (reenter1 w r).
Proof.
  destruct r as [proxyId path args ks|handler|l]; cbn [reenter1].
  - pose proof (follows_callOnRemote proxyId path args w) as H.
    destruct (callOnRemote proxyId path args w) as [w1 result]. cbn [fst] in H.
    eapply follows_trans; [exact H|].
    apply follows_foldl. intros; apply follows_attach.
  - apply follows_core; [reflexivity|]. exists []. cbn. now rewrite app_nil_r.
  - apply follows_cancel.
Qed.

Lemma follows_reenter script w : follows w (reenter script w).
Proof. unfold reenter. apply follows_foldl, follows_reenter1. Qed.

Lemma follows_heap_insert w l d d' :
  heap w !! l = Some d -> onCancel d' = onCancel d ->
  follows w (upd_heap (fun h => <[l := d']> h) w).
Proof.
  intros Hd Hc. apply follows_core; [now apply core_heap_insert with (d := d)|].
  exists []. gfields. now rewrite app_nil_r.
Qed.

Lemma follows_resolve l o w : follows w (lazyPromise.resolve reenter l o w).
Proof.
  unfold lazyPromise.resolve.
  destruct (heap w !! l) as [d|] eqn:Hd; [|apply follows_refl].
  destruct (state d); try apply follows_refl.
  eapply follows_trans; [|apply follows_foldl; intros; apply follows_reenter].
  now apply follows_heap_insert with (d := d).
Qed.

Lemma follows_then l k w : follows w (lazyPromise.then_ reenter l k w).
Proof.
  unfold lazyPromise.then_.
  destruct (heap w !! l) as [d|] eqn:Hd; [|apply follows_refl].
  destruct (state d); try apply follows_reenter.
  now apply follows_heap_insert with (d := d).
Qed.

Lemma follows_completed req o w : follows w (completed req o w).
Proof.
  apply follows_core; [apply core_completed|].
  destruct (completed_fields req o w) as (-> & _). eauto.
Qed.

Lemma follows_settle p o w : follows w (settle p o w).
Proof.
  unfold settle. destruct (settled (promise_of w p)); [apply follows_refl|].
  eapply follows_trans; [|apply follows_foldl; intros; apply follows_completed].
  apply follows_core; [reflexivity|]. exists []. gfields. now rewrite app_nil_r.
Qed.

Lemma follows_promise_then promise req w : follows w (then_ promise req w).
Proof.
  destruct promise as [v|e|p]; cbn [then_]; try apply follows_completed.
  destruct (settled (promise_of w p)); [apply follows_completed|].
  apply follows_core; [reflexivity|]. exists []. gfields. now rewrite app_nil_r.
Qed.

Lemma follows_promise_cancel promise w : follows w (cancel promise w).
Proof.
  destruct promise as [v|e|p]; try apply follows_refl. cbn [cancel].
  assert (H : follows w
                (upd_promises (fun m => <[p := mkHandlerPromise (settled (promise_of w p))
                                               (callbacks (promise_of w p))
                                               (S (cancels (promise_of w p)))]> m) w)).
  { apply follows_core; [reflexivity|]. exists []. gfields. now rewrite app_nil_r. }
  destruct (whenCancelled p); [|exact H].
  eapply follows_trans; [exact H | apply follows_settle].
Qed.

Lemma follows_upd_same w w' :
  trace w' = trace w -> heap w' = heap w -> _lastMessageId w' = _lastMessageId w ->
  follows w w'.
Proof.
  intros Ht Hh Hl. split; [|split].
  - exists []. now rewrite app_nil_r.
  - exists []. now rewrite Hh, app_nil_r.
  - lia.
Qed.

Lemma follows_receiveOneMessage rawmsg w :
  follows w (world_of (_receiveOneMessage rawmsg w)).
Proof.
  destruct (marshalling.parse (default "undefined" rawmsg)) as [msg|] eqn:Hparse;
    [|unfold _receiveOneMessage; rewrite Hparse; apply follows_refl].
  assert (Hcases : msg = JNull \/ msg <> JNull) by (destruct msg; auto; right; discriminate).
  destruct Hcases as [->|Hnull];
    [unfold _receiveOneMessage; rewrite Hparse; apply follows_refl|].
  rewrite (receive_parsed_any rawmsg msg w Hparse Hnull).
  destruct (truthy (get msg "seq")).
  { destruct (ToString (get msg "seq")) as [seq|]; [|apply follows_refl].
    destruct (_pendingRPCReplies w !! seq) as [reply|].
    - cbn zeta. unfold resolveErr, resolveOk.
      destruct (truthy (get msg "err")); cbn [world_of];
        (eapply follows_trans; [|apply follows_resolve]);
        (eapply follows_trans; [|apply follows_log]);
        (eapply follows_trans; [|apply follows_log]);
        now apply follows_upd_same.
    - cbn [world_of]. apply follows_log. }
  destruct (truthy (get msg "cancel")).
  { destruct (ToString (get msg "cancel")) as [key|]; [|apply follows_refl].
    destruct (_invokedHandlers w !! key); cbn [world_of]; [|apply follows_refl].
    eapply follows_trans; [apply follows_log | apply follows_promise_cancel]. }
  destruct (truthy (get msg "err")); [cbn [world_of]; apply follows_log|].
  destruct (_bigHandler w) as [handler|]; [|apply follows_refl].
  unfold _invokeHandler.
  destruct (handler _ _ _) as [script result]. cbn zeta.
  assert (H1 : follows w (reenter script
                 (log (EvInvoke (get msg "rpcId") (get msg "method") (get msg "args")) w)))
    by (eapply follows_trans; [apply follows_log | apply follows_reenter]).
  destruct result; (destruct (ToString (get msg "req")) as [req|]; [|exact H1]);
    cbn [world_of];
    (eapply follows_trans; [|apply follows_promise_then]);
    (eapply follows_trans; [|apply follows_log]);
    (eapply follows_trans; [exact H1|]); now apply follows_upd_same.
Qed.

Lemma follows_tick w : follows w (tick w).
Proof.
  unfold tick. destruct (nextTickQueue w) as [|callback queue]; [apply follows_refl|].
  cbn zeta.
  set (w1 := log _ _).
  assert (H1 : follows w w1).
  { subst w1. eapply follows_trans; [|apply follows_log]. now apply follows_upd_same. }
  destruct callback; cbn [runTask].
  - unfold RPCMultiplexer._receiveOneMessage. cbn zeta.
    set (w2 := log _ _).
    assert (H2 : follows w w2).
    { subst w2. eapply follows_trans; [|apply follows_log].
      eapply follows_trans; [exact H1|].
      match goal with |- follows _ (if ?b then _ else _) => destruct b end;
        now apply follows_upd_same. }
    pose proof (follows_receiveOneMessage (head (_messagesToReceive w1)) w2) as H.
    destruct (_receiveOneMessage _ w2); cbn [world_of] in H.
    + eapply follows_trans; [exact H2 | exact H].
    + eapply follows_trans; [exact H2|]. eapply follows_trans; [exact H | apply follows_log].
  - unfold RPCMultiplexer._sendAccumulated. cbn zeta.
    eapply follows_trans; [exact H1|]. eapply follows_trans; [|apply follows_log].
    now apply follows_upd_same.
Qed.

Lemma follows_step w a : follows w (step w a).
Proof.
  destruct a as [data| |r|l k|p o]; cbn [step].
  - unfold RPCMultiplexer.onMessage.
    match goal with |- context [if ?b then _ else _] => destruct b end;
      now apply follows_upd_same.
  - apply follows_tick.
  - apply follows_reenter1.
  - apply follows_then.
  - apply follows_settle.
Qed.

Lemma follows_run acts w : follows w (run acts w).
Proof. unfold run. apply follows_foldl, follows_step. Qed.

Lemma sent_app t1 t2 : sent (t1 ++ t2) = sent t1 ++ sent t2.
Proof. unfold sent. apply omap_app. Qed.

Lemma batches_app t1 t2 : batches (t1 ++ t2) = batches t1 ++ batches t2.
Proof. unfold batches. apply omap_app. Qed.

Lemma Out_reachable w : reachable w -> Out w.
Proof. intros [acts ->]. apply Out_run, Out_create. Qed.

(** * The batch that the sends of one step leave in *)

(** C4, as the code has it. A step (a tick, or a call, a cancellation, a
    continuation or a settlement made by the program) that hands K >= 1
    messages to [send] leaves exactly one flush scheduled. Whatever steps
    follow before that flush runs, the flush hands the transport one batch:
    what earlier steps had left in the buffer, then the K messages of the
    step in the order they were passed to [send], then what the later
    steps passed to [send]. So the K messages leave together, in one
    transport [send], in order; and the batch holds exactly those K
    messages when the buffer was empty at the start of the step and no
    other step sends before the flush runs. *)
Theorem C4_sends_of_one_step_leave_in_one_batch
    (w : World) (a : action) (later : list action) (queue : list task) :
  reachable w ->
  let w1 := step w a in
  let w2 := run later w1 in
  sent (trace w1) <> sent (trace w) ->
  batches (trace w2) = batches (trace w) ->
  nextTickQueue w2 = sendAccumulatedBound :: queue ->
  exists msgs more,
    msgs <> []
    /\ sent (trace w1) = sent (trace w) ++ msgs
    /\ sent (trace w2) = sent (trace w1) ++ more
    /\ flushes (nextTickQueue w1) = 1%nat
    /\ batches (trace (tick w2)) = batches (trace w) ++ [_messagesToSend w ++ msgs ++ more]
    /\ sent (trace (tick w2)) = sent (trace w2)
    /\ _messagesToSend (tick w2) = []
    /\ (_messagesToSend w = [] -> more = [] ->
        batches (trace (tick w2)) = batches (trace w) ++ [msgs]).
Proof.
  intros HO%Out_reachable. cbn zeta. intros Hsends Hbatches Hqueue.
  pose proof (Out_step w a HO) as HO1.
  pose proof (Out_run later _ HO1) as HO2.
  destruct (follows_step w a) as ([more1 T1] & _).
  destruct (follows_run later (step w a)) as ([more2 T2] & _).
  assert (Hs1 : sent (trace (step w a)) = sent (trace w) ++ sent more1)
    by now rewrite T1, sent_app.
  assert (Hs2 : sent (trace (run later (step w a))) = sent (trace (step w a)) ++ sent more2)
    by now rewrite T2, sent_app.
  assert (Hmsgs : sent more1 <> []).
  { intros Hnil. apply Hsends. now rewrite Hs1, Hnil, app_nil_r. }
  assert (Hb : batches more1 = [] /\ batches more2 = []).
  { rewrite T2, T1, !batches_app, <- app_assoc in Hbatches.
    rewrite <- (app_nil_r (batches (trace w))) in Hbatches at 2.
    apply app_inv_head in Hbatches. now apply app_eq_nil in Hbatches. }
  destruct Hb as [Hb1 Hb2].
  assert (Hbuf1 : _messagesToSend (step w a) = _messagesToSend w ++ sent more1).
  { pose proof (out_fifo _ HO1) as H1. pose proof (out_fifo _ HO) as H0.
    rewrite T1, batches_app, Hb1, app_nil_r, sent_app, <- H0, <- app_assoc in H1.
    now apply app_inv_head in H1. }
  assert (Hbuf2 : _messagesToSend (run later (step w a))
                  = _messagesToSend w ++ sent more1 ++ sent more2).
  { pose proof (out_fifo _ HO2) as H2. pose proof (out_fifo _ HO1) as H1.
    rewrite T2, batches_app, Hb2, app_nil_r, sent_app, <- H1, <- app_assoc in H2.
    apply app_inv_head in H2. now rewrite H2, Hbuf1, <- app_assoc. }
  assert (Htick : batches (trace (tick (run later (step w a))))
                  = batches (trace w) ++ [_messagesToSend w ++ sent more1 ++ sent more2]
                  /\ sent (trace (tick (run later (step w a))))
                     = sent (trace (run later (step w a)))
                  /\ _messagesToSend (tick (run later (step w a))) = []).
  { unfold tick. rewrite Hqueue. cbn [runTask].
    unfold RPCMultiplexer._sendAccumulated. gfields.
    now rewrite !batches_snoc, !sent_snoc, !app_nil_r, Hbatches, Hbuf2. }
  destruct Htick as (Hbatch & Hsame & Hempty).
  exists (sent more1), (sent more2).
  split; [exact Hmsgs|]. split; [exact Hs1|]. split; [exact Hs2|].
  split.
  { rewrite (out_scheduled _ HO1), Hbuf1.
    destruct (_messagesToSend w); [|reflexivity]. cbn [app].
    now destruct (sent more1). }
  split; [exact Hbatch|]. split; [exact Hsame|]. split; [exact Hempty|].
  intros Hstart Hnothing. now rewrite Hbatch, Hstart, Hnothing, app_nil_r.
Qed.

Lemma C4_sends_of_one_step_leave_in_one_batch_witness :
  let a := Do (ReCallOnRemote "svc.foo" "bar" [JNum 1; JNum 2] []) in
  let later := [Do (ReCallOnRemote "svc.foo" "baz" [] [])] in
  let w1 := step create a in
  let w2 := run later w1 in
  reachable create
  /\ sent (trace w1) <> sent (trace create)
  /\ batches (trace w2) = batches (trace create)
  /\ nextTickQueue w2 = [sendAccumulatedBound]
  /\ exists msgs more,
       msgs <> []
       /\ sent (trace w1) = sent (trace create) ++ msgs
       /\ sent (trace w2) = sent (trace w1) ++ more
       /\ batches (trace (tick w2))
          = batches (trace create) ++ [_messagesToSend create ++ msgs ++ more]
       /\ _messagesToSend (tick w2) = [].
Proof.
  intros a later w1 w2.
  assert (Hsends : sent (trace w1) <> sent (trace create)) by (vm_compute; discriminate).
  assert (Hbatches : batches (trace w2) = batches (trace create)) by (vm_compute; reflexivity).
  assert (Hqueue : nextTickQueue w2 = [sendAccumulatedBound]) by (vm_compute; reflexivity).
  split; [apply reachable_create|]. split; [exact Hsends|]. split; [exact Hbatches|].
  split; [exact Hqueue|].
  destruct (C4_sends_of_one_step_leave_in_one_batch create a later [] reachable_create
              Hsends Hbatches Hqueue)
    as (msgs & more & H1 & H2 & H3 & _ & H5 & _ & H7 & _).
  exists msgs, more. repeat split; assumption.
Defined.

(** C4 as stated fails in an ordinary run: two requests arrive in one
    batch at a manager whose handler answers at once. The tick that
    dispatches the first hands one reply to [send], the tick that
    dispatches the second hands one more, and the flush, which runs after
    both, hands the transport one batch of two: neither step's message
    leaves in a batch of its own. *)
Lemma C4_replies_of_two_ticks_share_a_batch :
  let second := MessageFactory.request "2" "svc.foo" "bar" [JNum 1; JNum 2] in
  let reply2 := MessageFactory.replyOK "2" (Some (JNum 42)) in
  let w0 := run [Do (ReSetManyHandler (Some answering_handler));
                 Arrive [scenario_request; second]] create in
  sent (trace w0) = []
  /\ sent (trace (tick w0)) = [scenario_reply_42]
  /\ sent (trace (tick (tick w0))) = [scenario_reply_42; reply2]
  /\ batches (trace (tick (tick w0))) = []
  /\ batches (trace (tick (tick (tick w0)))) = [[scenario_reply_42; reply2]]
  /\ nextTickQueue (tick (tick (tick w0))) = [].
Proof. vm_compute. repeat split. Qed.

(** * Messages that arrive before a handler *)

(** C7. With no handler registered, a message that the dispatch sorts as a
    request makes it throw, and the state is as before. The other kinds
    never meet the handler test and are processed as they always are: a
    reply warns when its id is unknown and otherwise deletes the entry and
    resolves the deferred result with the outcome the message carries; a
    cancellation invokes the cancel capability of the invocation
    registered under its id, if there is one; a bare error is logged. (The
    id of a reply or of a cancellation is one that can name a property, as
    every text is.) *)
Theorem C7_request_without_handler_throws (w : World) (raw : string) (msg : json) :
  marshalling.parse raw = Some msg ->
  _bigHandler w = None ->
  match classify msg with
  | Some Request =>
      _receiveOneMessage (Some raw) w
      = Throw (Error "got message before big handler attached!") w
  | Some Reply =>
      forall seq, ToString (get msg "seq") = Some seq ->
      _receiveOneMessage (Some raw) w
      = Return match _pendingRPCReplies w !! seq with
               | Some reply =>
                   lazyPromise.resolve reenter reply (reply_outcome msg)
                     (log (EvResolve reply (reply_outcome msg))
                        (log (EvForget seq) (upd_pendingRPCReplies (delete seq) w)))
               | None => log (EvWarn "Got reply to unknown seq") w
               end
  | Some Cancel =>
      forall key, ToString (get msg "cancel") = Some key ->
      _receiveOneMessage (Some raw) w
      = Return match _invokedHandlers w !! key with
               | Some promise => cancel promise (log (EvCancel key) w)
               | None => w
               end
  | Some BareError =>
      _receiveOneMessage (Some raw) w = Return (log (EvError (get msg "err")) w)
  | None => True
  end.
Proof.
  intros Hparse Hnone.
  assert (Hcases : msg = JNull \/ msg <> JNull) by (destruct msg; auto; right; discriminate).
  destruct Hcases as [->|Hnull]; [exact I|].
  rewrite (receive_parsed raw msg w Hparse Hnull).
  assert (Hk : classify msg =
               Some (if truthy (get msg "seq") then Reply
                     else if truthy (get msg "cancel") then Cancel
                     else if truthy (get msg "err") then BareError else Request)).
  { destruct msg; try congruence; reflexivity. }
  rewrite Hk. unfold reply_outcome, resolveErr, resolveOk.
  destruct (truthy (get msg "seq")).
  { intros seq ->. destruct (_pendingRPCReplies w !! seq); [|reflexivity].
    cbn zeta. now destruct (truthy (get msg "err")). }
  destruct (truthy (get msg "cancel")).
  { intros key ->. now destruct (_invokedHandlers w !! key). }
  destruct (truthy (get msg "err")); [reflexivity|].
  now rewrite Hnone.
Qed.

Lemma C7_request_without_handler_throws_witness :
  let msg := JObj [("seq", JStr "1"); ("res", JNum 42)] in
  marshalling.parse scenario_reply_42 = Some msg
  /\ _bigHandler scenario_called = None
  /\ classify msg = Some Reply
  /\ _receiveOneMessage (Some scenario_reply_42) scenario_called
     = Return (lazyPromise.resolve reenter 0 (Ok (Some (JNum 42)))
                 (log (EvResolve 0 (Ok (Some (JNum 42))))
                    (log (EvForget "1")
                       (upd_pendingRPCReplies (delete "1") scenario_called))))
  /\ state <$> heap (world_of (_receiveOneMessage (Some scenario_reply_42) scenario_called))
                 !! 0%nat
     = Some (ResolvedOk (Some (JNum 42)))
  /\ _receiveOneMessage (Some scenario_request) create
     = Throw (Error "got message before big handler attached!") create.
Proof.
  intros msg.
  assert (Hrequest : marshalling.parse scenario_request = Some scenario_request_msg)
    by (vm_compute; reflexivity).
  assert (Hparse : marshalling.parse scenario_reply_42 = Some msg) by (vm_compute; reflexivity).
  split; [exact Hparse|]. split; [reflexivity|]. split; [reflexivity|].
  pose proof (C7_request_without_handler_throws scenario_called scenario_reply_42 msg
                Hparse eq_refl "1" eq_refl) as H.
  change (_pendingRPCReplies scenario_called !! "1") with (Some 0%nat) in H.
  change (reply_outcome msg) with (Ok (Some (JNum 42))) in H.
  split; [exact H|]. split; [rewrite H; vm_compute; reflexivity|].
  exact (C7_request_without_handler_throws create scenario_request scenario_request_msg
           Hrequest eq_refl).
Defined.

(** * Calls that stay pending *)

Lemma Live_core w w' : core w' = core w -> Live w -> Live w'.
Proof.
  unfold core. intros [= H1 H2 H3 H4] [L1 L2].
  split; rewrite ?H1, ?H2, ?H3, ?H4; assumption.
Qed.

Lemma Live_create : Live create.
Proof. split; cbn; intros; try discriminate. Qed.

Lemma Live_callOnRemote proxyId path args w :
  Inv w -> Live w -> Live (fst (callOnRemote proxyId path args w)).
Proof.
  intros HI [L1 L2].
  destruct (core_callOnRemote proxyId path args w) as (H1 & H2 & H3 & H4 & _).
  pose proof (inv_counter w HI) as Hc.
  destruct (increment_range _ Hc) as [Hr Hle].
  split; rewrite ?H1, ?H2, ?H3, ?H4, ?fmap_app; cbn [fmap list_fmap onCancel lazyPromise.create].
  - intros l k Hk. apply lookup_app_Some in Hk as [Hk|[Hlen Hk]].
    + destruct (L1 l k Hk) as (n & Hn & ->). exists n. split; [lia | reflexivity].
    + apply list_lookup_singleton_Some in Hk as [_ <-].
      exists (increment (_lastMessageId w)). split; [lia | reflexivity].
  - intros Hbelow l k Hk Hfresh.
    assert (Hlast : _lastMessageId w < 2 ^ 53 /\ increment (_lastMessageId w) = _lastMessageId w + 1).
    { unfold increment in *. destruct (Z.ltb_spec (_lastMessageId w) (2 ^ 53)); lia. }
    destruct Hlast as [Hlast Hinc].
    apply lookup_app_Some in Hk as [Hk|[Hlen Hk]].
    + destruct (L1 l k Hk) as (n & Hn & Heq).
      rewrite lookup_insert_ne; [now apply L2|].
      unfold next_id. rewrite Heq, Hinc. intros Hsame%Number_toString_inj; lia.
    + apply list_lookup_singleton_Some in Hk as [Hl <-].
      rewrite length_fmap in Hlen, Hl.
      replace l with (length (heap w)) by lia. apply lookup_insert_eq.
Qed.

Lemma Sound_foldl {A} (f : World -> A -> World) (l : list A) w :
  (forall w a, Inv w -> Inv (f w a)) ->
  (forall w a, Inv w -> Live w -> Live (f w a)) ->
  Inv w -> Live w -> Live (foldl f w l).
Proof.
  intros HfI HfL HI HL.
  apply (foldl_preserves (fun w => Inv w /\ Live w) f l w); [|now split].
  intros w0 a [HI0 HL0]. split; [now apply HfI | now apply HfL].
Qed.

Lemma Live_reenter1 w r : Inv w -> Live w -> Live (reenter1 w r).
Proof.
  intros HI HL. destruct r as [proxyId path args ks|handler|l]; cbn [reenter1].
  - pose proof (Live_callOnRemote proxyId path args w HI HL) as H.
    destruct (callOnRemote proxyId path args w) as [w1 result]. cbn [fst] in H.
    eapply Live_core; [|exact H]. apply core_foldl. intros; apply core_attach.
  - eapply Live_core; [|exact HL]. reflexivity.
  - eapply Live_core; [|exact HL]. apply core_cancel.
Qed.

Lemma Live_reenter script w : Inv w -> Live w -> Live (reenter script w).
Proof.
  unfold reenter. apply Sound_foldl; intros; [now apply Inv_reenter1 | now apply Live_reenter1].
Qed.

Lemma Live_resolve l o w : Inv w -> Live w -> Live (lazyPromise.resolve reenter l o w).
Proof.
  intros HI HL. unfold lazyPromise.resolve.
  destruct (heap w !! l) as [d|] eqn:Hd; [|exact HL].
  destruct (state d); try exact HL.
  apply Sound_foldl; try (intros; now apply Inv_reenter || now apply Live_reenter).
  - eapply Inv_core; [|exact HI]. now apply core_heap_insert with (d := d).
  - eapply Live_core; [|exact HL]. now apply core_heap_insert with (d := d).
Qed.

Lemma Live_then l k w : Inv w -> Live w -> Live (lazyPromise.then_ reenter l k w).
Proof.
  intros HI HL. unfold lazyPromise.then_.
  destruct (heap w !! l) as [d|] eqn:Hd; [|exact HL].
  destruct (state d); try (now apply Live_reenter).
  eapply Live_core; [|exact HL]. now apply core_heap_insert with (d := d).
Qed.

Lemma Live_log e w : (forall l o, e <> EvResolve l o) -> Live w -> Live (log e w).
Proof.
  intros He. apply Live_core. unfold core. gfields. rewrite resolved_snoc.
  destruct e; try (now rewrite app_nil_r). now destruct (He l o).
Qed.

Lemma Live_forget w seq reply o :
  Inv w -> Live w -> _pendingRPCReplies w !! seq = Some reply ->
  Live (log (EvResolve reply o) (log (EvForget seq) (upd_pendingRPCReplies (delete seq) w))).
Proof.
  intros HI [L1 L2] Hreply.
  split; gfields; rewrite ?resolved_snoc, ?app_nil_r.
  - exact L1.
  - intros Hbelow l k Hk Hfresh.
    rewrite elem_of_app, list_elem_of_singleton in Hfresh.
    assert (Hfiled : _pendingRPCReplies w !! k = Some l) by (apply L2; tauto).
    rewrite lookup_delete_ne; [exact Hfiled|].
    intros ->. rewrite Hreply in Hfiled. injection Hfiled as <-. tauto.
Qed.

Lemma Live_receiveOneMessage rawmsg w :
  Inv w -> Live w -> Live (world_of (_receiveOneMessage rawmsg w)).
Proof.
  intros HI HL.
  destruct (marshalling.parse (default "undefined" rawmsg)) as [msg|] eqn:Hparse;
    [|unfold _receiveOneMessage; now rewrite Hparse].
  assert (Hcases : msg = JNull \/ msg <> JNull) by (destruct msg; auto; right; discriminate).
  destruct Hcases as [->|Hnull]; [unfold _receiveOneMessage; now rewrite Hparse|].
  rewrite (receive_parsed_any rawmsg msg w Hparse Hnull).
  destruct (truthy (get msg "seq")).
  { destruct (ToString (get msg "seq")) as [seq|]; [|exact HL].
    destruct (_pendingRPCReplies w !! seq) as [reply|] eqn:Hreply.
    - cbn zeta. destruct (truthy (get msg "err")); cbn [world_of];
        (apply Live_resolve; [now apply Inv_forget | now apply Live_forget]).
    - cbn [world_of]. now apply Live_log. }
  destruct (truthy (get msg "cancel")).
  { destruct (ToString (get msg "cancel")) as [key|]; [|exact HL].
    destruct (_invokedHandlers w !! key); cbn [world_of]; [|exact HL].
    eapply Live_core; [apply core_promise_cancel|]. now apply Live_log. }
  destruct (truthy (get msg "err")); [cbn [world_of]; now apply Live_log|].
  destruct (_bigHandler w) as [handler|]; [|exact HL].
  unfold _invokeHandler.
  destruct (handler _ _ _) as [script result]. cbn zeta.
  assert (HL1 : Live (reenter script
                 (log (EvInvoke (get msg "rpcId") (get msg "method") (get msg "args")) w)))
    by (apply Live_reenter; [now apply Inv_log | now apply Live_log]).
  destruct result; (destruct (ToString (get msg "req")) as [req|]; [|exact HL1]);
    cbn [world_of];
    (eapply Live_core; [apply core_promise_then|]); apply Live_log; try discriminate;
    (eapply Live_core; [|exact HL1]); reflexivity.
Qed.

Lemma Live_tick w : Inv w -> Live w -> Live (tick w).
Proof.
  intros HI HL. unfold tick. destruct (nextTickQueue w) as [|callback queue]; [exact HL|].
  cbn zeta.
  set (w1 := log _ _).
  assert (HI1 : Inv w1).
  { subst w1. apply Inv_log; [discriminate|]. eapply Inv_core; [|exact HI]. reflexivity. }
  assert (HL1 : Live w1).
  { subst w1. apply Live_log; [discriminate|]. eapply Live_core; [|exact HL]. reflexivity. }
  destruct callback; cbn [runTask].
  - unfold RPCMultiplexer._receiveOneMessage. cbn zeta.
    set (w2 := log _ _).
    assert (HI2 : Inv w2).
    { subst w2. apply Inv_log; [discriminate|].
      match goal with |- Inv (if ?b then _ else _) => destruct b end;
        (eapply Inv_core; [|exact HI1]); reflexivity. }
    assert (HL2 : Live w2).
    { subst w2. apply Live_log; [discriminate|].
      match goal with |- Live (if ?b then _ else _) => destruct b end;
        (eapply Live_core; [|exact HL1]); reflexivity. }
    pose proof (Live_receiveOneMessage (head (_messagesToReceive w1)) w2 HI2 HL2) as H.
    destruct (_receiveOneMessage _ w2); cbn [world_of] in H; [exact H|].
    now apply Live_log.
  - unfold RPCMultiplexer._sendAccumulated. cbn zeta. apply Live_log; [discriminate|].
    eapply Live_core; [|exact HL1]. reflexivity.
Qed.

Lemma Live_step w a : Inv w -> Live w -> Live (step w a).
Proof.
  intros HI HL. destruct a as [data| |r|l k|p o]; cbn [step].
  - unfold RPCMultiplexer.onMessage.
    match goal with |- context [if ?b then _ else _] => destruct b end;
      (eapply Live_core; [|exact HL]); reflexivity.
  - now apply Live_tick.
  - now apply Live_reenter1.
  - now apply Live_then.
  - eapply Live_core; [apply core_settle | exact HL].
Qed.

Lemma Live_reachable w : reachable w -> Live w.
Proof.
  intros [acts ->]. unfold run.
  apply Sound_foldl; try (intros; now apply Inv_step || now apply Live_step).
  - apply Inv_create.
  - apply Live_create.
Qed.

Lemma reachable_run acts w : reachable w -> reachable (run acts w).
Proof.
  intros [acts0 ->]. exists (acts0 ++ acts). unfold run. now rewrite foldl_app.
Qed.

(** ** Deferred results that no reply has resolved *)

Lemma Fresh_same w w' :
  state <$> heap w' = state <$> heap w -> resolved (trace w') = resolved (trace w) ->
  Fresh w -> Fresh w'.
Proof.
  intros Hs Hr HF l d Hd Hfresh. rewrite Hr in Hfresh.
  assert (H : (state <$> heap w') !! l = Some (state d))
    by now rewrite list_lookup_fmap, Hd.
  rewrite Hs, list_lookup_fmap in H.
  destruct (heap w !! l) as [d0|] eqn:Hd0; [|discriminate].
  injection H as <-. now apply (HF l d0).
Qed.

Lemma Fresh_create : Fresh create.
Proof. intros l d Hd. discriminate. Qed.

Lemma Fresh_log e w : Fresh w -> Fresh (log e w).
Proof.
  intros HF l d Hd Hfresh. apply (HF l d Hd).
  intros Hin. apply Hfresh. change (trace (log e w)) with (trace w ++ [e]).
  rewrite resolved_snoc. apply elem_of_app. now left.
Qed.

Lemma Fresh_send msg w : Fresh w -> Fresh (RPCMultiplexer.send msg w).
Proof.
  apply Fresh_same.
  - now destruct (send_fields msg w) as (_ & _ & _ & _ & _ & -> & _).
  - pose proof (core_send msg w) as Hcore. unfold core in Hcore. now injection Hcore.
Qed.

Lemma states_heap_insert w l d d' :
  heap w !! l = Some d -> state d' = state d ->
  state <$> heap (upd_heap (fun h => <[l := d']> h) w) = state <$> heap w.
Proof.
  intros Hd Hs. gfields. rewrite list_fmap_insert, Hs.
  apply list_insert_id. now rewrite list_lookup_fmap, Hd.
Qed.

Lemma Fresh_heap_insert w l d d' :
  heap w !! l = Some d -> state d' = state d ->
  Fresh w -> Fresh (upd_heap (fun h => <[l := d']> h) w).
Proof.
  intros Hd Hs. apply Fresh_same; [now apply states_heap_insert with (d := d) | reflexivity].
Qed.

Lemma Fresh_cancel l w : Fresh w -> Fresh (lazyPromise.cancel l w).
Proof.
  intros HF. unfold lazyPromise.cancel.
  destruct (heap w !! l) as [d|] eqn:Hd; [|exact HF].
  destruct (state d) eqn:Hs; try exact HF.
  destruct (cancelRequested d); [exact HF|].
  apply Fresh_heap_insert with (d := d); [|now rewrite Hs|now apply Fresh_send].
  now destruct (send_fields (MessageFactory.cancel (onCancel d)) w)
    as (_ & _ & _ & _ & _ & -> & _).
Qed.

Lemma Fresh_attach l k w : Fresh w -> Fresh (lazyPromise.then_ (fun _ w => w) l k w).
Proof.
  intros HF. unfold lazyPromise.then_.
  destruct (heap w !! l) as [d|] eqn:Hd; [|exact HF].
  destruct (state d) eqn:Hs; try exact HF.
  apply Fresh_heap_insert with (d := d); [exact Hd | now rewrite Hs | exact HF].
Qed.

Lemma Fresh_callOnRemote proxyId path args w :
  Fresh w -> Fresh (fst (callOnRemote proxyId path args w)).
Proof.
  intros HF l d.
  destruct (core_callOnRemote proxyId path args w) as (_ & _ & -> & -> & _).
  intros Hd Hfresh. apply lookup_app_Some in Hd as [Hd|[_ Hd]].
  - now apply (HF l d).
  - apply list_lookup_singleton_Some in Hd as [_ <-]. reflexivity.
Qed.

Lemma Fresh_reenter1 w r : Fresh w -> Fresh (reenter1 w r).
Proof.
  intros HF. destruct r as [proxyId path args ks|handler|l]; cbn [reenter1].
  - pose proof (Fresh_callOnRemote proxyId path args w HF) as H.
    destruct (callOnRemote proxyId path args w) as [w1 result]. cbn [fst] in H.
    apply foldl_preserves; [|exact H]. intros; now apply Fresh_attach.
  - exact HF.
  - now apply Fresh_cancel.
Qed.

Lemma Fresh_reenter script w : Fresh w -> Fresh (reenter script w).
Proof. unfold reenter. apply foldl_preserves. intros; now apply Fresh_reenter1. Qed.

Lemma Fresh_resolve l o w :
  l ∈ resolved (trace w) -> Fresh w -> Fresh (lazyPromise.resolve reenter l o w).
Proof.
  intros Hin HF. unfold lazyPromise.resolve.
  destruct (heap w !! l) as [d|] eqn:Hd; [|exact HF].
  destruct (state d); try exact HF.
  apply foldl_preserves; [intros; now apply Fresh_reenter|].
  intros l' d' Hd' Hfresh. destruct (decide (l' = l)) as [->|Hne]; [now destruct Hfresh|].
  apply (HF l' d'); [|exact Hfresh].
  revert Hd'. gfields. now rewrite list_lookup_insert_ne by congruence.
Qed.

Lemma Fresh_then l k w : Fresh w -> Fresh (lazyPromise.then_ reenter l k w).
Proof.
  intros HF. unfold lazyPromise.then_.
  destruct (heap w !! l) as [d|] eqn:Hd; [|exact HF].
  destruct (state d) eqn:Hs; try (now apply Fresh_reenter).
  apply Fresh_heap_insert with (d := d); [exact Hd | now rewrite Hs | exact HF].
Qed.

Lemma Fresh_completed req o w : Fresh w -> Fresh (completed req o w).
Proof.
  intros HF. unfold completed. destruct o; cbn zeta; apply Fresh_send, Fresh_log;
    (eapply Fresh_same; [| |exact HF]); reflexivity.
Qed.

Lemma Fresh_settle p o w : Fresh w -> Fresh (settle p o w).
Proof.
  intros HF. unfold settle. destruct (settled (promise_of w p)); [exact HF|].
  apply foldl_preserves; [intros; now apply Fresh_completed|].
  eapply Fresh_same; [| |exact HF]; reflexivity.
Qed.

Lemma Fresh_promise_then promise req w : Fresh w -> Fresh (then_ promise req w).
Proof.
  intros HF. destruct promise as [v|e|p]; cbn [then_]; try now apply Fresh_completed.
  destruct (settled (promise_of w p)); [now apply Fresh_completed|].
  eapply Fresh_same; [| |exact HF]; reflexivity.
Qed.

Lemma Fresh_promise_cancel promise w : Fresh w -> Fresh (cancel promise w).
Proof.
  intros HF. destruct promise as [v|e|p]; try exact HF. cbn [cancel].
  set (w1 := upd_promises _ w).
  assert (HF1 : Fresh w1) by (eapply Fresh_same; [| |exact HF]; reflexivity).
  destruct (whenCancelled p); [now apply Fresh_settle | exact HF1].
Qed.

Lemma Fresh_receiveOneMessage rawmsg w :
  Fresh w -> Fresh (world_of (_receiveOneMessage rawmsg w)).
Proof.
  intros HF.
  destruct (marshalling.parse (default "undefined" rawmsg)) as [msg|] eqn:Hparse;
    [|unfold _receiveOneMessage; now rewrite Hparse].
  assert (Hcases : msg = JNull \/ msg <> JNull) by (destruct msg; auto; right; discriminate).
  destruct Hcases as [->|Hnull]; [unfold _receiveOneMessage; now rewrite Hparse|].
  rewrite (receive_parsed_any rawmsg msg w Hparse Hnull).
  destruct (truthy (get msg "seq")).
  { destruct (ToString (get msg "seq")) as [seq|]; [|exact HF].
    destruct (_pendingRPCReplies w !! seq) as [reply|].
    - cbn zeta. unfold resolveErr, resolveOk.
      destruct (truthy (get msg "err")); cbn [world_of];
        (apply Fresh_resolve;
         [change (trace (log ?e ?u)) with (trace u ++ [e]); rewrite resolved_snoc;
          apply elem_of_app; right; now apply list_elem_of_singleton
         |apply Fresh_log, Fresh_log; (eapply Fresh_same; [| |exact HF]); reflexivity]).
    - cbn [world_of]. now apply Fresh_log. }
  destruct (truthy (get msg "cancel")).
  { destruct (ToString (get msg "cancel")) as [key|]; [|exact HF].
    destruct (_invokedHandlers w !! key); cbn [world_of]; [|exact HF].
    now apply Fresh_promise_cancel, Fresh_log. }
  destruct (truthy (get msg "err")); [cbn [world_of]; now apply Fresh_log|].
  destruct (_bigHandler w) as [handler|]; [|exact HF].
  unfold _invokeHandler.
  destruct (handler _ _ _) as [script result]. cbn zeta.
  assert (HF1 : Fresh (reenter script
                 (log (EvInvoke (get msg "rpcId") (get msg "method") (get msg "args")) w)))
    by now apply Fresh_reenter, Fresh_log.
  destruct result; (destruct (ToString (get msg "req")) as [req|]; [|exact HF1]);
    cbn [world_of]; apply Fresh_promise_then, Fresh_log;
    (eapply Fresh_same; [| |exact HF1]); reflexivity.
Qed.

Lemma Fresh_tick w : Fresh w -> Fresh (tick w).
Proof.
  intros HF. unfold tick. destruct (nextTickQueue w) as [|callback queue]; [exact HF|].
  cbn zeta.
  set (w1 := log _ _).
  assert (HF1 : Fresh w1).
  { subst w1. apply Fresh_log. eapply Fresh_same; [| |exact HF]; reflexivity. }
  destruct callback; cbn [runTask].
  - unfold RPCMultiplexer._receiveOneMessage. cbn zeta.
    set (w2 := log _ _).
    assert (HF2 : Fresh w2).
    { subst w2. apply Fresh_log.
      match goal with |- Fresh (if ?b then _ else _) => destruct b end;
        (eapply Fresh_same; [| |exact HF1]); reflexivity. }
    pose proof (Fresh_receiveOneMessage (head (_messagesToReceive w1)) w2 HF2) as H.
    destruct (_receiveOneMessage _ w2); cbn [world_of] in H; [exact H|].
    now apply Fresh_log.
  - unfold RPCMultiplexer._sendAccumulated. cbn zeta. apply Fresh_log.
    eapply Fresh_same; [| |exact HF1]; reflexivity.
Qed.

Lemma Fresh_step w a : Fresh w -> Fresh (step w a).
Proof.
  intros HF. destruct a as [data| |r|l k|p o]; cbn [step].
  - unfold RPCMultiplexer.onMessage.
    match goal with |- context [if ?b then _ else _] => destruct b end;
      (eapply Fresh_same; [| |exact HF]); reflexivity.
  - now apply Fresh_tick.
  - now apply Fresh_reenter1.
  - now apply Fresh_then.
  - now apply Fresh_settle.
Qed.

Lemma Fresh_reachable w : reachable w -> Fresh w.
Proof.
  intros [acts ->]. unfold run.
  apply foldl_preserves; [intros; now apply Fresh_step | apply Fresh_create].
Qed.

(** A pending call of a manager that can arise has a deferred result that
    is pending and that was created for the id of the call. *)
Lemma pending_call_is_pending w id l :
  reachable w -> _pendingRPCReplies w !! id = Some l ->
  exists d, heap w !! l = Some d /\ state d = Pending /\ onCancel d = id.
Proof.
  intros Hreach Hp.
  destruct (inv_pending w (Inv_reachable w Hreach) id l Hp) as (_ & Hcaptured & Hfresh).
  rewrite list_lookup_fmap in Hcaptured.
  destruct (heap w !! l) as [d|] eqn:Hd; [|discriminate].
  injection Hcaptured as Hid. exists d. split; [reflexivity|].
  split; [exact (Fresh_reachable w Hreach l d Hd Hfresh) | exact Hid].
Qed.

(** C8, as the code has it. On every manager that can arise, a call that
    is in the pending-calls mapping has a deferred result that is pending;
    cancelling it, when it was not cancelled before, sends exactly one
    message, the text that decodes to the Cancel message of the call's id,
    and leaves the pending-calls mapping as it was; cancelling again sends
    nothing. Whatever happens after the cancellation, a reply for that id
    that arrives while the entry is there finds it: the dispatch deletes
    the entry and then resolves the deferred result, which ends in the
    terminal state of the outcome the reply carries, and the id is pending
    no more when the counter is still below 2^53. And whatever happens
    after the cancellation, while the counter is below 2^53 the entry stays
    until the reply path has resolved the deferred result: only a reply
    removes it. *)
Theorem C8_cancel_then_reply (w : World) (id : string) (l : nat) (d : LazyPromise) :
  reachable w ->
  _pendingRPCReplies w !! id = Some l ->
  heap w !! l = Some d ->
  cancelRequested d = false ->
  let w2 := lazyPromise.cancel l w in
  state d = Pending
  /\ (exists text,
        trace w2 = trace w ++ [EvSend text]
        /\ _messagesToSend w2 = _messagesToSend w ++ [text]
        /\ marshalling.parse text = Some (JObj [("cancel", JStr id)])
        /\ classify (JObj [("cancel", JStr id)]) = Some Cancel)
  /\ _pendingRPCReplies w2 = _pendingRPCReplies w
  /\ lazyPromise.cancel l w2 = w2
  /\ (forall later raw msg,
        let w' := run later w2 in
        _pendingRPCReplies w' !! id = Some l ->
        marshalling.parse raw = Some msg ->
        truthy (get msg "seq") = true ->
        ToString (get msg "seq") = Some id ->
        exists w3 more,
          _receiveOneMessage (Some raw) w' = Return w3
          /\ trace w3 = trace w' ++ [EvForget id; EvResolve l (reply_outcome msg)] ++ more
          /\ state <$> heap w3 !! l = Some (terminal (reply_outcome msg))
          /\ (_lastMessageId w3 < 2 ^ 53 -> _pendingRPCReplies w3 !! id = None))
  /\ (forall later,
        let w' := run later w2 in
        _lastMessageId w' < 2 ^ 53 -> l ∉ resolved (trace w') ->
        _pendingRPCReplies w' !! id = Some l).
Proof.
  intros Hreach Hp Hd Hc. cbn zeta.
  destruct (pending_call_is_pending w id l Hreach Hp) as (d0 & Hd0 & Hs & Hcancel).
  rewrite Hd in Hd0. injection Hd0 as <-.
  split; [exact Hs|].
  pose proof (Inv_reachable w Hreach) as HI.
  destruct (inv_pending w HI id l Hp) as ((n & Hn & Hid) & Hcaptured & _).
  assert (Hplain : plain id = true) by (rewrite Hid; apply Number_toString_plain).
  assert (Hne : id <> "") by (rewrite Hid; apply Number_toString_nonempty).
  set (m := MessageFactory.cancel id).
  assert (Hw2 : lazyPromise.cancel l w =
                upd_heap (fun h => <[l := mkLazyPromise (state d) true (onCancel d)
                                           (continuations d)]> h) (RPCMultiplexer.send m w)).
  { unfold lazyPromise.cancel. now rewrite Hd, Hs, Hc, Hcancel. }
  destruct (send_fields m w) as (Hb & Ht & _ & _ & _ & Hh & Hpend & _).
  assert (Hd2 : heap (lazyPromise.cancel l w) !! l
                = Some (mkLazyPromise (state d) true (onCancel d) (continuations d))).
  { rewrite Hw2. gfields. rewrite Hh. apply list_lookup_insert_eq.
    eapply lookup_lt_Some; eauto. }
  assert (Hp2 : _pendingRPCReplies (lazyPromise.cancel l w) = _pendingRPCReplies w).
  { rewrite Hw2. gfields. exact Hpend. }
  assert (Hreach2 : reachable (lazyPromise.cancel l w))
    by exact (reachable_step w (Do (ReCancel l)) Hreach).
  split.
  { exists m. split; [rewrite Hw2; gfields; exact Ht|].
    split; [rewrite Hw2; gfields; exact Hb|].
    split; [unfold m; rewrite (cancel_is_stringify id Hplain); apply parse_stringify|].
    unfold classify. change (get (JObj [("cancel", JStr id)]) "seq") with (@None json).
    change (get (JObj [("cancel", JStr id)]) "cancel") with (Some (JStr id)).
    now rewrite (truthy_text id Hne). }
  split; [exact Hp2|].
  split.
  { unfold lazyPromise.cancel at 1. rewrite Hd2. cbn [state cancelRequested]. now rewrite Hs. }
  split.
  - intros later raw msg. set (w' := run later (lazyPromise.cancel l w)).
    intros Hp' Hparse Hseq Hkey.
    assert (Hreach' : reachable w') by exact (reachable_run later _ Hreach2).
    destruct (pending_call_is_pending w' id l Hreach' Hp') as (d' & Hd' & Hs' & _).
    destruct (inv_pending w' (Inv_reachable w' Hreach') id l Hp') as ((n' & Hn' & Hid') & _).
    rewrite (receive_reply raw msg _ id l Hparse Hseq Hkey) by exact Hp'.
    set (o := reply_outcome msg).
    set (w1 := log (EvResolve l o) _).
    assert (Hd1 : heap w1 !! l = Some d') by (subst w1; gfields; exact Hd').
    destruct (resolve_pending l o w1 _ Hd1 Hs') as [_ Hstate].
    destruct (adds_ids_resolve l o w1) as (Hlast & Hkeys & more & Hmore & _).
    exists (lazyPromise.resolve reenter l o w1), more.
    split; [reflexivity|]. split.
    { rewrite Hmore. subst w1. gfields. now rewrite <- !app_assoc. }
    split; [exact Hstate|].
    intros Hbelow.
    destruct (_pendingRPCReplies (lazyPromise.resolve reenter l o w1) !! id)
      as [l'|] eqn:Hl; [exfalso|reflexivity].
    destruct (Hkeys id l' Hl) as [Hold|(n1 & Heq & Hn1 & Hnew)].
    + subst w1. fields_in Hold. now rewrite lookup_delete_eq in Hold.
    + assert (Hw1 : _lastMessageId w1 = _lastMessageId w') by (subst w1; now gfields).
      rewrite Hid' in Heq. apply Number_toString_inj in Heq; lia.
  - intros later Hbelow Hfresh.
    pose proof (Live_reachable _ (reachable_run later _ Hreach2)) as HL.
    apply (live_filed _ HL Hbelow); [|exact Hfresh].
    destruct (follows_cancel l w) as (_ & [ids1 H1] & _).
    destruct (follows_run later (lazyPromise.cancel l w)) as (_ & [ids2 H2] & _).
    rewrite H2, H1, <- app_assoc. apply lookup_app_l_Some. exact Hcaptured.
Qed.

Lemma C8_cancel_then_reply_witness :
  let continuation : continuation :=
    fun _ => [ReCallOnRemote "svc.foo" "baz" [] []] in
  let later := [Then 0 continuation; Do (ReCallOnRemote "svc.foo" "bar" [] []); Tick] in
  let w' := run later (lazyPromise.cancel 0 scenario_called) in
  reachable scenario_called
  /\ _pendingRPCReplies scenario_called !! "1" = Some 0%nat
  /\ heap scenario_called !! 0%nat = Some (lazyPromise.create "1")
  /\ (exists text,
        trace (lazyPromise.cancel 0 scenario_called) = trace scenario_called ++ [EvSend text]
        /\ marshalling.parse text = Some (JObj [("cancel", JStr "1")]))
  /\ _pendingRPCReplies w' !! "1" = Some 0%nat
  /\ exists w3 more,
       _receiveOneMessage (Some scenario_reply_42) w' = Return w3
       /\ trace w3 = trace w' ++ [EvForget "1"; EvResolve 0 (Ok (Some (JNum 42)))] ++ more
       /\ state <$> heap w3 !! 0%nat = Some (ResolvedOk (Some (JNum 42)))
       /\ _pendingRPCReplies w3 !! "1" = None.
Proof.
  intros continuation later w'.
  assert (H1 : heap scenario_called !! 0%nat = Some (lazyPromise.create "1"))
    by (vm_compute; reflexivity).
  assert (H4 : _pendingRPCReplies scenario_called !! "1" = Some 0%nat)
    by (vm_compute; reflexivity).
  destruct (C8_cancel_then_reply scenario_called "1" 0 (lazyPromise.create "1")
              scenario_called_reachable H4 H1 eq_refl)
    as (_ & (text & Htext & _ & Hdecode & _) & _ & _ & Hreply & Hstays).
  assert (Hstill : _pendingRPCReplies w' !! "1" = Some 0%nat).
  { apply (Hstays later); [vm_compute; reflexivity|]. vm_compute. apply not_elem_of_nil. }
  destruct (Hreply later scenario_reply_42 (JObj [("seq", JStr "1"); ("res", JNum 42)]) Hstill)
    as (w3 & more & Hret & Htrace & Hstate & Hgone);
    [vm_compute; reflexivity | reflexivity | reflexivity |].
  split; [exact scenario_called_reachable|]. split; [exact H4|]. split; [exact H1|].
  split; [exists text; split; assumption|].
  split; [exact Hstill|].
  exists w3, more. split; [exact Hret|]. split; [exact Htrace|]. split; [exact Hstate|].
  apply Hgone.
  pose proof (f_equal world_of Hret) as Hw3. cbn [world_of] in Hw3.
  rewrite <- Hw3. vm_compute. reflexivity.
Defined.

(** When the counter stands at 2^53, a call is given the id 2^53 again and
    is filed in place of the call that is pending under it. *)
Lemma entry_replaced_at_the_limit b l :
  Inv b -> _lastMessageId b = 2 ^ 53 ->
  _pendingRPCReplies b !! limit_id = Some l ->
  _pendingRPCReplies (step b (Do (ReCallOnRemote "svc.foo" "bar" [] []))) !! limit_id
    = Some (length (heap b))
  /\ length (heap b) <> l
  /\ l ∉ resolved (trace (step b (Do (ReCallOnRemote "svc.foo" "bar" [] [])))).
Proof.
  intros HI Hlast Hl.
  assert (Hnext : next_id b = limit_id) by (unfold next_id; rewrite Hlast; reflexivity).
  destruct (inv_pending b HI _ _ Hl) as (_ & Hcaptured & Hfresh).
  cbn [step reenter1].
  destruct (core_callOnRemote "svc.foo" "bar" [] b) as (_ & H2 & _ & H4 & _).
  destruct (callOnRemote "svc.foo" "bar" [] b) as [w0 l0]. cbn [fst snd foldl] in *.
  rewrite H2, H4, Hnext. split; [apply lookup_insert_eq|]. split; [|exact Hfresh].
  apply lookup_lt_Some in Hcaptured. rewrite length_fmap in Hcaptured. lia.
Qed.

(** C8 as stated fails at the limit of the counter: on the manager after
    2^53 calls the call with the id 2^53 is pending and no reply has been
    dispatched; one more call, and the entry of that id holds another
    deferred result. The call was removed from the mapping by a call, not
    by a reply. *)
Lemma C8_call_replaces_a_pending_entry_at_the_limit :
  reachable (step (after_calls (N.succ (2 ^ 53 - 1)))
               (Do (ReCallOnRemote "svc.foo" "bar" [] [])))
  /\ exists l,
       _pendingRPCReplies (after_calls (N.succ (2 ^ 53 - 1))) !! limit_id = Some l
       /\ _pendingRPCReplies
            (step (after_calls (N.succ (2 ^ 53 - 1)))
               (Do (ReCallOnRemote "svc.foo" "bar" [] []))) !! limit_id <> Some l
       /\ l ∉ resolved (trace (step (after_calls (N.succ (2 ^ 53 - 1)))
                                  (Do (ReCallOnRemote "svc.foo" "bar" [] [])))).
Proof.
  split; [apply reachable_step, reachable_after_calls|].
  pose proof (after_calls_latest_pending (2 ^ 53 - 1)) as Htaken.
  rewrite after_calls_counter in Htaken.
  change (Number_toString (Z.min (Z.of_N (N.succ (2 ^ 53 - 1))) (2 ^ 53)))
    with limit_id in Htaken.
  destruct Htaken as [l Hl]. exists l. split; [exact Hl|].
  destruct (entry_replaced_at_the_limit (after_calls (N.succ (2 ^ 53 - 1))) l
              (Inv_after_calls (N.succ (2 ^ 53 - 1))))
    as (Hnew & Hne & Hfresh);
    [rewrite after_calls_counter; reflexivity | exact Hl |].
  split; [|exact Hfresh].
  rewrite Hnew. intros Heq. apply Hne. clear -Heq. congruence.
Qed.

(** * Invocations in flight *)

Lemma reply_decodes req o :
  plain req = true -> req <> "" -> decodes_as_reply (reply_text req o) req o.
Proof.
  intros Hplain Hne. destruct o as [res|err]; cbn [reply_text].
  - rewrite (replyOK_is_stringify req res Hplain).
    eexists. split; [apply parse_stringify|].
    split; [|destruct res; repeat split].
    unfold classify.
    replace (get (JObj (("seq", JStr req)
                        :: match res with Some r => [("res", r)] | None => [] end)) "seq")
      with (Some (JStr req)) by now destruct res.
    now rewrite (truthy_text req Hne).
  - rewrite (replyErr_is_stringify req err Hplain).
    eexists. split; [apply parse_stringify|]. split; [|repeat split].
    unfold classify.
    change (get (JObj [("seq", JStr req);
                       ("err", errors.transformErrorForSerialization err)]) "seq")
      with (Some (JStr req)).
    now rewrite (truthy_text req Hne).
Qed.

Lemma only_sends_then l k w : only_sends w (lazyPromise.then_ reenter l k w).
Proof.
  unfold lazyPromise.then_.
  destruct (heap w !! l) as [d|]; [|apply only_sends_refl].
  destruct (state d); try apply only_sends_reenter. now apply only_sends_trace.
Qed.

Lemma sends_deregister_nothing req (msgs : list string) :
  EvDeregister req ∉ (EvSend <$> msgs).
Proof. intros (m & Heq & _)%list_elem_of_fmap. discriminate. Qed.

Lemma completions_app o l1 l2 : completions o (l1 ++ l2) = completions o l1 ++ completions o l2.
Proof. unfold completions. apply flat_map_app. Qed.

Lemma completions_deregister o req cbs : req ∉ cbs -> EvDeregister req ∉ completions o cbs.
Proof.
  induction cbs as [|r cbs IH]; cbn; [intros _; apply not_elem_of_nil|].
  intros [Hne Hnot]%not_elem_of_cons.
  rewrite !not_elem_of_cons. split; [congruence|]. split; [discriminate|]. now apply IH.
Qed.

Lemma completed_all_trace o cbs w :
  trace (foldl (fun w req => completed req o w) w cbs) = trace w ++ completions o cbs.
Proof.
  revert w. induction cbs as [|r cbs IH]; intros w; cbn [foldl completions flat_map].
  - now rewrite app_nil_r.
  - rewrite IH. destruct (completed_fields r o w) as (-> & _).
    now rewrite <- app_assoc.
Qed.

Lemma completed_all_lookup o cbs w req :
  _invokedHandlers (foldl (fun w req => completed req o w) w cbs) !! req
  = if decide (req ∈ cbs) then None else _invokedHandlers w !! req.
Proof.
  revert w. induction cbs as [|r cbs IH]; intros w; cbn [foldl].
  - destruct (decide (req ∈ [])) as [Hin|_]; [now apply elem_of_nil in Hin | reflexivity].
  - rewrite IH. destruct (completed_fields r o w) as (_ & -> & _).
    destruct (decide (req ∈ cbs)) as [Hin|Hnot].
    + rewrite decide_True by (apply elem_of_cons; now right). reflexivity.
    + destruct (decide (req = r)) as [->|Hne].
      * rewrite decide_True by (apply elem_of_cons; now left). apply lookup_delete_eq.
      * rewrite decide_False by (rewrite elem_of_cons; tauto).
        now apply lookup_delete_ne.
Qed.

Lemma settle_fields p o w :
  settled (promise_of w p) = None ->
  trace (settle p o w) = trace w ++ completions o (callbacks (promise_of w p))
  /\ promises (settle p o w)
     = <[p := mkHandlerPromise (Some o) (callbacks (promise_of w p)) (cancels (promise_of w p))]>
         (promises w)
  /\ forall req,
       _invokedHandlers (settle p o w) !! req
       = if decide (req ∈ callbacks (promise_of w p)) then None else _invokedHandlers w !! req.
Proof.
  intros Hpending. unfold settle. rewrite Hpending.
  set (w1 := upd_promises _ w).
  split; [now rewrite completed_all_trace|].
  split.
  { destruct (completed_all o (callbacks (promise_of w p)) w1) as [-> _]. reflexivity. }
  intros req. now rewrite completed_all_lookup.
Qed.

(** What leaves the promises and the registration of [req] alone, and
    logs no deregistration of [req], leaves the invocation as it is. *)
Lemma Track_frame req p base w w' new :
  _invokedHandlers w' !! req = _invokedHandlers w !! req ->
  (forall q, settled (promise_of w' q) = settled (promise_of w q)
             /\ callbacks (promise_of w' q) = callbacks (promise_of w q)) ->
  trace w' = trace w ++ new ->
  (EvDeregister req ∉ new) ->
  Track req p base w -> Track req p base w'.
Proof.
  intros Hi Hq Ht Hnew (more & Hmore & Himp).
  exists (more ++ new). split; [now rewrite Ht, Hmore, app_assoc|].
  intros Hreg. rewrite not_elem_of_app in Hreg. destruct Hreg as [Hreg _].
  destruct (Himp Hreg) as [F1 F2]. split.
  - intros p' Hp'. destruct (Hq p') as [-> ->]. now apply F1.
  - destruct (Hq p) as [-> ->]. rewrite Hi.
    destruct (settled (promise_of w p)) as [o|].
    + destruct F2 as (Hnone & before & after & -> & Hb & Ha). split; [exact Hnone|].
      exists before, (after ++ new). split; [now rewrite <- !app_assoc|].
      split; [exact Hb|]. rewrite not_elem_of_app. now split.
    + destruct F2 as (Hsome & Hd & Hcb). split; [exact Hsome|]. split; [|exact Hcb].
      rewrite not_elem_of_app. now split.
Qed.

Lemma Track_quiet req p base w w' :
  _invokedHandlers w' = _invokedHandlers w -> promises w' = promises w ->
  (exists new, trace w' = trace w ++ new /\ (EvDeregister req ∉ new)) ->
  Track req p base w -> Track req p base w'.
Proof.
  intros Hi Hp (new & Ht & Hnew). apply Track_frame with (new := new); try assumption.
  - now rewrite Hi.
  - intros q. now rewrite (promise_of_same w w' q) by now rewrite Hp.
Qed.

Lemma Track_same req p base w w' :
  _invokedHandlers w' = _invokedHandlers w -> promises w' = promises w ->
  trace w' = trace w -> Track req p base w -> Track req p base w'.
Proof.
  intros Hi Hp Ht. apply Track_quiet; try assumption.
  exists []. split; [now rewrite app_nil_r | apply not_elem_of_nil].
Qed.

Lemma Track_log req p base e w :
  e <> EvDeregister req -> Track req p base w -> Track req p base (log e w).
Proof.
  intros He. apply Track_quiet; try reflexivity.
  exists [e]. split; [reflexivity|]. rewrite list_elem_of_singleton. congruence.
Qed.

Lemma Track_only_sends req p base w w' :
  untouched w w' -> only_sends w w' -> Track req p base w -> Track req p base w'.
Proof.
  intros (Hi & Hp & _) [msgs Ht]. apply Track_quiet; try assumption.
  exists (EvSend <$> msgs). split; [exact Ht | apply sends_deregister_nothing].
Qed.

(** Once a request is registered under [req] again, nothing more is said. *)
Lemma Track_registered req p base w w' new :
  trace w' = trace w ++ new -> EvRegister req ∈ new ->
  Track req p base w -> Track req p base w'.
Proof.
  intros Ht Hin (more & Hmore & _). exists (more ++ new).
  split; [now rewrite Ht, Hmore, app_assoc|].
  intros Hreg. rewrite not_elem_of_app in Hreg. tauto.
Qed.

Lemma Track_completed req p base r o w :
  r <> req -> Track req p base w -> Track req p base (completed r o w).
Proof.
  intros Hne. destruct (completed_fields r o w) as (Ht & Hi & Hp).
  apply Track_frame with (new := [EvDeregister r; EvSend (reply_text r o)]).
  - rewrite Hi. now apply lookup_delete_ne.
  - intros q. now rewrite (promise_of_same w _ q) by now rewrite Hp.
  - exact Ht.
  - rewrite !not_elem_of_cons. split; [congruence|]. split; [discriminate|].
    apply not_elem_of_nil.
Qed.

Lemma Track_settle req p base p' o w :
  Track req p base w -> Track req p base (settle p' o w).
Proof.
  intros HT. destruct (settled (promise_of w p')) as [o'|] eqn:Hpending.
  { unfold settle. now rewrite Hpending. }
  destruct (settle_fields p' o w Hpending) as (Ht & Hp & Hi).
  set (cbs := callbacks (promise_of w p')) in *.
  destruct HT as (more & Hmore & Himp).
  exists (more ++ completions o cbs). split; [now rewrite Ht, Hmore, app_assoc|].
  intros Hreg. rewrite not_elem_of_app in Hreg. destruct Hreg as [Hreg _].
  destruct (Himp Hreg) as [F1 F2].
  assert (Hother : forall q, q <> p' -> promise_of (settle p' o w) q = promise_of w q).
  { intros q Hq. apply promise_of_same. rewrite Hp. now apply lookup_insert_ne. }
  assert (Hthis : settled (promise_of (settle p' o w) p') = Some o).
  { unfold promise_of. rewrite Hp, lookup_insert_eq. reflexivity. }
  split.
  { intros q Hq Hsettled. destruct (decide (q = p')) as [->|Hne]; [congruence|].
    rewrite Hother in Hsettled |- * by assumption. now apply F1. }
  destruct (decide (p' = p)) as [->|Hne].
  - rewrite Hthis. rewrite Hpending in F2.
    destruct F2 as (_ & Hd & l1 & l2 & Hcbs & Hl1 & Hl2). fold cbs in Hcbs.
    split.
    { rewrite Hi. apply decide_True. rewrite Hcbs, elem_of_app, elem_of_cons. tauto. }
    exists (more ++ completions o l1), (completions o l2).
    split.
    { rewrite Hcbs, completions_app. cbn [completions flat_map app].
      now rewrite <- !app_assoc. }
    split; [|now apply completions_deregister].
    rewrite not_elem_of_app. split; [exact Hd | now apply completions_deregister].
  - rewrite (Hother p) by congruence.
    assert (Hnot : req ∉ cbs) by (apply F1; [congruence | exact Hpending]).
    rewrite Hi, decide_False by exact Hnot.
    pose proof (completions_deregister o req cbs Hnot) as Hquiet.
    destruct (settled (promise_of w p)) as [o1|].
    + destruct F2 as (Hnone & before & after & -> & Hb & Ha). split; [exact Hnone|].
      exists before, (after ++ completions o cbs). split; [now rewrite <- !app_assoc|].
      split; [exact Hb|]. rewrite not_elem_of_app. now split.
    + destruct F2 as (Hsome & Hd & Hcb). split; [exact Hsome|]. split; [|exact Hcb].
      rewrite not_elem_of_app. now split.
Qed.

Lemma Track_add_callback req p base r q w :
  r <> req -> settled (promise_of w q) = None ->
  Track req p base w ->
  Track req p base
    (upd_promises
       (fun m => <[q := mkHandlerPromise None (callbacks (promise_of w q) ++ [r])
                          (cancels (promise_of w q))]> m) w).
Proof.
  intros Hne Hpending (more & Hmore & Himp).
  set (w' := upd_promises _ w).
  assert (Hother : forall q', q' <> q -> promise_of w' q' = promise_of w q').
  { intros q' Hq'. apply promise_of_same. unfold w'. gfields. now apply lookup_insert_ne. }
  assert (Hthis : promise_of w' q
                  = mkHandlerPromise None (callbacks (promise_of w q) ++ [r])
                      (cancels (promise_of w q))).
  { unfold promise_of at 1. unfold w'. gfields. now rewrite lookup_insert_eq. }
  exists more. split; [exact Hmore|].
  intros Hreg. destruct (Himp Hreg) as [F1 F2]. split.
  - intros q' Hq' Hsettled. destruct (decide (q' = q)) as [->|Hq].
    + rewrite Hthis. cbn [callbacks]. rewrite not_elem_of_app. split.
      * now apply F1.
      * rewrite list_elem_of_singleton. congruence.
    + rewrite Hother in Hsettled |- * by assumption. now apply F1.
  - change (_invokedHandlers w') with (_invokedHandlers w).
    destruct (decide (p = q)) as [->|Hq].
    + rewrite Hthis. cbn [settled callbacks]. rewrite Hpending in F2.
      destruct F2 as (Hsome & Hd & l1 & l2 & Hcbs & Hl1 & Hl2).
      split; [exact Hsome|]. split; [exact Hd|].
      exists l1, (l2 ++ [r]). split; [now rewrite Hcbs, <- app_assoc|].
      split; [exact Hl1|]. rewrite not_elem_of_app. split; [exact Hl2|].
      rewrite list_elem_of_singleton. congruence.
    + rewrite Hother by assumption. exact F2.
Qed.

Lemma Track_register req p base promise r w :
  Track req p base w ->
  Track req p base
    (then_ promise r
       (log (EvRegister r) (upd_invokedHandlers (fun m => <[r := promise]> m) w))).
Proof.
  intros HT.
  set (w2 := log (EvRegister r) (upd_invokedHandlers (fun m => <[r := promise]> m) w)).
  destruct (decide (r = req)) as [->|Hne].
  - destruct (follows_promise_then promise req w2) as ([more Hmore] & _).
    apply Track_registered with (w := w) (new := [EvRegister req] ++ more).
    + rewrite Hmore. unfold w2. gfields. now rewrite <- app_assoc.
    + apply elem_of_app. left. now apply list_elem_of_singleton.
    + exact HT.
  - assert (HT2 : Track req p base w2).
    { unfold w2. apply Track_log; [congruence|].
      apply Track_frame with (w := w) (new := []); try assumption.
      - gfields. now apply lookup_insert_ne.
      - intros q. split; reflexivity.
      - gfields. now rewrite app_nil_r.
      - apply not_elem_of_nil. }
    destruct promise as [v|e|q]; cbn [then_]; try now apply Track_completed.
    destruct (settled (promise_of w2 q)) as [o|] eqn:Hsettled;
      [now apply Track_completed | now apply Track_add_callback].
Qed.

Lemma Track_promise_cancel req p base promise w :
  Track req p base w -> Track req p base (cancel promise w).
Proof.
  intros HT. destruct promise as [v|e|q]; try exact HT. cbn [cancel].
  set (w1 := upd_promises _ w).
  assert (HT1 : Track req p base w1).
  { apply Track_frame with (w := w) (new := []); try assumption.
    - reflexivity.
    - intros q'. unfold promise_of, w1. gfields.
      destruct (decide (q' = q)) as [->|Hq].
      + rewrite lookup_insert_eq. split; reflexivity.
      + rewrite lookup_insert_ne by congruence. split; reflexivity.
    - unfold w1. gfields. now rewrite app_nil_r.
    - apply not_elem_of_nil. }
  destruct (whenCancelled q); [now apply Track_settle | exact HT1].
Qed.

Lemma Track_receiveOneMessage req p base rawmsg w :
  Track req p base w -> Track req p base (world_of (_receiveOneMessage rawmsg w)).
Proof.
  intros HT.
  destruct (marshalling.parse (default "undefined" rawmsg)) as [msg|] eqn:Hparse;
    [|unfold _receiveOneMessage; now rewrite Hparse].
  assert (Hcases : msg = JNull \/ msg <> JNull) by (destruct msg; auto; right; discriminate).
  destruct Hcases as [->|Hnull]; [unfold _receiveOneMessage; now rewrite Hparse|].
  rewrite (receive_parsed_any rawmsg msg w Hparse Hnull).
  destruct (truthy (get msg "seq")).
  { destruct (ToString (get msg "seq")) as [seq|]; [|exact HT].
    destruct (_pendingRPCReplies w !! seq) as [reply|].
    - cbn zeta. unfold resolveErr, resolveOk.
      destruct (truthy (get msg "err")); cbn [world_of];
        (eapply Track_only_sends; [apply untouched_resolve | apply only_sends_resolve |]);
        (apply Track_log; [discriminate|]);
        (apply Track_log; [discriminate|]);
        (eapply Track_same; [| | |exact HT]); reflexivity.
    - cbn [world_of]. now apply Track_log. }
  destruct (truthy (get msg "cancel")).
  { destruct (ToString (get msg "cancel")) as [key|]; [|exact HT].
    destruct (_invokedHandlers w !! key); cbn [world_of]; [|exact HT].
    apply Track_promise_cancel. now apply Track_log. }
  destruct (truthy (get msg "err")); [cbn [world_of]; now apply Track_log|].
  destruct (_bigHandler w) as [handler|]; [|exact HT].
  unfold _invokeHandler.
  destruct (handler _ _ _) as [script result]. cbn zeta.
  assert (HT1 : Track req p base (reenter script
                 (log (EvInvoke (get msg "rpcId") (get msg "method") (get msg "args")) w))).
  { eapply Track_only_sends; [apply untouched_reenter | apply only_sends_reenter |].
    now apply Track_log. }
  destruct result; (destruct (ToString (get msg "req")) as [r|]; [|exact HT1]);
    cbn [world_of]; now apply Track_register.
Qed.

Lemma Track_tick req p base w : Track req p base w -> Track req p base (tick w).
Proof.
  intros HT. unfold tick. destruct (nextTickQueue w) as [|callback queue]; [exact HT|].
  cbn zeta.
  set (w1 := log _ _).
  assert (H1 : Track req p base w1).
  { subst w1. apply Track_log; [discriminate|].
    eapply Track_same; [| | |exact HT]; reflexivity. }
  destruct callback; cbn [runTask].
  - unfold RPCMultiplexer._receiveOneMessage. cbn zeta.
    set (w2 := log _ _).
    assert (H2 : Track req p base w2).
    { subst w2. apply Track_log; [discriminate|].
      match goal with |- Track _ _ _ (if ?b then _ else _) => destruct b end;
        (eapply Track_same; [| | |exact H1]); reflexivity. }
    pose proof (Track_receiveOneMessage req p base (head (_messagesToReceive w1)) w2 H2) as H.
    destruct (_receiveOneMessage _ w2); cbn [world_of] in H.
    + exact H.
    + now apply Track_log.
  - unfold RPCMultiplexer._sendAccumulated. cbn zeta.
    apply Track_log; [discriminate|].
    eapply Track_same; [| | |exact H1]; reflexivity.
Qed.

Lemma Track_step req p base w a : Track req p base w -> Track req p base (step w a).
Proof.
  intros HT. destruct a as [data| |r|l k|q o]; cbn [step].
  - unfold RPCMultiplexer.onMessage.
    match goal with |- context [if ?b then _ else _] => destruct b end;
      (eapply Track_same; [| | |exact HT]); reflexivity.
  - now apply Track_tick.
  - eapply Track_only_sends; [apply untouched_reenter1 | apply only_sends_reenter1 | exact HT].
  - eapply Track_only_sends; [apply untouched_then | apply only_sends_then | exact HT].
  - now apply Track_settle.
Qed.

Lemma Track_run req p base acts w : Track req p base w -> Track req p base (run acts w).
Proof.
  revert w. induction acts as [|a acts IH]; intros w HT; [exact HT|].
  cbn [run]. apply IH. now apply Track_step.
Qed.

(** C9, as the code has it. A request that is dispatched to a handler is
    registered under its id after the handler was invoked and before
    anything is delivered to its completion callback. When the handler
    returned a value, threw, or returned a promise that had already
    settled, the dispatch logs register, deregister, reply, in this order.
    When it returned a promise that is still pending, the dispatch ends
    with the invocation registered and no reply sent, and from then on,
    whatever the manager does next (arrivals, ticks, calls, callbacks,
    settlements, in any number and order), as long as no request is
    registered under the same id again and provided no invocation in
    flight held that id at the dispatch: while the promise has not settled
    the invocation stays registered and was not deregistered, and a Cancel
    message for the id finds it and invokes the cancel capability of its
    promise (which then completes at once or not, as its owner decides);
    and once the promise has settled, with a value or with an error, the
    invocation is not registered, it was deregistered exactly once, and the
    reply that carries this outcome was sent right after. That reply
    decodes to a reply message for the id with the result, or with the
    transformed error. *)
Theorem C9_invocation_registered_until_completed
    (w : World) (raw : string) (msg : json) (handler : IManyHandler)
    (script : list reentry) (result : HandlerOutcome) (req : string) :
  marshalling.parse raw = Some msg ->
  classify msg = Some Request ->
  _bigHandler w = Some handler ->
  handler (get msg "rpcId") (get msg "method") (get msg "args") = (script, result) ->
  ToString (get msg "req") = Some req ->
  let w1 := reenter script
              (log (EvInvoke (get msg "rpcId") (get msg "method") (get msg "args")) w) in
  let synchronous (o : outcome) (w' : World) :=
    trace w' = trace w1 ++ [EvRegister req; EvDeregister req; EvSend (reply_text req o)]
    /\ _invokedHandlers w' = delete req (_invokedHandlers w) in
  (exists w',
    _receiveOneMessage (Some raw) w = Return w'
    /\ match result with
       | Returns v => synchronous (Ok v) w'
       | Throws e => synchronous (Err e) w'
       | ReturnsPromise p =>
           match settled (promise_of w p) with
           | Some o => synchronous o w'
           | None =>
               trace w' = trace w1 ++ [EvRegister req]
               /\ _invokedHandlers w' = <[req := Returned p]> (_invokedHandlers w)
               /\ ((forall q, settled (promise_of w q) = None ->
                              req ∉ callbacks (promise_of w q)) ->
                   forall (later : list action) (more : list event),
                     let w2 := run later w' in
                     trace w2 = trace w' ++ more ->
                     EvRegister req ∉ more ->
                     match settled (promise_of w2 p) with
                     | None =>
                         _invokedHandlers w2 !! req = Some (Returned p)
                         /\ (EvDeregister req ∉ more)
                         /\ forall rawc msgc,
                              marshalling.parse rawc = Some msgc ->
                              classify msgc = Some Cancel ->
                              ToString (get msgc "cancel") = Some req ->
                              exists w3,
                                _receiveOneMessage (Some rawc) w2 = Return w3
                                /\ cancels (promise_of w3 p) = S (cancels (promise_of w2 p))
                                /\ match whenCancelled p with
                                   | None =>
                                       trace w3 = trace w2 ++ [EvCancel req]
                                       /\ _invokedHandlers w3 = _invokedHandlers w2
                                       /\ settled (promise_of w3 p) = None
                                   | Some o =>
                                       settled (promise_of w3 p) = Some o
                                       /\ _invokedHandlers w3 !! req = None
                                       /\ exists before after,
                                            trace w3
                                            = trace w2 ++ [EvCancel req] ++ before
                                              ++ [EvDeregister req; EvSend (reply_text req o)]
                                              ++ after
                                            /\ (EvDeregister req ∉ before)
                                            /\ (EvDeregister req ∉ after)
                                   end
                     | Some o =>
                         _invokedHandlers w2 !! req = None
                         /\ exists before after,
                              more = before
                                     ++ [EvDeregister req; EvSend (reply_text req o)] ++ after
                              /\ (EvDeregister req ∉ before)
                              /\ (EvDeregister req ∉ after)
                     end)
           end
       end)
  /\ (plain req = true -> req <> "" ->
      forall o, decodes_as_reply (reply_text req o) req o).
Proof.
  intros Hparse Hclass Hhandler Hresult Hreq. cbn zeta.
  split; [|intros Hplain Hne o; now apply reply_decodes].
  destruct (classify_request msg Hclass) as (Hnull & Hseq & Hcancel & Herr).
  rewrite (receive_parsed raw msg w Hparse Hnull), Hseq, Hcancel, Herr, Hhandler.
  unfold _invokeHandler. rewrite Hresult. cbn zeta.
  set (w1 := reenter script _).
  destruct (untouched_reenter script
              (log (EvInvoke (get msg "rpcId") (get msg "method") (get msg "args")) w))
    as (Hinv & Hprom & _). fold w1 in Hinv, Hprom. fields.
  assert (Hsync : forall o promise,
            trace (completed req o (log (EvRegister req)
                     (upd_invokedHandlers (fun m => <[req := promise]> m) w1)))
              = trace w1 ++ [EvRegister req; EvDeregister req; EvSend (reply_text req o)]
            /\ _invokedHandlers (completed req o (log (EvRegister req)
                     (upd_invokedHandlers (fun m => <[req := promise]> m) w1)))
               = delete req (_invokedHandlers w)).
  { intros o promise. destruct (completed_fields req o
      (log (EvRegister req) (upd_invokedHandlers (fun m => <[req := promise]> m) w1)))
      as (-> & -> & _).
    fields. rewrite <- app_assoc, Hinv. split; [reflexivity|].
    apply delete_insert_eq. }
  destruct result as [v|e|p]; rewrite Hreq.
  - eexists. split; [reflexivity|]. apply Hsync.
  - eexists. split; [reflexivity|]. apply Hsync.
  - eexists. split; [reflexivity|]. cbn [then_].
    assert (Hp : promise_of (log (EvRegister req)
                   (upd_invokedHandlers (fun m => <[req := Returned p]> m) w1)) p
                 = promise_of w p).
    { unfold promise_of. fields. now rewrite Hprom. }
    rewrite Hp. destruct (settled (promise_of w p)) as [o|] eqn:Hsettled; [apply Hsync|].
    set (w' := upd_promises _ _).
    assert (Hp' : promise_of w' p
                  = mkHandlerPromise None (callbacks (promise_of w p) ++ [req])
                      (cancels (promise_of w p))).
    { subst w'. apply promise_of_insert. }
    assert (Hinv' : _invokedHandlers w' = <[req := Returned p]> (_invokedHandlers w)).
    { subst w'. fields. now rewrite Hinv. }
    split; [subst w'; fields; reflexivity|]. split; [exact Hinv'|].
    intros Hflight later more. set (w2 := run later w'). intros Hmore Hreg.
    assert (HT : Track req p (trace w') w').
    { exists []. split; [now rewrite app_nil_r|]. intros _. split.
      - intros q Hq Hpending.
        assert (Hsame : promise_of w' q = promise_of w q).
        { apply promise_of_same. subst w'. gfields.
          rewrite lookup_insert_ne by congruence. now rewrite Hprom. }
        rewrite Hsame in Hpending |- *. now apply Hflight.
      - rewrite Hp'. cbn [settled callbacks].
        split; [rewrite Hinv'; apply lookup_insert_eq|].
        split; [apply not_elem_of_nil|].
        exists (callbacks (promise_of w p)), []. split; [reflexivity|].
        split; [now apply Hflight | apply not_elem_of_nil]. }
    destruct (Track_run req p (trace w') later w' HT) as (more0 & Hmore0 & Himp).
    fold w2 in Hmore0, Himp.
    assert (more0 = more) as -> by (rewrite Hmore0 in Hmore; now apply app_inv_head in Hmore).
    destruct (Himp Hreg) as [_ F2].
    destruct (settled (promise_of w2 p)) as [o|] eqn:Hlater; [exact F2|].
    destruct F2 as (Hsome & Hd & l1 & l2 & Hcbs & Hl1 & Hl2).
    split; [exact Hsome|]. split; [exact Hd|].
    intros rawc msgc Hparsec Hclassc Hkey.
    destruct (classify_cancel msgc Hclassc) as (Hnullc & Hseqc & Hcancelc).
    rewrite (receive_parsed rawc msgc w2 Hparsec Hnullc), Hseqc, Hcancelc, Hkey, Hsome.
    eexists. split; [reflexivity|]. cbn [cancel].
    change (promise_of (log (EvCancel req) w2) p) with (promise_of w2 p).
    rewrite Hlater.
    set (w3 := upd_promises _ (log (EvCancel req) w2)).
    assert (Hp3 : promise_of w3 p
                  = mkHandlerPromise None (callbacks (promise_of w2 p))
                      (S (cancels (promise_of w2 p)))).
    { subst w3. apply promise_of_insert. }
    destruct (whenCancelled p) as [o|].
    + assert (Hpending3 : settled (promise_of w3 p) = None) by now rewrite Hp3.
      destruct (settle_fields p o w3 Hpending3) as (Ht & Hpr & Hi).
      assert (Hp4 : promise_of (settle p o w3) p
                    = mkHandlerPromise (Some o) (callbacks (promise_of w3 p))
                        (cancels (promise_of w3 p))).
      { unfold promise_of at 1. rewrite Hpr, lookup_insert_eq. reflexivity. }
      rewrite Hp4. cbn [cancels settled]. rewrite Hp3. cbn [cancels].
      split; [reflexivity|]. split; [reflexivity|].
      split.
      { rewrite Hi, Hp3. cbn [callbacks]. apply decide_True.
        rewrite Hcbs, elem_of_app, elem_of_cons. tauto. }
      exists (completions o l1), (completions o l2).
      split; [|split; now apply completions_deregister].
      rewrite Ht, Hp3. cbn [callbacks]. rewrite Hcbs, completions_app.
      subst w3. gfields. cbn [completions flat_map app].
      now rewrite <- !app_assoc.
    + rewrite Hp3. cbn [cancels settled]. split; [reflexivity|].
      subst w3. repeat split.
Qed.

Lemma C9_invocation_registered_until_completed_witness :
  let w := setManyHandler (Some deferring_handler) create in
  let answer := Ok (Some (JNum 42)) in
  marshalling.parse scenario_request = Some scenario_request_msg
  /\ classify scenario_request_msg = Some Request
  /\ _bigHandler w = Some deferring_handler
  /\ deferring_handler (get scenario_request_msg "rpcId") (get scenario_request_msg "method")
       (get scenario_request_msg "args") = ([], ReturnsPromise 0)
  /\ ToString (get scenario_request_msg "req") = Some "1"
  /\ (exists w',
       _receiveOneMessage (Some scenario_request) w = Return w'
       /\ _invokedHandlers w' = <[ "1" := Returned 0 ]> (_invokedHandlers w)
       /\ _invokedHandlers (run [Arrive [MessageFactory.cancel "1"]; Tick] w') !! "1"
          = Some (Returned 0)
       /\ _invokedHandlers (run [Arrive [MessageFactory.cancel "1"]; Tick; Settle 0 answer] w')
            !! "1" = None)
  /\ decodes_as_reply scenario_reply_42 "1" answer.
Proof.
  intros w answer.
  assert (Hparse : marshalling.parse scenario_request = Some scenario_request_msg)
    by (vm_compute; reflexivity).
  split; [exact Hparse|]. do 4 (split; [reflexivity|]).
  destruct (C9_invocation_registered_until_completed w scenario_request
              scenario_request_msg deferring_handler [] (ReturnsPromise 0) "1"
              Hparse eq_refl eq_refl eq_refl eq_refl) as ((w' & Hret & H) & Hreply).
  split; [|exact (Hreply eq_refl ltac:(discriminate) answer)].
  change (settled (promise_of w 0)) with (@None outcome) in H.
  destruct H as (_ & Hinv & Hlater).
  assert (Hflight : forall q, settled (promise_of w q) = None ->
                              "1" ∉ callbacks (promise_of w q)).
  { intros q _. apply not_elem_of_nil. }
  assert (Hw' : Return (world_of (_receiveOneMessage (Some scenario_request) w)) = Return w')
    by (rewrite Hret; reflexivity).
  injection Hw' as Hw'.
  exists w'. split; [exact Hret|]. split; [exact Hinv|]. split.
  - pose proof (Hlater Hflight [Arrive [MessageFactory.cancel "1"]; Tick]
                  [EvTick 1; EvDispatch 1 (Some (MessageFactory.cancel "1")); EvCancel "1"])
      as Hthen.
    cbn zeta in Hthen. rewrite <- Hw' in Hthen |- *.
    lapply Hthen; [clear Hthen; intros Hthen | vm_compute; reflexivity].
    lapply Hthen; [clear Hthen; intros Hthen |].
    + match type of Hthen with context [settled ?hp] =>
        let v := eval vm_compute in (settled hp) in
        change (settled hp) with v in Hthen end.
      exact (proj1 Hthen).
    + rewrite !not_elem_of_cons. repeat split; try discriminate. apply not_elem_of_nil.
  - pose proof (Hlater Hflight
                  [Arrive [MessageFactory.cancel "1"]; Tick; Settle 0 answer]
                  [EvTick 1; EvDispatch 1 (Some (MessageFactory.cancel "1")); EvCancel "1";
                   EvDeregister "1"; EvSend scenario_reply_42])
      as Hthen.
    cbn zeta in Hthen. rewrite <- Hw' in Hthen |- *.
    lapply Hthen; [clear Hthen; intros Hthen | vm_compute; reflexivity].
    lapply Hthen; [clear Hthen; intros Hthen |].
    + match type of Hthen with context [settled ?hp] =>
        let v := eval vm_compute in (settled hp) in
        change (settled hp) with v in Hthen end.
      exact (proj1 Hthen).
    + rewrite !not_elem_of_cons. repeat split; try discriminate. apply not_elem_of_nil.
Defined.

Lemma calls_at_the_limit b :
  _lastMessageId b = 2 ^ 53 ->
  sent (trace (run [Do (ReCallOnRemote "svc.foo" "bar" [] []);
                    Do (ReCallOnRemote "svc.foo" "baz" [] [])] b))
  = sent (trace b) ++ [MessageFactory.request limit_id "svc.foo" "bar" [];
                       MessageFactory.request limit_id "svc.foo" "baz" []].
Proof.
  intros Hlast. unfold run. cbn [foldl step reenter1].
  pose proof (callOnRemote_trace "svc.foo" "bar" [] b) as Ht1.
  destruct (core_callOnRemote "svc.foo" "bar" [] b) as (Hl1 & _).
  destruct (callOnRemote "svc.foo" "bar" [] b) as [b1 l1]. cbn [fst snd foldl] in *.
  pose proof (callOnRemote_trace "svc.foo" "baz" [] b1) as Ht2.
  destruct (callOnRemote "svc.foo" "baz" [] b1) as [b2 l2]. cbn [fst snd foldl] in *.
  assert (Hn1 : next_id b = limit_id) by (unfold next_id; rewrite Hlast; reflexivity).
  assert (Hn2 : next_id b1 = limit_id)
    by (unfold next_id; rewrite Hl1, Hlast; reflexivity).
  rewrite Ht2, Ht1, Hn1, Hn2, <- app_assoc, sent_app. reflexivity.
Qed.

(** C9 does not hold for every dispatched request. A caller whose counter
    stands at 2^53 sends its next two calls under one id. At the manager
    that receives both while the first is in flight, the completion of the
    first deletes the registration that the second made: the second
    invocation is still running, its completion callback still waits, but
    nothing is registered under its id, a Cancel message for the id finds
    nothing and changes nothing, and when the second completes a second
    reply with the same [seq] is sent. *)
Lemma C9_second_request_under_an_id_loses_its_registration :
  let request1 := MessageFactory.request limit_id "svc.foo" "bar" [] in
  let request2 := MessageFactory.request limit_id "svc.foo" "baz" [] in
  let caller := after_calls (N.succ (2 ^ 53 - 1)) in
  let w := run [Do (ReSetManyHandler (Some two_promises_handler));
                Arrive [request1; request2]; Tick; Tick;
                Settle 0 (Ok (Some (JNum 42)))] create in
  reachable caller
  /\ sent (trace (run [Do (ReCallOnRemote "svc.foo" "bar" [] []);
                       Do (ReCallOnRemote "svc.foo" "baz" [] [])] caller))
     = sent (trace caller) ++ [request1; request2]
  /\ reachable w
  /\ length (invocations (trace w)) = 2%nat
  /\ settled (promise_of w 1) = None
  /\ callbacks (promise_of w 1) = [limit_id]
  /\ _invokedHandlers w !! limit_id = None
  /\ _receiveOneMessage (Some (MessageFactory.cancel limit_id)) w = Return w
  /\ sent (trace w) = [reply_text limit_id (Ok (Some (JNum 42)))]
  /\ sent (trace (run [Settle 1 (Ok None)] w))
     = [reply_text limit_id (Ok (Some (JNum 42))); reply_text limit_id (Ok None)].
Proof.
  intros request1 request2 caller w.
  split; [apply reachable_after_calls|].
  split.
  { apply calls_at_the_limit. unfold caller. rewrite after_calls_counter. reflexivity. }
  split; [eexists; reflexivity|].
  vm_compute. repeat split.
Qed.

(** * Cancellation of an invocation *)

Lemma Registered_reachable w : reachable w -> Registered w.
Proof.
  intros [acts ->]. unfold run. apply foldl_preserves; [intros; now apply Registered_step|].
  intros req promise H. cbn in H. now rewrite lookup_empty in H.
Qed.

Lemma sent_completions o cbs :
  sent (completions o cbs) = (fun req => reply_text req o) <$> cbs.
Proof.
  induction cbs as [|r cbs IH]; [reflexivity|].
  cbn [completions flat_map app fmap list_fmap]. fold (completions o cbs).
  change (EvDeregister r :: EvSend (reply_text r o) :: completions o cbs)
    with ([EvDeregister r; EvSend (reply_text r o)] ++ completions o cbs).
  rewrite sent_app, IH. reflexivity.
Qed.

(** X1. The Cancel message of an id, as [MessageFactory.cancel] writes it,
    at a manager that can arise: the dispatch returns. When nothing is
    registered under the id (it never was, or it has completed) the state
    is exactly as before. Otherwise what is registered is a promise that a
    handler returned and that has not settled, with the completion callback
    of the id attached; the dispatch invokes its cancel capability, once,
    and what follows is up to the owner of the promise: when the owner goes
    on, the registration stays and nothing is sent; when the owner stops at
    once, the promise settles, every request that awaited it is answered
    with that outcome, in the order of their registration, and their
    registrations are deleted, the one of the id among them. *)
Theorem cancel_message_reaches_the_registered_invocation (w : World) (req : string) :
  reachable w -> plain req = true -> req <> "" ->
  exists w',
    _receiveOneMessage (Some (MessageFactory.cancel req)) w = Return w'
    /\ match _invokedHandlers w !! req with
       | None => w' = w
       | Some promise =>
           w' = cancel promise (log (EvCancel req) w)
           /\ exists p,
                promise = Returned p
                /\ settled (promise_of w p) = None
                /\ req ∈ callbacks (promise_of w p)
                /\ cancels (promise_of w' p) = S (cancels (promise_of w p))
                /\ match whenCancelled p with
                   | None =>
                       trace w' = trace w ++ [EvCancel req]
                       /\ _invokedHandlers w' = _invokedHandlers w
                       /\ settled (promise_of w' p) = None
                   | Some o =>
                       settled (promise_of w' p) = Some o
                       /\ sent (trace w')
                          = sent (trace w)
                            ++ ((fun r => reply_text r o) <$> callbacks (promise_of w p))
                       /\ forall r,
                            _invokedHandlers w' !! r
                            = if decide (r ∈ callbacks (promise_of w p)) then None
                              else _invokedHandlers w !! r
                   end
       end.
Proof.
  intros Hreach Hplain Hne. rewrite (receive_cancel_text req w Hplain Hne).
  eexists. split; [reflexivity|].
  destruct (_invokedHandlers w !! req) as [promise|] eqn:Hlook; [|reflexivity].
  split; [reflexivity|].
  destruct (Registered_reachable w Hreach req promise Hlook) as (p & -> & Hpending & Hin).
  exists p. split; [reflexivity|]. split; [exact Hpending|]. split; [exact Hin|].
  cbn [cancel].
  change (promise_of (log (EvCancel req) w) p) with (promise_of w p).
  rewrite Hpending.
  set (w1 := upd_promises _ (log (EvCancel req) w)).
  assert (Hp1 : promise_of w1 p
                = mkHandlerPromise None (callbacks (promise_of w p))
                    (S (cancels (promise_of w p)))).
  { subst w1. apply promise_of_insert. }
  destruct (whenCancelled p) as [o|].
  - assert (Hpending1 : settled (promise_of w1 p) = None) by now rewrite Hp1.
    destruct (settle_fields p o w1 Hpending1) as (Ht & Hpr & Hi).
    assert (Hp2 : promise_of (settle p o w1) p
                  = mkHandlerPromise (Some o) (callbacks (promise_of w1 p))
                      (cancels (promise_of w1 p))).
    { unfold promise_of at 1. rewrite Hpr, lookup_insert_eq. reflexivity. }
    rewrite Hp2. cbn [cancels settled]. rewrite Hp1. cbn [cancels].
    split; [reflexivity|]. split; [reflexivity|]. split.
    + rewrite Ht, Hp1. cbn [callbacks]. rewrite sent_app, sent_completions.
      subst w1. gfields. now rewrite sent_snoc, app_nil_r.
    + intros r. rewrite Hi, Hp1. reflexivity.
  - rewrite Hp1. cbn [cancels settled]. split; [reflexivity|].
    subst w1. repeat split.
Qed.

Lemma cancel_message_reaches_the_registered_invocation_witness :
  let request := MessageFactory.request "1" "svc.foo" "baz" [] in
  let w := run [Do (ReSetManyHandler (Some two_promises_handler)); Arrive [request]; Tick]
             create in
  reachable w /\ plain "1" = true /\ "1" <> ""
  /\ _invokedHandlers w !! "1" = Some (Returned 1)
  /\ exists w',
       _receiveOneMessage (Some (MessageFactory.cancel "1")) w = Return w'
       /\ settled (promise_of w' 1) = Some (Err canceled)
       /\ sent (trace w') = sent (trace w) ++ [reply_text "1" (Err canceled)]
       /\ _invokedHandlers w' !! "1" = None.
Proof.
  intros request w.
  assert (Hreach : reachable w) by (eexists; reflexivity).
  assert (Hne : "1" <> "") by discriminate.
  split; [exact Hreach|]. split; [reflexivity|]. split; [exact Hne|].
  split; [vm_compute; reflexivity|].
  destruct (cancel_message_reaches_the_registered_invocation w "1" Hreach eq_refl Hne)
    as (w' & Hret & H).
  change (_invokedHandlers w !! "1") with (Some (Returned 1)) in H.
  destruct H as (_ & p & [= <-] & _ & _ & _ & H).
  change (whenCancelled 1) with (Some (Err canceled)) in H.
  destruct H as (Hsettled & Hsent & Hgone).
  exists w'. split; [exact Hret|]. split; [exact Hsettled|]. split; [exact Hsent|].
  exact (Hgone "1").
Defined.

(** X8. A call that the caller cancels while the peer's handler is still at
    work, across the two managers of a channel. At the peer the request is
    registered under the id, with the promise the handler returned. The
    caller's cancel sends the Cancel text of the id; its dispatch at the
    peer invokes the cancel capability of that promise, once. When the
    owner of the promise goes on, the registration is kept and nothing is
    sent, since the reply is still owed, and when the promise settles
    afterwards the reply of the id is sent and the registration is
    deleted. When the owner stops at once, the promise settles within the
    dispatch: the reply of the id, with the outcome of the cancellation,
    is sent and the registration is deleted right then, and a later
    settlement changes nothing. *)
Theorem cancelled_call_reaches_the_handlers_promise
    (a b : World) (proxyId path : string) (args : list json)
    (handler : IManyHandler) (script : list reentry) (p : nat) :
  plain proxyId = true -> plain path = true ->
  handler (Some (JStr proxyId)) (Some (JStr path)) (Some (JArr args))
    = (script, ReturnsPromise p) ->
  promises b !! p = None ->
  let id := next_id a in
  let request := MessageFactory.request id proxyId path args in
  let a1 := fst (callOnRemote proxyId path args a) in
  let result := snd (callOnRemote proxyId path args a) in
  last (sent (trace (lazyPromise.cancel result a1))) = Some (MessageFactory.cancel id)
  /\ exists b1 b2,
       _receiveOneMessage (Some request) (setManyHandler (Some handler) b) = Return b1
       /\ _invokedHandlers b1 = <[id := Returned p]> (_invokedHandlers b)
       /\ _receiveOneMessage (Some (MessageFactory.cancel id)) b1 = Return b2
       /\ cancels (promise_of b2 p) = 1%nat
       /\ match whenCancelled p with
          | None =>
              settled (promise_of b2 p) = None
              /\ _invokedHandlers b2 = _invokedHandlers b1
              /\ sent (trace b2) = sent (trace b1)
              /\ forall o,
                   sent (trace (settle p o b2)) = sent (trace b2) ++ [reply_text id o]
                   /\ _invokedHandlers (settle p o b2) = delete id (_invokedHandlers b)
          | Some o =>
              settled (promise_of b2 p) = Some o
              /\ _invokedHandlers b2 = delete id (_invokedHandlers b)
              /\ sent (trace b2) = sent (trace b1) ++ [reply_text id o]
              /\ forall o', settle p o' b2 = b2
          end.
Proof.
  intros Hproxy Hpath Hhandler Hfresh. cbn zeta.
  pose proof (Number_toString_plain (increment (_lastMessageId a))) as Hplain.
  pose proof (Number_toString_nonempty (increment (_lastMessageId a))) as Hne.
  fold (next_id a) in Hplain, Hne.
  destruct (core_callOnRemote proxyId path args a) as (_ & _ & Hheap & _ & ->).
  split.
  { rewrite (cancel_pending_trace (length (heap a)) (lazyPromise.create (next_id a)));
      [rewrite sent_snoc; apply last_snoc | | reflexivity | reflexivity].
    rewrite Hheap. now apply list_lookup_middle. }
  set (msg := JObj [("req", JStr (next_id a)); ("rpcId", JStr proxyId);
                    ("method", JStr path); ("args", JArr args)]).
  set (b0 := setManyHandler (Some handler) b).
  set (v0 := reenter script
               (log (EvInvoke (Some (JStr proxyId)) (Some (JStr path)) (Some (JArr args))) b0)).
  set (v1 := log (EvRegister (next_id a))
               (upd_invokedHandlers (fun m => <[next_id a := Returned p]> m) v0)).
  destruct (untouched_reenter script
              (log (EvInvoke (Some (JStr proxyId)) (Some (JStr path)) (Some (JArr args))) b0))
    as (Hinvoked & Hpromises & _).
  fold v0 in Hinvoked, Hpromises.
  assert (Hp1 : promises v1 !! p = None) by (unfold v1; gfields; now rewrite Hpromises).
  set (b1 := upd_promises
               (fun m => <[p := mkHandlerPromise None [next_id a] 0]> m) v1).
  assert (Hb : _receiveOneMessage
                 (Some (MessageFactory.request (next_id a) proxyId path args)) b0
               = Return b1).
  { rewrite (request_is_stringify _ _ _ args Hplain Hproxy Hpath). fold msg.
    rewrite (receive_request _ msg b0 handler script (ReturnsPromise p) (next_id a)
               (parse_stringify msg) eq_refl eq_refl Hhandler eq_refl).
    cbn [promise_for].
    change (get msg "rpcId") with (Some (JStr proxyId)).
    change (get msg "method") with (Some (JStr path)).
    change (get msg "args") with (Some (JArr args)).
    fold v0. fold v1. unfold then_.
    now rewrite (promise_of_fresh v1 p Hp1). }
  assert (Hregistered : _invokedHandlers b1 = <[next_id a := Returned p]> (_invokedHandlers b)).
  { unfold b1, v1. gfields. now rewrite Hinvoked. }
  assert (Hpb1 : promise_of (log (EvCancel (next_id a)) b1) p
                 = mkHandlerPromise None [next_id a] 0).
  { unfold promise_of, b1. gfields. now rewrite lookup_insert_eq. }
  set (c1 := upd_promises (fun m => <[p := mkHandlerPromise None [next_id a] 1]> m)
               (log (EvCancel (next_id a)) b1)).
  assert (Hpc1 : promise_of c1 p = mkHandlerPromise None [next_id a] 1)
    by apply promise_of_insert.
  assert (Hc : _receiveOneMessage (Some (MessageFactory.cancel (next_id a))) b1
               = Return match whenCancelled p with
                        | Some o => settle p o c1
                        | None => c1
                        end).
  { rewrite (receive_cancel_text _ b1 Hplain Hne), Hregistered, lookup_insert_eq.
    cbn [cancel]. rewrite Hpb1. reflexivity. }
  exists b1. eexists. split; [exact Hb|]. split; [exact Hregistered|]. split; [exact Hc|].
  assert (Hsettle : forall o, settle p o c1
            = completed (next_id a) o
                (upd_promises (fun m => <[p := mkHandlerPromise (Some o) [next_id a] 1]> m) c1)).
  { intros o. unfold settle. rewrite Hpc1. reflexivity. }
  assert (Htrace : sent (trace c1) = sent (trace b1)).
  { unfold c1. gfields. now rewrite sent_snoc, app_nil_r. }
  destruct (whenCancelled p) as [o|].
  - rewrite Hsettle.
    match goal with |- context [completed (next_id a) o ?u] =>
      set (c2 := u); destruct (completed_fields (next_id a) o c2) as (Ht & Hi & Hpr) end.
    assert (Hpc2 : promise_of (completed (next_id a) o c2) p
                   = mkHandlerPromise (Some o) [next_id a] 1).
    { unfold promise_of. rewrite Hpr. unfold c2. gfields. now rewrite lookup_insert_eq. }
    rewrite Hpc2. cbn [cancels settled]. split; [reflexivity|]. split; [reflexivity|].
    split.
    { rewrite Hi. transitivity (delete (next_id a) (_invokedHandlers b1)); [reflexivity|].
      rewrite Hregistered. apply delete_insert_eq. }
    split.
    { rewrite Ht, sent_completion. f_equal. exact Htrace. }
    intros o'. unfold settle. now rewrite Hpc2.
  - rewrite Hpc1. cbn [cancels settled]. split; [reflexivity|]. split; [reflexivity|].
    split; [reflexivity|]. split; [exact Htrace|].
    intros o. rewrite Hsettle.
    match goal with |- context [completed (next_id a) o ?u] =>
      destruct (completed_fields (next_id a) o u) as (-> & -> & _) end.
    split; [now rewrite sent_completion|].
    transitivity (delete (next_id a) (_invokedHandlers b1)); [reflexivity|].
    rewrite Hregistered. apply delete_insert_eq.
Qed.

Lemma cancelled_call_reaches_the_handlers_promise_witness :
  plain "svc.foo" = true /\ plain "bar" = true
  /\ promises create !! 0%nat = None
  /\ last (sent (trace (lazyPromise.cancel 0 scenario_called)))
     = Some (MessageFactory.cancel "1")
  /\ exists b1 b2,
       _receiveOneMessage (Some scenario_request)
         (setManyHandler (Some deferring_handler) create) = Return b1
       /\ _receiveOneMessage (Some (MessageFactory.cancel "1")) b1 = Return b2
       /\ cancels (promise_of b2 0) = 1%nat
       /\ sent (trace (settle 0 (Ok (Some (JNum 42))) b2))
          = sent (trace b2) ++ [scenario_reply_42].
Proof.
  assert (Hfresh : promises create !! 0%nat = None) by (vm_compute; reflexivity).
  split; [reflexivity|]. split; [reflexivity|]. split; [exact Hfresh|].
  destruct (cancelled_call_reaches_the_handlers_promise create create "svc.foo" "bar"
              [JNum 1; JNum 2] deferring_handler [] 0 eq_refl eq_refl eq_refl Hfresh)
    as (Hsent & b1 & b2 & Hb & _ & Hc & Hcancels & H).
  change (whenCancelled 0) with (@None outcome) in H.
  destruct H as (_ & _ & _ & Hsettle).
  split; [exact Hsent|].
  exists b1, b2. repeat split; try assumption. apply Hsettle.
Defined.
